(** * automatic.py: the XMRig [config.json] worker rewriter

    A shallow embedding of [src/automatic.py] and of the parts of the
    Python runtime it calls ([str], [re], [json], [pathlib]), followed by
    the properties of the validator, the suffix replacer, the patcher, the
    preview traversal and the two handlers of the window that call them.

    Conventions.
    - A Python [str] is a list of Unicode code points ([text]); a file holds
      a list of octets ([bytes]).
    - A Python object that [json.loads] can build is a [value]; a [dict] is
      an association list in insertion order with distinct keys.
    - A call that may raise returns a [result]; code that touches files runs
      in the monad [io], which threads the file system and a log of writes.
    - In literals a single quote stands for the JSON double quote; [jq]
      performs the substitution. *)

From Stdlib Require Import String Ascii List NArith ZArith Bool Lia.
From Stdlib Require Import DecimalString DecimalZ DecimalPos DecimalFacts.
Import ListNotations.

Local Open Scope N_scope.

(* ================================================================= *)
(** ** Text and bytes *)

Abbreviation char := N (only parsing).
Abbreviation text := (list N) (only parsing).
Abbreviation bytes := (list N) (only parsing).

(** An ASCII literal as text, one code point per character. *)
Definition lit (s : string) : text := map N_of_ascii (list_ascii_of_string s).

Definition quote : char := 34.      (* the double quote *)
Definition apostrophe : char := 39.
Definition backslash : char := 92.
Definition dot : char := 46.

Definition char_eqb : char -> char -> bool := N.eqb.

Fixpoint text_eqb (a b : text) : bool :=
  match a, b with
  | [], [] => true
  | x :: a', y :: b' => char_eqb x y && text_eqb a' b'
  | _, _ => false
  end.

(** [c in s] for a one-character [c]. *)
Definition contains (c : char) (s : text) : bool := existsb (char_eqb c) s.

(** [s[-n:]] for [n > 0]: the last [n] code points, all of [s] when it is shorter. *)
Definition last_n (n : nat) (s : text) : text := skipn (length s - n)%nat s.

(** [str(i)] for a non-negative index. *)
Definition digit_char (d : N) : char := 48 + d.

Fixpoint uint_text (d : Decimal.uint) : text :=
  match d with
  | Decimal.Nil => []
  | Decimal.D0 d => 48 :: uint_text d
  | Decimal.D1 d => 49 :: uint_text d
  | Decimal.D2 d => 50 :: uint_text d
  | Decimal.D3 d => 51 :: uint_text d
  | Decimal.D4 d => 52 :: uint_text d
  | Decimal.D5 d => 53 :: uint_text d
  | Decimal.D6 d => 54 :: uint_text d
  | Decimal.D7 d => 55 :: uint_text d
  | Decimal.D8 d => 56 :: uint_text d
  | Decimal.D9 d => 57 :: uint_text d
  end.

Definition int_text (z : Z) : text :=
  match Z.to_int z with
  | Decimal.Pos d => uint_text d
  | Decimal.Neg d => 45 :: uint_text d
  end.

Definition nat_text (n : nat) : text := int_text (Z.of_nat n).

(* ----------------------------------------------------------------- *)
(** *** [str.strip()] *)

(** [str.isspace] on one code point: the whitespace table of the
    interpreter's Unicode database. *)
Definition py_isspace (c : char) : bool :=
  ((0x09 <=? c) && (c <=? 0x0D)) || ((0x1C <=? c) && (c <=? 0x20))
  || (c =? 0x85) || (c =? 0xA0) || (c =? 0x1680)
  || ((0x2000 <=? c) && (c <=? 0x200A))
  || (c =? 0x2028) || (c =? 0x2029) || (c =? 0x202F) || (c =? 0x205F)
  || (c =? 0x3000).

Fixpoint lstrip (s : text) : text :=
  match s with
  | c :: s' => if py_isspace c then lstrip s' else s
  | [] => []
  end.

Definition rstrip (s : text) : text := rev (lstrip (rev s)).

Definition strip (s : text) : text := rstrip (lstrip s).

(* ----------------------------------------------------------------- *)
(** *** [re.fullmatch] of a character class under [+] *)

(** A bracket expression [[a-bc-d...]] as its list of inclusive ranges. *)
Definition char_class := list (char * char).

Definition in_class (cls : char_class) (c : char) : bool :=
  existsb (fun r => (fst r <=? c) && (c <=? snd r)) cls.

(** [re.fullmatch(r"[cls]+", s)]: the matched text, or [None]. *)
Definition re_fullmatch_plus (cls : char_class) (s : text) : option text :=
  match s with
  | [] => None
  | _ :: _ => if forallb (in_class cls) s then Some s else None
  end.

(** Truthiness of an optional match object. *)
Definition truthy {A} (o : option A) : bool :=
  match o with Some _ => true | None => false end.

(* ----------------------------------------------------------------- *)
(** *** [str.rsplit(sep, 1)] for a one-character separator *)

(** Scanning from the left, the split at the last separator, if any:
    [Some (before, after)]. *)
Fixpoint rsplit_last (sep : char) (s : text) : option (text * text) :=
  match s with
  | [] => None
  | c :: s' =>
      match rsplit_last sep s' with
      | Some (p, q) => Some (c :: p, q)
      | None => if char_eqb c sep then Some ([], s') else None
      end
  end.

(** [s.rsplit(sep, 1)]: one or two pieces. *)
Definition rsplit1 (sep : char) (s : text) : list text :=
  match rsplit_last sep s with
  | Some (p, q) => [p; q]
  | None => [s]
  end.

(* ================================================================= *)
(** ** UTF-8, the [encoding="utf-8"] of [read_text] and [write_text] *)

Module Utf8.

Definition is_cont (b : N) : bool := (0x80 <=? b) && (b <=? 0xBF).

Definition is_surrogate (c : char) : bool := (0xD800 <=? c) && (c <=? 0xDFFF).

(** A code point a [str] can be encoded from: a Unicode scalar value. *)
Definition encodable (c : char) : bool := negb (is_surrogate c) && (c <=? 0x10FFFF).

Definition encode_char (c : char) : bytes :=
  if c <? 0x80 then [c]
  else if c <? 0x800 then [0xC0 + c / 64; 0x80 + c mod 64]
  else if c <? 0x10000 then
    [0xE0 + c / 4096; 0x80 + (c / 64) mod 64; 0x80 + c mod 64]
  else
    [0xF0 + c / 262144; 0x80 + (c / 4096) mod 64; 0x80 + (c / 64) mod 64;
     0x80 + c mod 64].

(** [s.encode("utf-8")]: [None] stands for [UnicodeEncodeError]. *)
Fixpoint encode (s : text) : option bytes :=
  match s with
  | [] => Some []
  | c :: s' =>
      if encodable c then
        match encode s' with
        | Some bs => Some (encode_char c ++ bs)
        | None => None
        end
      else None
  end.

(** [b.decode("utf-8")] with strict errors: [None] stands for
    [UnicodeDecodeError].  Overlong forms, surrogates and values above
    U+10FFFF are rejected. *)
Fixpoint decode (bs : bytes) : option text :=
  match bs with
  | [] => Some []
  | b0 :: r0 =>
      if b0 <? 0x80 then option_map (cons b0) (decode r0)
      else if (0xC0 <=? b0) && (b0 <? 0xE0) then
        match r0 with
        | b1 :: r1 =>
            let c := (b0 - 0xC0) * 64 + (b1 - 0x80) in
            if is_cont b1 && (0x80 <=? c)
            then option_map (cons c) (decode r1) else None
        | _ => None
        end
      else if (0xE0 <=? b0) && (b0 <? 0xF0) then
        match r0 with
        | b1 :: b2 :: r2 =>
            let c := (b0 - 0xE0) * 4096 + (b1 - 0x80) * 64 + (b2 - 0x80) in
            if is_cont b1 && is_cont b2 && (0x800 <=? c) && negb (is_surrogate c)
            then option_map (cons c) (decode r2) else None
        | _ => None
        end
      else if (0xF0 <=? b0) && (b0 <? 0xF8) then
        match r0 with
        | b1 :: b2 :: b3 :: r3 =>
            let c := (b0 - 0xF0) * 262144 + (b1 - 0x80) * 4096
                     + (b2 - 0x80) * 64 + (b3 - 0x80) in
            if is_cont b1 && is_cont b2 && is_cont b3
               && (0x10000 <=? c) && (c <=? 0x10FFFF)
            then option_map (cons c) (decode r3) else None
        | _ => None
        end
      else None
  end.

(** A source literal, taken as UTF-8. *)
Definition of_string (s : string) : text :=
  match decode (lit s) with Some t => t | None => [] end.

End Utf8.

(** A literal in which ['] is written for the double quote. *)
Definition jq (s : string) : text :=
  map (fun c => if c =? apostrophe then quote else c) (Utf8.of_string s).

(** The same literal as the bytes of a file. *)
Definition jq_bytes (s : string) : bytes :=
  map (fun c => if c =? apostrophe then quote else c) (lit s).

(* ================================================================= *)
(** ** Paths and the file system *)

(** A [pathlib.Path]: the final component and everything before it. *)
Record Path := { parent : text; name : text }.

Definition path_eqb (p q : Path) : bool :=
  text_eqb (parent p) (parent q) && text_eqb (name p) (name q).

(** [Path.suffix]: the final component from its last dot on, unless the
    dot is its first or its last character. *)
Definition suffix (p : Path) : text :=
  match rsplit_last dot (name p) with
  | Some (_ :: _, (_ :: _) as ext) => dot :: ext
  | _ => []
  end.

(** [Path.stem]: the final component without its suffix. *)
Definition stem (p : Path) : text :=
  match rsplit_last dot (name p) with
  | Some ((_ :: _) as st, _ :: _) => st
  | _ => name p
  end.

(** The operating system, for its line separator [os.linesep]. *)
Inductive Platform := Posix | Windows.
Existing Class Platform.

Definition os_linesep {P : Platform} : text :=
  match P with
  | Posix => [10]
  | Windows => [13; 10]
  end.

(** The path separators: [sep], and [altsep] where there is one. *)
Definition os_seps {P : Platform} : list char :=
  match P with
  | Posix => [47]
  | Windows => [92; 47]
  end.

(** The files, and every write in the order it happened. *)
Record world := {
  files : Path -> option bytes;
  writes : list (Path * bytes)
}.

Definition store (p : Path) (b : bytes) (w : world) : world :=
  {| files := fun q => if path_eqb q p then Some b else files w q;
     writes := writes w ++ [(p, b)] |}.

(** Text mode with [newline=None], reading: each of CR LF and CR becomes LF. *)
Fixpoint universal_newlines (s : text) : text :=
  match s with
  | [] => []
  | c :: r =>
      if c =? 13 then
        10 :: match r with
              | c' :: r' =>
                  if c' =? 10 then universal_newlines r' else universal_newlines r
              | [] => []
              end
      else c :: universal_newlines r
  end.

(** Text mode with [newline=None], writing: each LF becomes the line separator. *)
Definition translate_newlines `{Platform} (s : text) : text :=
  flat_map (fun c => if c =? 10 then os_linesep else [c]) s.

(* ================================================================= *)
(** ** Exceptions and results *)

Inductive exn :=
| FileNotFoundError (p : Path)
| UnicodeDecodeError
| UnicodeEncodeError
| JSONDecodeError (msg : string)
| RecursionError
| ValueError (msg : text)
| AttributeError (msg : string).

Inductive result (A : Type) :=
| Ok (a : A)
| Raise (e : exn).
Arguments Ok {A} a.
Arguments Raise {A} e.

Definition rbind {A B} (r : result A) (k : A -> result B) : result B :=
  match r with
  | Ok a => k a
  | Raise e => Raise e
  end.

Declare Scope result_scope.
Delimit Scope result_scope with result.
Notation "x <- r ;; k" := (rbind r (fun x => k))
  (at level 61, r at next level, right associativity) : result_scope.
Notation "' p <- r ;; k" := (rbind r (fun p => k))
  (at level 61, p pattern, r at next level, right associativity) : result_scope.

(* ================================================================= *)
(** ** Python floats

    [json] hands a number literal with a fraction or an exponent to
    [float] and prints a float with [float.__repr__]; both are taken as an
    interface, with the three constants the decoder knows by name. *)

Class PyFloat := {
  float : Type;
  float_of_literal : text -> float;     (* [float(s)] on a JSON number literal *)
  float_nan : float;                    (* [float("nan")] *)
  float_inf : float;                    (* [float("inf")] *)
  float_neg_inf : float;                (* [float("-inf")] *)
  float_str : float -> text             (* [json.encoder]'s [floatstr] *)
}.

Section Model.

Context {F : PyFloat}.

(* ================================================================= *)
(** ** Python objects built by [json.loads] *)

Unset Elimination Schemes.
Inductive value :=
| VNone
| VBool (b : bool)
| VInt (z : Z)
| VFloat (f : float)
| VStr (s : text)
| VList (l : list value)
| VDict (d : list (text * value)).
Set Elimination Schemes.

Definition dict := list (text * value).

(** [d.get(k)] *)
Fixpoint dict_get (d : dict) (k : text) : option value :=
  match d with
  | [] => None
  | (k', v) :: d' => if text_eqb k' k then Some v else dict_get d' k
  end.

(** [d[k] = v]: an existing key keeps its position, a new key goes last. *)
Fixpoint dict_set (d : dict) (k : text) (v : value) : dict :=
  match d with
  | [] => [(k, v)]
  | (k', v') :: d' =>
      if text_eqb k' k then (k', v) :: d' else (k', v') :: dict_set d' k v
  end.

(** [obj.get(k, default)] on any object: only a [dict] has the method. *)
Definition py_get (obj : value) (k : text) (default : value) : result value :=
  match obj with
  | VDict d => Ok (match dict_get d k with Some v => v | None => default end)
  | _ => Raise (AttributeError "object has no attribute 'get'")
  end.

(** [s.strip()] on any object: only a [str] has the method. *)
Definition py_strip (obj : value) : result text :=
  match obj with
  | VStr s => Ok (strip s)
  | _ => Raise (AttributeError "object has no attribute 'strip'")
  end.

(* ================================================================= *)
(** ** The validator and the suffix replacer *)

(** The bracket expression of [r"[1-9A-HJ-NP-Za-km-z]+"]. *)
Definition base58ish : char_class :=
  [(49, 57); (65, 72); (74, 78); (80, 90); (97, 107); (109, 122)].

Definition looks_like_solana_address (s : value) : result bool :=
  (s <- py_strip s ;;
   if negb ((32 <=? length s)%nat && (length s <=? 44)%nat) then Ok false
   else if negb (truthy (re_fullmatch_plus base58ish s)) then Ok false
   else Ok true)%result.

Definition replace_worker_part (user_value : value) (sol_addr : text) : value :=
  match user_value with
  | VStr u =>
      if negb (contains dot u) then user_value
      else
        match rsplit1 dot u with
        | [prefix; _] => VStr (prefix ++ [dot] ++ sol_addr)
        | _ => user_value        (* not reached: [u] has a separator *)
        end
  | _ => user_value
  end.

(* ================================================================= *)
(** ** [json.loads] *)

Definition is_json_ws (c : char) : bool :=
  (c =? 32) || (c =? 9) || (c =? 10) || (c =? 13).

Fixpoint skip_ws (s : text) : text :=
  match s with
  | c :: s' => if is_json_ws c then skip_ws s' else s
  | [] => []
  end.

Definition is_digit (c : char) : bool := (48 <=? c) && (c <=? 57).

Definition hex_val (c : char) : option N :=
  if (48 <=? c) && (c <=? 57) then Some (c - 48)
  else if (97 <=? c) && (c <=? 102) then Some (c - 87)
  else if (65 <=? c) && (c <=? 70) then Some (c - 55)
  else None.

Definition hex4 (a b c d : char) : option N :=
  match hex_val a, hex_val b, hex_val c, hex_val d with
  | Some x, Some y, Some z, Some w => Some (((x * 16 + y) * 16 + z) * 16 + w)
  | _, _, _, _ => None
  end.

Definition is_high_surrogate (c : N) : bool := (0xD800 <=? c) && (c <=? 0xDBFF).
Definition is_low_surrogate (c : N) : bool := (0xDC00 <=? c) && (c <=? 0xDFFF).
Definition join_surrogates (hi lo : N) : char :=
  0x10000 + (hi - 0xD800) * 1024 + (lo - 0xDC00).

(** The character a one-letter escape stands for. *)
Definition unescape (e : char) : option char :=
  if e =? quote then Some quote
  else if e =? backslash then Some backslash
  else if e =? 47 then Some 47
  else if e =? 98 then Some 8
  else if e =? 102 then Some 12
  else if e =? 110 then Some 10
  else if e =? 114 then Some 13
  else if e =? 116 then Some 9
  else None.

Definition rcons {A} (c : char) (r : result (text * A)) : result (text * A) :=
  match r with
  | Ok (s, rest) => Ok (c :: s, rest)
  | Raise e => Raise e
  end.

Definition bad_escape {A} : result A := Raise (JSONDecodeError "Invalid \uXXXX escape").

(** [scanstring] in strict mode, entered after the opening quote: the
    decoded string and the input after the closing quote. *)
Fixpoint scanstring (s : text) : result (text * text) :=
  match s with
  | [] => Raise (JSONDecodeError "Unterminated string starting at")
  | c :: r =>
      if c =? quote then Ok ([], r)
      else if c =? backslash then
        match r with
        | [] => Raise (JSONDecodeError "Unterminated string starting at")
        | e :: r1 =>
            if e =? 117 then
              match r1 with
              | h1 :: h2 :: h3 :: h4 :: ((_ :: _) as r2) =>
                  match hex4 h1 h2 h3 h4 with
                  | None => bad_escape
                  | Some uni =>
                      if is_high_surrogate uni then
                        match r2 with
                        | b :: u :: k1 :: k2 :: k3 :: k4 :: ((_ :: _) as r3) =>
                            if (b =? backslash) && (u =? 117) then
                              match hex4 k1 k2 k3 k4 with
                              | None => bad_escape
                              | Some uni2 =>
                                  if is_low_surrogate uni2
                                  then rcons (join_surrogates uni uni2) (scanstring r3)
                                  else rcons uni (scanstring r2)
                              end
                            else rcons uni (scanstring r2)
                        | _ => rcons uni (scanstring r2)
                        end
                      else rcons uni (scanstring r2)
                  end
              | _ => bad_escape
              end
            else
              match unescape e with
              | Some x => rcons x (scanstring r1)
              | None => Raise (JSONDecodeError "Invalid \escape")
              end
        end
      else if c <? 32 then Raise (JSONDecodeError "Invalid control character at")
      else rcons c (scanstring r)
  end.

Fixpoint span_digits (s : text) : text * text :=
  match s with
  | c :: s' =>
      if is_digit c then let (d, r) := span_digits s' in (c :: d, r)
      else ([], s)
  | [] => ([], [])
  end.

(** The parts of a number, as the scanner matches them one after the
    other: each returns what it took and what is left. *)
Definition match_sign (s : text) : text * text :=
  match s with
  | c :: r => if c =? 45 then ([45], r) else ([], s)
  | [] => ([], s)
  end.

Definition match_int (s : text) : option (text * text) :=
  match s with
  | [] => None
  | c :: r =>
      if (49 <=? c) && (c <=? 57)
      then let (d, r') := span_digits r in Some (c :: d, r')
      else if c =? 48 then Some ([48], r)
      else None
  end.

Definition match_frac (s : text) : text * text :=
  match s with
  | p :: ((d :: _) as r) =>
      if (p =? 46) && is_digit d
      then let (ds, r') := span_digits r in (p :: ds, r')
      else ([], s)
  | _ => ([], s)
  end.

Definition match_exp (s : text) : text * text :=
  match s with
  | e :: r =>
      if (e =? 101) || (e =? 69) then
        let (sg, r1) :=
          match r with
          | g :: r1 => if (g =? 43) || (g =? 45) then ([g], r1) else ([], r)
          | [] => ([], r)
          end in
        let (ds, r2) := span_digits r1 in
        match ds with
        | [] => ([], s)
        | _ :: _ => (e :: sg ++ ds, r2)
        end
      else ([], s)
  | [] => ([], s)
  end.

(** The number at the head of [s]: the literal, whether it has a
    fraction or an exponent, and the rest. *)
Definition match_number (s : text) : option (text * bool * text) :=
  let (sign, s1) := match_sign s in
  match match_int s1 with
  | None => None
  | Some (ip, s2) =>
      let (frac, s3) := match_frac s2 in
      let (ex, s4) := match_exp s3 in
      Some (sign ++ ip ++ frac ++ ex,
            negb (match frac, ex with [], [] => true | _, _ => false end), s4)
  end.

Fixpoint uint_of_text (s : text) : Decimal.uint :=
  match s with
  | [] => Decimal.Nil
  | c :: s' =>
      let d := uint_of_text s' in
      if c =? 48 then Decimal.D0 d else if c =? 49 then Decimal.D1 d
      else if c =? 50 then Decimal.D2 d else if c =? 51 then Decimal.D3 d
      else if c =? 52 then Decimal.D4 d else if c =? 53 then Decimal.D5 d
      else if c =? 54 then Decimal.D6 d else if c =? 55 then Decimal.D7 d
      else if c =? 56 then Decimal.D8 d else Decimal.D9 d
  end.

(** [int(s)] on a literal matched by the scanner.  The interpreter's
    limit on the number of digits is not modelled. *)
Definition int_of_literal (s : text) : Z :=
  match s with
  | c :: s' =>
      if c =? 45 then Z.of_int (Decimal.Neg (uint_of_text s'))
      else Z.of_int (Decimal.Pos (uint_of_text s))
  | [] => 0%Z
  end.

(** [s] without the prefix [p], when it starts with it. *)
Fixpoint strip_prefix (p s : text) : option text :=
  match p, s with
  | [], _ => Some s
  | a :: p', b :: s' => if char_eqb a b then strip_prefix p' s' else None
  | _ :: _, [] => None
  end.

Definition expecting_value {A} : result A := Raise (JSONDecodeError "Expecting value").
Definition expecting_comma {A} : result A :=
  Raise (JSONDecodeError "Expecting ',' delimiter").
Definition expecting_colon {A} : result A :=
  Raise (JSONDecodeError "Expecting ':' delimiter").
Definition expecting_name {A} : result A :=
  Raise (JSONDecodeError "Expecting property name enclosed in double quotes").

Definition scan_number (s : text) : result (value * text) :=
  match match_number s with
  | Some (l, true, rest) => Ok (VFloat (float_of_literal l), rest)
  | Some (l, false, rest) => Ok (VInt (int_of_literal l), rest)
  | None => expecting_value
  end.

(** What the scanner does on a character that opens neither a string, an
    object nor an array. *)
Definition scan_atom (s : text) : result (value * text) :=
  match strip_prefix (lit "null") s with Some r => Ok (VNone, r) | None =>
  match strip_prefix (lit "true") s with Some r => Ok (VBool true, r) | None =>
  match strip_prefix (lit "false") s with Some r => Ok (VBool false, r) | None =>
  match strip_prefix (lit "NaN") s with Some r => Ok (VFloat float_nan, r) | None =>
  match strip_prefix (lit "Infinity") s with Some r => Ok (VFloat float_inf, r) | None =>
  match strip_prefix (lit "-Infinity") s with Some r => Ok (VFloat float_neg_inf, r) | None =>
  scan_number s
  end end end end end end.

(** The dict built by setting the members in source order. *)
Definition dict_of_pairs (ms : list (text * value)) : dict :=
  fold_left (fun d m => dict_set d (fst m) (snd m)) ms [].

(** [scan_once], with the members of an object and the items of an array.
    The fuel bounds the depth of the calls; [json_loads] supplies enough
    for its input. *)
Fixpoint scan_once (fuel : nat) (s : text) : result (value * text) :=
  match fuel with
  | O => Raise RecursionError
  | S fuel =>
      match s with
      | [] => expecting_value
      | c :: r =>
          if c =? quote then
            ('(k, rest) <- scanstring r ;; Ok (VStr k, rest))%result
          else if c =? 123 then
            match skip_ws r with
            | c' :: r' =>
                if c' =? 125 then Ok (VDict [], r')
                else ('(ms, rest) <- parse_members fuel (c' :: r') ;;
                      Ok (VDict (dict_of_pairs ms), rest))%result
            | [] => expecting_name
            end
          else if c =? 91 then
            match skip_ws r with
            | c' :: r' =>
                if c' =? 93 then Ok (VList [], r')
                else ('(vs, rest) <- parse_items fuel (c' :: r') ;;
                      Ok (VList vs, rest))%result
            | [] => expecting_value
            end
          else scan_atom s
      end
  end

with parse_members (fuel : nat) (s : text) : result (list (text * value) * text) :=
  match fuel with
  | O => Raise RecursionError
  | S fuel =>
      match s with
      | c :: r =>
          if c =? quote then
            ('(k, rest) <- scanstring r ;;
             match skip_ws rest with
             | c1 :: r1 =>
                 if c1 =? 58 then
                   '(v, rest2) <- scan_once fuel (skip_ws r1) ;;
                   match skip_ws rest2 with
                   | c2 :: r2 =>
                       if c2 =? 125 then Ok ([(k, v)], r2)
                       else if c2 =? 44 then
                         '(ms, rest3) <- parse_members fuel (skip_ws r2) ;;
                         Ok ((k, v) :: ms, rest3)
                       else expecting_comma
                   | [] => expecting_comma
                   end
                 else expecting_colon
             | [] => expecting_colon
             end)%result
          else expecting_name
      | [] => expecting_name
      end
  end

with parse_items (fuel : nat) (s : text) : result (list value * text) :=
  match fuel with
  | O => Raise RecursionError
  | S fuel =>
      ('(v, rest) <- scan_once fuel s ;;
       match skip_ws rest with
       | c :: r =>
           if c =? 93 then Ok ([v], r)
           else if c =? 44 then
             '(vs, rest2) <- parse_items fuel (skip_ws r) ;;
             Ok (v :: vs, rest2)
           else expecting_comma
       | [] => expecting_comma
       end)%result
  end.

(** [s.startswith("\ufeff")] *)
Definition starts_with_bom (s : text) : bool :=
  match s with
  | c :: _ => c =? 0xFEFF
  | [] => false
  end.

(** [json.loads(s)] for a [str]. *)
Definition json_loads (s : text) : result value :=
  if starts_with_bom s then
    Raise (JSONDecodeError "Unexpected UTF-8 BOM (decode using utf-8-sig)")
  else
    ('(v, rest) <- scan_once (2 * length s + 2) (skip_ws s) ;;
     match skip_ws rest with
     | [] => Ok v
     | _ :: _ => Raise (JSONDecodeError "Extra data")
     end)%result.

(* ================================================================= *)
(** ** [json.dumps(obj, ensure_ascii=False, indent=2)] *)

Definition hex_digit (d : N) : char := if d <? 10 then 48 + d else 87 + d.

(** [ESCAPE_DCT] of [json.encoder]: the quote, the backslash and the
    control characters are escaped, everything else is kept. *)
Definition escape_char (c : char) : text :=
  if c =? quote then [backslash; quote]
  else if c =? backslash then [backslash; backslash]
  else if c =? 10 then [backslash; 110]
  else if c =? 13 then [backslash; 114]
  else if c =? 9 then [backslash; 116]
  else if c =? 12 then [backslash; 102]
  else if c =? 8 then [backslash; 98]
  else if c <? 32 then [backslash; 117; 48; 48; hex_digit (c / 16); hex_digit (c mod 16)]
  else [c].

Definition encode_basestring (s : text) : text :=
  quote :: flat_map escape_char s ++ [quote].

(** A newline and the indentation of a nesting level. *)
Definition newline_indent (level : nat) : text := 10 :: repeat 32 (2 * level)%nat.

Fixpoint iterencode (level : nat) (v : value) : text :=
  match v with
  | VNone => lit "null"
  | VBool true => lit "true"
  | VBool false => lit "false"
  | VInt z => int_text z
  | VFloat f => float_str f
  | VStr s => encode_basestring s
  | VList [] => lit "[]"
  | VList (x :: xs) =>
      [91] ++ newline_indent (S level) ++ iterencode (S level) x
      ++ flat_map (fun y => [44] ++ newline_indent (S level) ++ iterencode (S level) y) xs
      ++ newline_indent level ++ [93]
  | VDict [] => lit "{}"
  | VDict (m :: ms) =>
      [123] ++ newline_indent (S level)
      ++ encode_basestring (fst m) ++ [58; 32] ++ iterencode (S level) (snd m)
      ++ flat_map (fun m' => [44] ++ newline_indent (S level)
                             ++ encode_basestring (fst m') ++ [58; 32]
                             ++ iterencode (S level) (snd m')) ms
      ++ newline_indent level ++ [125]
  end.

Definition json_dumps (v : value) : text := iterencode 0 v.

(* ================================================================= *)
(** ** Code that touches files *)

Context {P : Platform}.

Definition io (A : Type) := world -> result A * world.

Definition ret {A} (a : A) : io A := fun w => (Ok a, w).

Definition raise {A} (e : exn) : io A := fun w => (Raise e, w).

Definition bind {A B} (m : io A) (k : A -> io B) : io B :=
  fun w =>
    match m w with
    | (Ok a, w') => k a w'
    | (Raise e, w') => (Raise e, w')
    end.

Definition lift {A} (r : result A) : io A := fun w => (r, w).

Declare Scope io_scope.
Delimit Scope io_scope with io.
Notation "x <- m ;; k" := (bind m (fun x => k))
  (at level 61, m at next level, right associativity) : io_scope.
Notation "m ;; k" := (bind m (fun _ => k))
  (at level 61, right associativity) : io_scope.

(** [p.read_text(encoding="utf-8")] *)
Definition read_text (p : Path) : io text :=
  fun w =>
    match files w p with
    | None => (Raise (FileNotFoundError p), w)
    | Some b =>
        match Utf8.decode b with
        | Some t => (Ok (universal_newlines t), w)
        | None => (Raise UnicodeDecodeError, w)
        end
    end.

(** [p.write_text(data, encoding="utf-8")]: opening for writing empties
    the file; the data is then encoded as a whole and written. *)
Definition write_text (p : Path) (data : text) : io unit :=
  fun w =>
    match Utf8.encode (translate_newlines data) with
    | Some b => (Ok tt, store p b w)
    | None => (Raise UnicodeEncodeError, store p [] w)
    end.

(** [p.with_suffix(suffix)] *)
Definition with_suffix (p : Path) (new_suffix : text) : result Path :=
  if existsb (fun sep => contains sep new_suffix) os_seps
  then Raise (ValueError (lit "Invalid suffix"))
  else
    match new_suffix with
    | c :: rest =>
        if negb (c =? dot) || match rest with [] => true | _ :: _ => false end
        then Raise (ValueError (lit "Invalid suffix"))
        else
          match name p with
          | [] => Raise (ValueError (lit "path has an empty name"))
          | _ :: _ => Ok {| parent := parent p; name := stem p ++ new_suffix |}
          end
    | [] =>
        match name p with
        | [] => Raise (ValueError (lit "path has an empty name"))
        | _ :: _ => Ok {| parent := parent p; name := stem p |}
        end
    end.

(* ================================================================= *)
(** ** The patcher *)

Definition pools_key : text := lit "pools".
Definition user_key : text := lit "user".

(** The message of the [ValueError] raised when there are no pools. *)
Definition no_pools_message : text :=
  Eval vm_compute in
    jq "このJSONに 'pools': [...] が見つかりませんでした。".

(** [f"pools[{i}].user: ...{u[-28:]}  →  ...{new_u[-28:]}"] *)
Definition preview_line (i : nat) (u new_u : text) : text :=
  lit "pools[" ++ nat_text i ++ lit "].user: ..." ++ last_n 28 u
  ++ Utf8.of_string "  →  ..." ++ last_n 28 new_u.

(** [isinstance(pools, list) and len(pools) != 0] *)
Definition nonempty_list (v : value) : bool :=
  match v with
  | VList (_ :: _) => true
  | _ => false
  end.

(** One turn of the loop over [enumerate(pools)]: the pool as the turn
    leaves it, with the counter and the preview lines.  The document is a
    tree, so a pool is reachable only through its own index. *)
Definition patch_pool (sol_addr : text) (i : nat) (pool : value)
    (changed : nat) (preview : list text) : value * nat * list text :=
  match pool with
  | VDict d =>
      match dict_get d user_key with
      | Some (VStr u) =>
          if contains dot u then
            match replace_worker_part (VStr u) sol_addr with
            | VStr new_u =>
                if negb (text_eqb new_u u) then
                  (VDict (dict_set d user_key (VStr new_u)),
                   S changed,
                   preview ++ [preview_line i u new_u])
                else (pool, changed, preview)
            | _ => (pool, changed, preview)
            end
          else (pool, changed, preview)
      | _ => (pool, changed, preview)
      end
  | _ => (pool, changed, preview)
  end.

Fixpoint patch_pools (sol_addr : text) (i : nat) (pools : list value)
    (changed : nat) (preview : list text) : list value * nat * list text :=
  match pools with
  | [] => ([], changed, preview)
  | pool :: rest =>
      let '(pool', changed', preview') := patch_pool sol_addr i pool changed preview in
      let '(rest', changed'', preview'') :=
        patch_pools sol_addr (S i) rest changed' preview' in
      (pool' :: rest', changed'', preview'')
  end.

(** [data] once the loop has run: the list under ["pools"] is the one the
    loop worked on. *)
Definition with_pools (data : value) (pools : list value) : value :=
  match data with
  | VDict d => VDict (dict_set d pools_key (VList pools))
  | _ => data
  end.

Definition patch_xmrig_config_inplace (in_path : Path) (sol_addr : text)
    : io (nat * Path * Path * list text) :=
  (content <- read_text in_path ;;
   data <- lift (json_loads content) ;;
   pools <- lift (py_get data pools_key VNone) ;;
   if negb (nonempty_list pools) then raise (ValueError no_pools_message)
   else
     match pools with
     | VList pools =>
         let '(pools', changed, preview) := patch_pools sol_addr 0 pools 0 [] in
         let data := with_pools data pools' in
         backup_path <- lift (with_suffix in_path (suffix in_path ++ lit ".bak")) ;;
         original <- read_text in_path ;;
         write_text backup_path original ;;
         write_text in_path (json_dumps data) ;;
         ret (changed, in_path, backup_path, preview)
     | _ => raise (ValueError no_pools_message)
     end)%io.

(* ================================================================= *)
(** ** The preview *)

(** One turn of the loop of [App.preview]. *)
Definition preview_pool (sol : text) (i : nat) (pool : value)
    (count : nat) (lines : list text) : nat * list text :=
  match pool with
  | VDict d =>
      match dict_get d user_key with
      | Some (VStr u) =>
          if contains dot u then
            match replace_worker_part (VStr u) sol with
            | VStr new_u =>
                if negb (text_eqb new_u u)
                then (S count, lines ++ [preview_line i u new_u])
                else (count, lines)
            | _ => (count, lines)
            end
          else (count, lines)
      | _ => (count, lines)
      end
  | _ => (count, lines)
  end.

Fixpoint preview_pools (sol : text) (i : nat) (pools : list value)
    (count : nat) (lines : list text) : nat * list text :=
  match pools with
  | [] => (count, lines)
  | pool :: rest =>
      let '(count', lines') := preview_pool sol i pool count lines in
      preview_pools sol (S i) rest count' lines'
  end.

(** [sep.join(lines)] *)
Fixpoint join (sep : text) (lines : list text) : text :=
  match lines with
  | [] => []
  | [l] => l
  | l :: ls => l ++ sep ++ join sep ls
  end.

(** What [App.preview] puts in the text widget when nothing is to change. *)
Definition nothing_to_change : text :=
  Eval vm_compute in
    Utf8.of_string "変更対象が見つかりませんでした。" ++ [10]
    ++ Utf8.of_string "（pools[].user に '.' が無い、または pools が無い可能性）" ++ [10].

(** The [try] block of [App.preview], without the widgets: the count,
    the preview lines and the text inserted into the preview widget. *)
Definition App_preview (in_path : Path) (sol : text) : io (nat * list text * text) :=
  (content <- read_text in_path ;;
   data <- lift (json_loads content) ;;
   pools <- lift (py_get data pools_key (VList [])) ;;
   let '(count, lines) :=
     preview_pools sol 0 (match pools with VList l => l | _ => [] end) 0 [] in
   ret (count, lines,
        if (count =? 0)%nat then nothing_to_change else join [10] lines ++ [10]))%io.

End Model.

(* ================================================================= *)
(** ** What is assumed of floats *)

(** A text that ends a number: one that does not go on with a digit, a
    point or an exponent mark. *)
Definition delimited (rest : text) : Prop :=
  match rest with
  | [] => True
  | c :: _ => is_digit c = false /\ c <> 46 /\ c <> 101 /\ c <> 69
  end.

(** The decoder reads a float back from what the encoder wrote for it,
    which holds no carriage return: [float(repr(x)) == x], with [NaN],
    [Infinity] and [-Infinity] for the three special values. *)
Class PyFloatLaws (F : PyFloat) := {
  float_str_scans :
    forall (f : float) (rest : text),
      delimited rest -> scan_atom (float_str f ++ rest) = Ok (VFloat f, rest);
  float_str_no_cr : forall f : float, ~ In 13 (float_str f)
}.

(** The number of calls the scanner makes on the encoding of a value. *)
Fixpoint vsize {F : PyFloat} (v : value) : nat :=
  match v with
  | VList l => S (list_sum (map (fun x => S (vsize x)) l))
  | VDict d => S (list_sum (map (fun m => S (vsize (snd m))) d))
  | _ => 1%nat
  end.

(** A value as [json.loads] builds it: the keys of every dict are
    distinct. *)
Unset Elimination Schemes.
Inductive well_formed {F : PyFloat} : value -> Prop :=
| wf_none : well_formed VNone
| wf_bool (b : bool) : well_formed (VBool b)
| wf_int (z : Z) : well_formed (VInt z)
| wf_float (f : float) : well_formed (VFloat f)
| wf_str (s : text) : well_formed (VStr s)
| wf_list (l : list value) : Forall well_formed l -> well_formed (VList l)
| wf_dict (d : list (text * value)) :
    NoDup (map fst d) -> Forall (fun m => well_formed (snd m)) d ->
    well_formed (VDict d).
Set Elimination Schemes.

(** The first character of a value that is neither a string, an object
    nor an array. *)
Definition atom_head (c : char) : bool :=
  is_digit c || (c =? 45) || (c =? 110) || (c =? 116) || (c =? 102)
  || (c =? 78) || (c =? 73).

(* ================================================================= *)
(** ** Encodings, for the proofs *)

(** Decimal numerals without leading zeros. *)
Definition head_nonzero (d : Decimal.uint) : Prop :=
  match d with
  | Decimal.Nil | Decimal.D0 _ => False
  | _ => True
  end.

Definition canonical (d : Decimal.uint) : Prop :=
  d = Decimal.D0 Decimal.Nil \/ head_nonzero d.

(** The first character of a number the encoder writes. *)
Definition number_head (c : char) : bool := is_digit c || (c =? 45).


Section Encodings.

Context {F : PyFloat}.

(** The scanner reads a value back from its encoding. *)
Definition reads_back (v : value) : Prop :=
  forall (level fuel : nat) (rest : text),
    (vsize v <= fuel)%nat -> delimited rest ->
    scan_once fuel (iterencode level v ++ rest) = Ok (v, rest).

Definition item_text (level : nat) (y : value) : text :=
  [44] ++ newline_indent (S level) ++ iterencode (S level) y.

Definition member_text (level : nat) (m : text * value) : text :=
  [44] ++ newline_indent (S level) ++ encode_basestring (fst m) ++ [58; 32]
  ++ iterencode (S level) (snd m).

(** What a scanning function owes: it takes at least one character, and
    raises nothing but a decoding error. *)
Definition scans {A} (res : result (A * text)) (s : text) : Prop :=
  (forall a r, res = Ok (a, r) -> (length r < length s)%nat)
  /\ (forall e, res = Raise e -> exists m, e = JSONDecodeError m).

(** The fuel that is enough for a text, for each of the three scanning
    functions. *)
Definition good_scan (s : text) : Prop :=
  forall fuel, (2 * length s + 1 <= fuel)%nat -> scans (scan_once fuel s) s.
Definition good_members (s : text) : Prop :=
  forall fuel, (2 * length s + 2 <= fuel)%nat -> scans (parse_members fuel s) s.
Definition good_items (s : text) : Prop :=
  forall fuel, (2 * length s + 2 <= fuel)%nat -> scans (parse_items fuel s) s.

End Encodings.

(* ================================================================= *)
(** ** A float type to run the model with *)

(** Decimal floating point numbers [m * 10^e]: a float type that keeps
    every literal exactly and prints in exponent form. *)
Inductive dfloat :=
| DNan
| DInf
| DNegInf
| DFin (m e : Z).

Definition is_mantissa_char (c : char) : bool := is_digit c || (c =? 45).

Fixpoint span_mantissa (s : text) : text * text :=
  match s with
  | c :: s' =>
      if is_mantissa_char c then let (d, r) := span_mantissa s' in (c :: d, r)
      else ([], s)
  | [] => ([], [])
  end.

Definition dfloat_of_literal (l : text) : dfloat :=
  let (mant, r1) := span_mantissa l in
  let (frac, r2) :=
    match r1 with
    | c :: r => if c =? 46 then span_digits r else ([], r1)
    | [] => ([], r1)
    end in
  let ex :=
    match r2 with
    | _ :: g :: r => if g =? 43 then int_of_literal r else int_of_literal (g :: r)
    | _ => 0%Z
    end in
  DFin (int_of_literal (mant ++ frac)) (ex - Z.of_nat (length frac)).

Definition dfloat_str (f : dfloat) : text :=
  match f with
  | DNan => lit "NaN"
  | DInf => lit "Infinity"
  | DNegInf => lit "-Infinity"
  | DFin m e => int_text m ++ [101] ++ int_text e
  end.

Definition ExactDecimal : PyFloat :=
  {| float := dfloat;
     float_of_literal := dfloat_of_literal;
     float_nan := DNan;
     float_inf := DInf;
     float_neg_inf := DNegInf;
     float_str := dfloat_str |}.

(* ================================================================= *)
(** ** A file system to run the model in *)

Definition config_json : Path :=
  {| parent := lit "/home/miner/xmrig"; name := lit "config.json" |}.

(** The world that holds one file and has seen no write. *)
Definition one_file (p : Path) (b : bytes) : world :=
  {| files := fun q => if path_eqb q p then Some b else None; writes := [] |}.

(** The document of the end-to-end scenario. *)
Definition scenario_document : bytes :=
  jq_bytes "{'pools':[{'user':'WALLET123.oldworker'},{'user':'WALLET123.oldworker'},{'user':'NOFIELD'}]}".

(** A document in which no pool is eligible. *)
Definition idle_document : bytes := jq_bytes "{'pools':['é']}".

(** What [json.dumps] with [indent=2] and [ensure_ascii=False] makes of it. *)
Definition idle_document_saved : bytes :=
  jq_bytes "{
  'pools': [
    'é'
  ]
}".

(** A document that is a sequence, not a mapping. *)
Definition array_document : bytes := jq_bytes "[]".

(** A document whose pools are an empty sequence. *)
Definition no_pools_document : bytes := jq_bytes "{'pools': []}".

(** A document with one eligible pool. *)
Definition one_pool_document : bytes := jq_bytes "{'pools':[{'user':'w.x'}]}".

(** A base58 string of 32 characters. *)
Definition thirty_two_ones : text := repeat 49 32.

(** A document with Windows line ends. *)
Definition crlf_document : bytes :=
  jq_bytes "{'pools':[{'user':'wallet.rig'}]}" ++ [13; 10].

(** A document with Unix line ends. *)
Definition lf_document : bytes :=
  jq_bytes "{'pools':[{'user':'wallet.rig'}]}" ++ [10].

(* ================================================================= *)
(** ** The words of the specification *)

(** The base58 alphabet as the specification describes it: the digits 1
    to 9, the capitals without I and O, the small letters without l. *)
Definition base58_alphabet (c : char) : bool :=
  ((49 <=? c) && (c <=? 57))
  || ((65 <=? c) && (c <=? 90) && negb (c =? 73) && negb (c =? 79))
  || ((97 <=? c) && (c <=? 122) && negb (c =? 108)).

(** The four look-alike characters: 0, O, I and l. *)
Definition ambiguous (c : char) : bool :=
  (c =? 48) || (c =? 79) || (c =? 73) || (c =? 108).

(** The three ways the specification rejects the ["pools"] field of a
    document that is a mapping: missing, not a sequence, empty. *)
Definition pools_rejected {F : PyFloat} (d : list (text * value)) : Prop :=
  dict_get d pools_key = None
  \/ (exists v, dict_get d pools_key = Some v /\ forall l, v <> VList l)
  \/ dict_get d pools_key = Some (VList []).

(** The same for any document: one that is not a mapping has no field. *)
Definition lacks_pools {F : PyFloat} (data : value) : Prop :=
  match data with
  | VDict d => pools_rejected d
  | _ => True
  end.

(** The change the patcher may make to a ["user"] value: a string with a
    separator whose replacement differs from it becomes the replacement. *)
Definition user_update {F : PyFloat} (sol : text) (v v' : value) : Prop :=
  exists u, v = VStr u /\ In dot u
            /\ replace_worker_part (VStr u) sol <> VStr u
            /\ v' = replace_worker_part (VStr u) sol.

(** An entry of a mapping and its counterpart after the patch: the key
    stays, and the value stays unless the key is [key] and the value
    changes as [upd] allows. *)
Definition entry_frame {F : PyFloat} (key : text) (upd : value -> value -> Prop)
    (e e' : text * value) : Prop :=
  fst e' = fst e /\ (snd e' = snd e \/ (fst e = key /\ upd (snd e) (snd e'))).

(** A pool entry and its counterpart: one that is not a mapping stays;
    a mapping keeps its entries in place, only ["user"] may change. *)
Definition pool_frame {F : PyFloat} (sol : text) (p p' : value) : Prop :=
  match p with
  | VDict d =>
      exists d', p' = VDict d' /\ Forall2 (entry_frame user_key (user_update sol)) d d'
  | _ => p' = p
  end.

Definition pools_update {F : PyFloat} (sol : text) (v v' : value) : Prop :=
  exists ps ps', v = VList ps /\ v' = VList ps' /\ Forall2 (pool_frame sol) ps ps'.

(** The loaded document and the saved one: the entries stay in place,
    only the sequence under ["pools"] may change, pool by pool. *)
Definition doc_frame {F : PyFloat} (sol : text) (data data' : value) : Prop :=
  match data with
  | VDict d =>
      exists d', data' = VDict d'
                 /\ Forall2 (entry_frame pools_key (pools_update sol)) d d'
  | _ => data' = data
  end.

(** A path with a final component that holds no separator. *)
Definition proper_path {P : Platform} (p : Path) : Prop :=
  name p <> [] /\ forall sep, In sep os_seps -> ~ In sep (name p).

(** The backup path of the specification: the path with [.bak] appended. *)
Definition bak_path (p : Path) : Path :=
  {| parent := parent p; name := name p ++ lit ".bak" |}.

(** The text a file holds when read in text mode, if it decodes. *)
Definition file_text (w : world) (p : Path) : option text :=
  match files w p with
  | Some b => option_map universal_newlines (Utf8.decode b)
  | None => None
  end.

(** The bytes text mode writes for a text, if it encodes. *)
Definition text_bytes {P : Platform} (t : text) : option bytes :=
  Utf8.encode (translate_newlines t).

(* ================================================================= *)
(** ** The report, said declaratively *)

(** The preview line a pool at index [i] is due: its ["user"] is a string
    with a separator, and what follows the last separator is not the
    replacement already. *)
Definition expected_line {F : PyFloat} (sol : text) (i : nat) (pool : value)
    : option text :=
  match pool with
  | VDict d =>
      match dict_get d user_key with
      | Some (VStr u) =>
          match rsplit_last dot u with
          | Some (wallet, worker) =>
              if text_eqb worker sol then None
              else Some (preview_line i u (wallet ++ [dot] ++ sol))
          | None => None
          end
      | _ => None
      end
  | _ => None
  end.

(** The lines due to the pools from index [i] on, in order. *)
Fixpoint expected_lines {F : PyFloat} (sol : text) (i : nat) (pools : list value)
    : list text :=
  match pools with
  | [] => []
  | pool :: rest =>
      match expected_line sol i pool with
      | Some line => line :: expected_lines sol (S i) rest
      | None => expected_lines sol (S i) rest
      end
  end.

(** All of a text is whitespace. *)
Definition blank (s : text) : bool := forallb py_isspace s.

(* ================================================================= *)
(** ** The window

    The two handlers of [App] that call the code above, [preview] and
    [save], over the state of the widgets they read and write.  A message
    box is recorded in the order it is shown; the answer to a yes/no box
    is the user's, a function of the box. *)

(** A piece of an f-string: text as it stands, or a value the string
    shows through [str]. *)
Inductive fragment :=
| Text (s : text)
| OfPath (p : Path)
| OfExn (e : exn).

Definition message := list fragment.

(** A call of [tkinter.messagebox], with its title and message. *)
Inductive dialog :=
| showwarning (title : text) (msg : message)
| showerror (title : text) (msg : message)
| showinfo (title : text) (msg : message)
| askyesno (title : text) (msg : message).

(** The attributes of [App] the handlers use: the chosen path, the text
    of the entry, of the status label and of the preview widget. *)
Record App := {
  in_path : option Path;
  ent_solana : text;
  lbl_status : message;
  txt_preview : text
}.

(** [self.txt_preview.delete("1.0", tk.END)] followed by
    [self.txt_preview.insert(tk.END, t)]; the first alone when [t] is
    empty. *)
Definition set_txt_preview (t : text) (self : App) : App :=
  {| in_path := in_path self; ent_solana := ent_solana self;
     lbl_status := lbl_status self; txt_preview := t |}.

(** [self.lbl_status.config(text=m)] *)
Definition set_lbl_status (m : message) (self : App) : App :=
  {| in_path := in_path self; ent_solana := ent_solana self;
     lbl_status := m; txt_preview := txt_preview self |}.

(** What a handler leaves: the widgets, the files, the boxes it showed,
    and the exception that left it, if one did. *)
Record outcome := {
  window : App;
  disk : world;
  shown : list dialog;
  escaped : option exn
}.

Definition caution : text := Eval vm_compute in Utf8.of_string "注意".
Definition confirmation : text := Eval vm_compute in Utf8.of_string "確認".
Definition final_confirmation : text := Eval vm_compute in Utf8.of_string "最終確認".
Definition error_title : text := Eval vm_compute in Utf8.of_string "エラー".
Definition done_title : text := Eval vm_compute in Utf8.of_string "完了".

Definition choose_a_file_first : dialog :=
  Eval vm_compute in
    showwarning caution [Text (Utf8.of_string "先に config.json を選んでください。")].

Definition enter_an_address : dialog :=
  Eval vm_compute in
    showwarning caution [Text (Utf8.of_string "Solana アドレスを入力してください。")].

Definition continue_anyway : dialog :=
  Eval vm_compute in
    askyesno confirmation
      [Text (Utf8.of_string "Solanaアドレスっぽくないかも。続行しますか？")].

(** [f"次のファイルを上書きしますか？\n\n{self.in_path}\n\n（自動で .bak を作成します）"] *)
Definition overwrite_it (p : Path) : dialog :=
  askyesno final_confirmation
    [Text (Utf8.of_string "次のファイルを上書きしますか？" ++ [10; 10]);
     OfPath p;
     Text ([10; 10] ++ Utf8.of_string "（自動で .bak を作成します）")].

Definition nothing_changed : dialog :=
  Eval vm_compute in
    showwarning caution
      [Text (Utf8.of_string "変更対象が0件でした。" ++ [10]
             ++ Utf8.of_string "保存は行いましたが、内容が変わっていない可能性があります。")].

(** [f"プレビュー失敗:\n{e}"] *)
Definition preview_failed (e : exn) : dialog :=
  showerror error_title [Text (Utf8.of_string "プレビュー失敗:" ++ [10]); OfExn e].

(** [f"保存失敗:\n{e}"] *)
Definition save_failed (e : exn) : dialog :=
  showerror error_title [Text (Utf8.of_string "保存失敗:" ++ [10]); OfExn e].

(** [f"プレビュー: 変更対象 {count} 件"] *)
Definition preview_status (count : nat) : message :=
  [Text (Utf8.of_string "プレビュー: 変更対象 " ++ nat_text count
         ++ Utf8.of_string " 件")].

(** [f"上書き保存完了: {changed}件（backup: {backup_path.name}）"] *)
Definition saved_status (changed : nat) (backup_path : Path) : message :=
  [Text (Utf8.of_string "上書き保存完了: " ++ nat_text changed
         ++ Utf8.of_string "件（backup: " ++ name backup_path
         ++ Utf8.of_string "）")].

(** [f"{changed}件を書き換えて上書き保存しました:\n{out_path}\n\nバックアップ:\n{backup_path}"] *)
Definition saved_it (changed : nat) (out_path backup_path : Path) : dialog :=
  showinfo done_title
    [Text (nat_text changed ++ Utf8.of_string "件を書き換えて上書き保存しました:" ++ [10]);
     OfPath out_path;
     Text ([10; 10] ++ Utf8.of_string "バックアップ:" ++ [10]);
     OfPath backup_path].

Section Window.

Context {F : PyFloat} {P : Platform}.

(** The user: the answer to each yes/no box. *)
Variable user : dialog -> bool.

(** [App.preview] *)
Definition preview (self : App) (w : world) : outcome :=
  let self := set_txt_preview [] self in
  match in_path self with
  | None =>
      {| window := self; disk := w; shown := [choose_a_file_first]; escaped := None |}
  | Some path =>
      let sol := strip (ent_solana self) in
      match sol with
      | [] => {| window := self; disk := w; shown := [enter_an_address]; escaped := None |}
      | _ :: _ =>
          match looks_like_solana_address (VStr sol) with
          | Raise e => {| window := self; disk := w; shown := []; escaped := Some e |}
          | Ok looks =>
              let asked := if looks then [] else [continue_anyway] in
              if negb looks && negb (user continue_anyway)
              then {| window := self; disk := w; shown := asked; escaped := None |}
              else
                match App_preview path sol w with
                | (Ok (count, _, inserted), w') =>
                    {| window := set_lbl_status (preview_status count)
                                (set_txt_preview inserted self);
                       disk := w'; shown := asked; escaped := None |}
                | (Raise e, w') =>
                    {| window := self; disk := w';
                       shown := asked ++ [preview_failed e]; escaped := None |}
                end
          end
      end
  end.

(** [App.save] *)
Definition save (self : App) (w : world) : outcome :=
  let self := set_txt_preview [] self in
  match in_path self with
  | None =>
      {| window := self; disk := w; shown := [choose_a_file_first]; escaped := None |}
  | Some path =>
      let sol := strip (ent_solana self) in
      match sol with
      | [] => {| window := self; disk := w; shown := [enter_an_address]; escaped := None |}
      | _ :: _ =>
          match looks_like_solana_address (VStr sol) with
          | Raise e => {| window := self; disk := w; shown := []; escaped := Some e |}
          | Ok looks =>
              let asked := if looks then [] else [continue_anyway] in
              if negb looks && negb (user continue_anyway)
              then {| window := self; disk := w; shown := asked; escaped := None |}
              else if negb (user (overwrite_it path))
              then {| window := self; disk := w; shown := asked ++ [overwrite_it path];
                      escaped := None |}
              else
                let asked := asked ++ [overwrite_it path] in
                match patch_xmrig_config_inplace path sol w with
                | (Ok (changed, out_path, backup_path, lines), w') =>
                    let warned := if (changed =? 0)%nat then [nothing_changed] else [] in
                    let inserted :=
                      join [10] lines ++ match lines with [] => [] | _ :: _ => [10] end in
                    {| window := set_lbl_status (saved_status changed backup_path)
                                (set_txt_preview inserted self);
                       disk := w';
                       shown := asked ++ warned ++ [saved_it changed out_path backup_path];
                       escaped := None |}
                | (Raise e, w') =>
                    {| window := self; disk := w';
                       shown := asked ++ [save_failed e]; escaped := None |}
                end
          end
      end
  end.

End Window.

(** A user who answers yes to every box. *)
Definition says_yes : dialog -> bool := fun _ => true.


(** The document with one eligible pool after a UTF-8 byte order mark. *)
Definition bom_document : bytes := [0xEF; 0xBB; 0xBF] ++ one_pool_document.

(** A window in which [config.json] is chosen and the entry holds a
    replacement between spaces. *)
Definition ready_window : App :=
  {| in_path := Some config_json; ent_solana := lit " NEWWORKER ";
     lbl_status := []; txt_preview := lit "stale" |}.

(* ================================================================= *)
(** * Properties *)

(** Linear arithmetic with division and remainder by constants. *)
Ltac dlia := zify; Z.to_euclidean_division_equations; lia.

Ltac decide_tests :=
  repeat match goal with
    | |- context [?a <? ?b] =>
        first [ replace (a <? b) with true by (symmetry; apply N.ltb_lt; dlia)
              | replace (a <? b) with false by (symmetry; apply N.ltb_ge; dlia) ]
    | |- context [?a <=? ?b] =>
        first [ replace (a <=? b) with true by (symmetry; apply N.leb_le; dlia)
              | replace (a <=? b) with false by (symmetry; apply N.leb_gt; dlia) ]
    end.

Section Properties.

Context {F : PyFloat} {P : Platform}.

(* ----------------------------------------------------------------- *)
(** ** Strings *)

Lemma char_eqb_eq (a b : char) : char_eqb a b = true <-> a = b.
Proof. apply N.eqb_eq. Qed.

Lemma char_eqb_refl (a : char) : char_eqb a a = true.
Proof. apply N.eqb_refl. Qed.

Lemma text_eqb_eq (a b : text) : text_eqb a b = true <-> a = b.
Proof.
  revert b; induction a as [|x a IH]; intros [|y b]; simpl; split;
    try congruence; try reflexivity.
  - rewrite andb_true_iff, char_eqb_eq, IH. intros [-> ->]; reflexivity.
  - intros E; injection E as -> ->.
    rewrite char_eqb_refl. apply IH. reflexivity.
Qed.

Lemma text_eqb_refl (a : text) : text_eqb a a = true.
Proof. apply text_eqb_eq. reflexivity. Qed.

Lemma text_eqb_neq (a b : text) : text_eqb a b = false <-> a <> b.
Proof.
  split.
  - intros E H. apply text_eqb_eq in H. congruence.
  - intros H. destruct (text_eqb a b) eqn:E; [|reflexivity].
    apply text_eqb_eq in E. contradiction.
Qed.

Lemma contains_In (c : char) (s : text) : contains c s = true <-> In c s.
Proof.
  unfold contains. rewrite existsb_exists. split.
  - intros (x & Hx & E). apply char_eqb_eq in E. subst. exact Hx.
  - intros H. exists c. split; [exact H | apply char_eqb_refl].
Qed.

Lemma contains_not_In (c : char) (s : text) : contains c s = false <-> ~ In c s.
Proof.
  rewrite <- contains_In. destruct (contains c s); split; congruence.
Qed.

Lemma rsplit_last_none_iff (sep : char) (s : text) :
  rsplit_last sep s = None <-> ~ In sep s.
Proof.
  induction s as [|c s IH]; simpl; [tauto|].
  destruct (rsplit_last sep s) as [[p q]|].
  - split; [discriminate|]. intros H. exfalso. apply H. right.
    destruct (in_dec N.eq_dec sep s) as [Hin|Hin]; [exact Hin|].
    apply IH in Hin. discriminate.
  - destruct (char_eqb c sep) eqn:E.
    + apply char_eqb_eq in E. split; [discriminate|]. intros H. exfalso. auto.
    + split; [|reflexivity]. intros _ [H|H].
      * subst. rewrite char_eqb_refl in E. discriminate.
      * apply IH in H; [exact H | reflexivity].
Qed.

Lemma rsplit_last_none (sep : char) (s : text) :
  ~ In sep s -> rsplit_last sep s = None.
Proof. apply rsplit_last_none_iff. Qed.

Lemma rsplit_last_app (sep : char) (p q : text) :
  ~ In sep q -> rsplit_last sep (p ++ sep :: q) = Some (p, q).
Proof.
  intros H. induction p as [|c p IH]; simpl.
  - rewrite (rsplit_last_none _ _ H), char_eqb_refl. reflexivity.
  - rewrite IH. reflexivity.
Qed.

Lemma rsplit_last_some (sep : char) (s p q : text) :
  rsplit_last sep s = Some (p, q) -> s = p ++ sep :: q /\ ~ In sep q.
Proof.
  revert p q; induction s as [|c s IH]; simpl; intros p q H; [discriminate|].
  destruct (rsplit_last sep s) as [[p' q']|] eqn:E.
  - injection H as <- <-. destruct (IH _ _ eq_refl) as [-> Hq].
    split; [reflexivity | exact Hq].
  - destruct (char_eqb c sep) eqn:Ec; [|discriminate].
    injection H as <- <-. apply char_eqb_eq in Ec. subst c.
    split; [reflexivity|]. apply rsplit_last_none_iff. exact E.
Qed.

Lemma rsplit_last_In (sep : char) (s : text) :
  In sep s -> exists p q, rsplit_last sep s = Some (p, q).
Proof.
  intros H. destruct (rsplit_last sep s) as [[p q]|] eqn:E; [eauto|].
  apply rsplit_last_none_iff in E. contradiction.
Qed.

(* ----------------------------------------------------------------- *)
(** ** The suffix replacer *)

Lemma replace_worker_part_split (p q r : text) :
  ~ In dot q ->
  replace_worker_part (VStr (p ++ [dot] ++ q)) r = VStr (p ++ [dot] ++ r).
Proof.
  intros H. unfold replace_worker_part, rsplit1.
  assert (Hc : contains dot (p ++ [dot] ++ q) = true).
  { apply contains_In, in_or_app. right. left. reflexivity. }
  rewrite Hc. simpl negb. cbv iota.
  change (p ++ [dot] ++ q) with (p ++ dot :: q).
  rewrite (rsplit_last_app dot p q H). reflexivity.
Qed.

Lemma replace_worker_part_no_dot (s r : text) :
  ~ In dot s -> replace_worker_part (VStr s) r = VStr s.
Proof.
  intros H. unfold replace_worker_part.
  apply contains_not_In in H. rewrite H. reflexivity.
Qed.

Lemma replace_worker_part_last_dot (s r : text) :
  In dot s ->
  exists p q, s = p ++ [dot] ++ q /\ ~ In dot q
              /\ replace_worker_part (VStr s) r = VStr (p ++ [dot] ++ r).
Proof.
  intros H. destruct (rsplit_last_In dot s H) as (p & q & E).
  destruct (rsplit_last_some _ _ _ _ E) as [-> Hq].
  exists p, q. split; [reflexivity|]. split; [exact Hq|].
  apply replace_worker_part_split. exact Hq.
Qed.

(** C1. With a separator in the input, the suffix replacer splits it at
    the last one into [p] and [q] and returns [p], the separator and the
    replacement, whatever [p] holds; the split is the only one whose
    second part has no separator.  Without a separator the input comes
    back as it is. *)
Theorem replace_worker_part_spec (r : text) :
  (forall p q : text, ~ In dot q ->
     replace_worker_part (VStr (p ++ [dot] ++ q)) r = VStr (p ++ [dot] ++ r))
  /\ (forall s : text, In dot s ->
        exists p q, s = p ++ [dot] ++ q /\ ~ In dot q
                    /\ replace_worker_part (VStr s) r = VStr (p ++ [dot] ++ r))
  /\ (forall s : text, ~ In dot s -> replace_worker_part (VStr s) r = VStr s).
Proof.
  split; [|split].
  - intros p q. apply replace_worker_part_split.
  - intros s. apply replace_worker_part_last_dot.
  - intros s. apply replace_worker_part_no_dot.
Qed.

(* ----------------------------------------------------------------- *)
(** ** The validator *)

Lemma lstrip_spec (s : text) :
  exists a, s = a ++ lstrip s /\ forallb py_isspace a = true
            /\ (forall c r, lstrip s = c :: r -> py_isspace c = false).
Proof.
  induction s as [|c s (a & Ha & Hw & Hh)]; simpl.
  - exists []. split; [reflexivity|]. split; [reflexivity | discriminate].
  - destruct (py_isspace c) eqn:E.
    + exists (c :: a). simpl. rewrite E, Hw.
      split; [congruence|]. split; [reflexivity | exact Hh].
    + exists []. split; [reflexivity|]. split; [reflexivity|].
      intros c' r H. injection H as <- <-. exact E.
Qed.

Lemma rstrip_spec (s : text) :
  exists b, s = rstrip s ++ b /\ forallb py_isspace b = true
            /\ (forall c r, rstrip s = r ++ [c] -> py_isspace c = false).
Proof.
  unfold rstrip. destruct (lstrip_spec (rev s)) as (a & Ha & Hw & Hh).
  exists (rev a). split; [|split].
  - rewrite <- rev_app_distr, <- Ha, rev_involutive. reflexivity.
  - rewrite forallb_forall in *. intros x Hx. apply Hw, in_rev. exact Hx.
  - intros c r H. apply (Hh c (rev r)).
    rewrite <- (rev_involutive (lstrip (rev s))), H, rev_app_distr. reflexivity.
Qed.

(** [strip] removes a run of whitespace at each end, and what is left
    neither starts nor ends with whitespace. *)
Lemma strip_spec (s : text) :
  exists a b, s = a ++ strip s ++ b
              /\ forallb py_isspace a = true /\ forallb py_isspace b = true
              /\ (forall c r, strip s = c :: r -> py_isspace c = false)
              /\ (forall c r, strip s = r ++ [c] -> py_isspace c = false).
Proof.
  unfold strip. destruct (lstrip_spec s) as (a & Ha & Hwa & Hha).
  destruct (rstrip_spec (lstrip s)) as (b & Hb & Hwb & Hhb).
  exists a, b. split; [|split; [|split; [|split]]]; try assumption.
  - rewrite <- Hb. exact Ha.
  - intros c r H. rewrite H in Hb. simpl in Hb. apply (Hha c (r ++ b)). exact Hb.
Qed.

Lemma strip_keeps (s : text) (c : char) :
  In c s -> py_isspace c = false -> In c (strip s).
Proof.
  intros Hin Hc. destruct (strip_spec s) as (a & b & E & Ha & Hb & _).
  rewrite E in Hin. rewrite forallb_forall in Ha, Hb.
  apply in_app_or in Hin. destruct Hin as [H|H].
  - apply Ha in H. congruence.
  - apply in_app_or in H. destruct H as [H|H]; [exact H|].
    apply Hb in H. congruence.
Qed.

Lemma forallb_eq {A} (f g : A -> bool) (l : list A) :
  (forall x, f x = g x) -> forallb f l = forallb g l.
Proof.
  intros H. induction l as [|x l IH]; simpl; [reflexivity|].
  rewrite H, IH. reflexivity.
Qed.

(** The bracket expression of the pattern is the alphabet of the
    specification. *)
Lemma base58ish_alphabet (c : char) : in_class base58ish c = base58_alphabet c.
Proof.
  apply eq_true_iff_eq. unfold base58_alphabet, in_class, base58ish. simpl.
  repeat rewrite ?orb_true_iff, ?andb_true_iff, ?negb_true_iff,
    ?N.leb_le, ?N.eqb_neq. lia.
Qed.

Lemma ambiguous_not_base58 (c : char) :
  ambiguous c = true -> base58_alphabet c = false /\ py_isspace c = false.
Proof.
  unfold ambiguous. rewrite !orb_true_iff, !N.eqb_eq.
  intros [[[->| ->]| ->]| ->]; split; reflexivity.
Qed.

Lemma looks_like_solana_address_eq (s : text) :
  looks_like_solana_address (VStr s)
  = Ok ((32 <=? length (strip s))%nat && (length (strip s) <=? 44)%nat
        && forallb base58_alphabet (strip s)).
Proof.
  unfold looks_like_solana_address, py_strip, rbind.
  set (t := strip s).
  destruct ((32 <=? length t)%nat && (length t <=? 44)%nat) eqn:E;
    cbn [negb andb]; [|reflexivity].
  rewrite <- (forallb_eq _ _ t base58ish_alphabet).
  unfold re_fullmatch_plus. destruct t as [|c t]; [discriminate|].
  destruct (forallb (in_class base58ish) (c :: t)); reflexivity.
Qed.

(** C7. The validator trims the whitespace at both ends and answers
    true exactly when the trimmed length is between 32 and 44 and every
    character is in the base58 alphabet.  Trimmed lengths 31 and 45 are
    refused, base58 strings of trimmed length 32 and 44 are accepted, and
    a string with 0, O, I or l anywhere is refused. *)
Theorem looks_like_solana_address_spec (s : text) :
  (exists a b, s = a ++ strip s ++ b
               /\ forallb py_isspace a = true /\ forallb py_isspace b = true
               /\ (forall c r, strip s = c :: r -> py_isspace c = false)
               /\ (forall c r, strip s = r ++ [c] -> py_isspace c = false))
  /\ looks_like_solana_address (VStr s)
     = Ok ((32 <=? length (strip s))%nat && (length (strip s) <=? 44)%nat
           && forallb base58_alphabet (strip s))
  /\ (length (strip s) = 31%nat \/ length (strip s) = 45%nat ->
      looks_like_solana_address (VStr s) = Ok false)
  /\ (length (strip s) = 32%nat \/ length (strip s) = 44%nat ->
      forallb base58_alphabet (strip s) = true ->
      looks_like_solana_address (VStr s) = Ok true)
  /\ (forall c, In c s -> ambiguous c = true ->
      looks_like_solana_address (VStr s) = Ok false).
Proof.
  split; [apply strip_spec|]. split; [apply looks_like_solana_address_eq|].
  rewrite looks_like_solana_address_eq. split; [|split].
  - intros [E|E]; rewrite E; reflexivity.
  - intros [E|E] H; rewrite E, H; reflexivity.
  - intros c Hin Hc. destruct (ambiguous_not_base58 c Hc) as [Hb Hs].
    assert (Hf : forallb base58_alphabet (strip s) = false).
    { destruct (forallb base58_alphabet (strip s)) eqn:Ef; [|reflexivity].
      rewrite forallb_forall in Ef.
      rewrite (Ef c (strip_keeps s c Hin Hs)) in Hb. discriminate. }
    rewrite Hf, andb_false_r. reflexivity.
Qed.

(** A replacement the validator accepts holds no separator. *)
Lemma accepted_address_has_no_dot (s : text) :
  looks_like_solana_address (VStr s) = Ok true -> ~ In dot s.
Proof.
  rewrite looks_like_solana_address_eq. intros H Hin. injection H as H.
  apply andb_true_iff in H. destruct H as [_ H]. rewrite forallb_forall in H.
  specialize (H dot (strip_keeps s dot Hin eq_refl)). discriminate.
Qed.

(** C8. On every string the validator returns a boolean: it does not
    raise. *)
Theorem looks_like_solana_address_total (s : text) :
  exists b : bool, looks_like_solana_address (VStr s) = Ok b.
Proof. rewrite looks_like_solana_address_eq. eauto. Qed.

(* ----------------------------------------------------------------- *)
(** ** UTF-8 and newlines *)

Lemma Utf8_decode_cons (b0 : N) (r0 : bytes) :
  Utf8.decode (b0 :: r0)
  = if b0 <? 0x80 then option_map (cons b0) (Utf8.decode r0)
    else if (0xC0 <=? b0) && (b0 <? 0xE0) then
      match r0 with
      | b1 :: r1 =>
          let c := (b0 - 0xC0) * 64 + (b1 - 0x80) in
          if Utf8.is_cont b1 && (0x80 <=? c)
          then option_map (cons c) (Utf8.decode r1) else None
      | _ => None
      end
    else if (0xE0 <=? b0) && (b0 <? 0xF0) then
      match r0 with
      | b1 :: b2 :: r2 =>
          let c := (b0 - 0xE0) * 4096 + (b1 - 0x80) * 64 + (b2 - 0x80) in
          if Utf8.is_cont b1 && Utf8.is_cont b2 && (0x800 <=? c) && negb (Utf8.is_surrogate c)
          then option_map (cons c) (Utf8.decode r2) else None
      | _ => None
      end
    else if (0xF0 <=? b0) && (b0 <? 0xF8) then
      match r0 with
      | b1 :: b2 :: b3 :: r3 =>
          let c := (b0 - 0xF0) * 262144 + (b1 - 0x80) * 4096
                   + (b2 - 0x80) * 64 + (b3 - 0x80) in
          if Utf8.is_cont b1 && Utf8.is_cont b2 && Utf8.is_cont b3
             && (0x10000 <=? c) && (c <=? 0x10FFFF)
          then option_map (cons c) (Utf8.decode r3) else None
      | _ => None
      end
    else None.
Proof. reflexivity. Qed.

Lemma Utf8_decode_encode_char (c : char) (bs : bytes) :
  Utf8.encodable c = true ->
  Utf8.decode (Utf8.encode_char c ++ bs) = option_map (cons c) (Utf8.decode bs).
Proof.
  unfold Utf8.encodable, Utf8.is_surrogate.
  rewrite andb_true_iff, negb_true_iff, andb_false_iff, N.leb_le, !N.leb_gt.
  intros [Hs Hm]. unfold Utf8.encode_char.
  destruct (N.ltb_spec c 0x80); [|destruct (N.ltb_spec c 0x800);
    [|destruct (N.ltb_spec c 0x10000)]];
    cbn [app]; rewrite Utf8_decode_cons; unfold Utf8.is_cont, Utf8.is_surrogate;
    cbv zeta.
  - decide_tests. reflexivity.
  - replace ((192 + c / 64 - 192) * 64 + (128 + c mod 64 - 128)) with c by dlia.
    decide_tests. reflexivity.
  - replace ((224 + c / 4096 - 224) * 4096 + (128 + (c / 64) mod 64 - 128) * 64
             + (128 + c mod 64 - 128)) with c by dlia.
    destruct Hs; decide_tests; reflexivity.
  - replace ((240 + c / 262144 - 240) * 262144 + (128 + (c / 4096) mod 64 - 128) * 4096
             + (128 + (c / 64) mod 64 - 128) * 64 + (128 + c mod 64 - 128))
      with c by dlia.
    decide_tests. reflexivity.
Qed.

Lemma Utf8_encode_decode (t : text) (b : bytes) :
  Utf8.encode t = Some b -> Utf8.decode b = Some t.
Proof.
  revert b; induction t as [|c t IH]; simpl; intros b H.
  - injection H as <-. reflexivity.
  - destruct (Utf8.encodable c) eqn:Ec; [|discriminate].
    destruct (Utf8.encode t) as [bs|]; [|discriminate].
    injection H as <-. rewrite (Utf8_decode_encode_char _ _ Ec), (IH _ eq_refl).
    reflexivity.
Qed.

(** Decoding succeeds only on the encoding of what it returns. *)
Lemma Utf8_decode_encode_aux (n : nat) :
  forall (b : bytes) (t : text),
    (length b <= n)%nat -> Utf8.decode b = Some t -> Utf8.encode t = Some b.
Proof.
  induction n as [|n IH]; intros b t Hn; destruct b as [|b0 r0];
    try (simpl in Hn; lia); try (intros H; injection H as <-; reflexivity).
  rewrite Utf8_decode_cons. simpl in Hn.
  destruct (N.ltb_spec b0 0x80).
  { destruct (Utf8.decode r0) as [t0|] eqn:E; [|discriminate].
    cbn [option_map]. intros Hdec; injection Hdec as <-. simpl.
    rewrite (IH r0 t0) by (try lia; assumption).
    unfold Utf8.encodable, Utf8.is_surrogate, Utf8.encode_char.
    decide_tests. reflexivity. }
  destruct (N.leb_spec 0xC0 b0); cbn [andb]; [|decide_tests; cbn [andb]; discriminate].
  destruct (N.ltb_spec b0 0xE0); decide_tests; cbn [andb].
  { destruct r0 as [|b1 r1]; [discriminate|]. cbv zeta. unfold Utf8.is_cont.
    destruct (N.leb_spec 0x80 b1); [|discriminate].
    destruct (N.leb_spec b1 0xBF); [|discriminate]. cbn [andb].
    destruct (N.leb_spec 0x80 ((b0 - 0xC0) * 64 + (b1 - 0x80))); [|discriminate].
    destruct (Utf8.decode r1) as [t1|] eqn:E; [|discriminate].
    cbn [option_map]. intros Hdec; injection Hdec as <-. simpl in Hn. simpl.
    rewrite (IH r1 t1) by (try lia; assumption).
    unfold Utf8.encodable, Utf8.is_surrogate, Utf8.encode_char.
    decide_tests. cbn [andb negb app]. apply f_equal. repeat (apply (f_equal2 cons); [dlia|]). reflexivity. }
  destruct (N.ltb_spec b0 0xF0); decide_tests; cbn [andb].
  { destruct r0 as [|b1 [|b2 r2]]; try discriminate. cbv zeta. unfold Utf8.is_cont.
    destruct (N.leb_spec 0x80 b1); [|discriminate].
    destruct (N.leb_spec b1 0xBF); [|discriminate].
    destruct (N.leb_spec 0x80 b2); [|discriminate].
    destruct (N.leb_spec b2 0xBF); [|discriminate]. cbn [andb].
    set (c := (b0 - 0xE0) * 4096 + (b1 - 0x80) * 64 + (b2 - 0x80)).
    destruct (N.leb_spec 0x800 c); [|discriminate]. cbn [andb].
    destruct (Utf8.is_surrogate c) eqn:Es; [discriminate|]. cbn [negb].
    destruct (Utf8.decode r2) as [t2|] eqn:E; [|discriminate].
    cbn [option_map]. intros Hdec; injection Hdec as <-. simpl in Hn. simpl.
    rewrite (IH r2 t2) by (try lia; assumption).
    unfold Utf8.encodable. rewrite Es. unfold Utf8.encode_char. subst c.
    decide_tests. cbn [andb negb app].
    apply f_equal. repeat (apply (f_equal2 cons); [dlia|]). reflexivity. }
  destruct (N.ltb_spec b0 0xF8); decide_tests; cbn [andb]; [|discriminate].
  destruct r0 as [|b1 [|b2 [|b3 r3]]]; try discriminate. cbv zeta. unfold Utf8.is_cont.
  destruct (N.leb_spec 0x80 b1); [|discriminate].
  destruct (N.leb_spec b1 0xBF); [|discriminate].
  destruct (N.leb_spec 0x80 b2); [|discriminate].
  destruct (N.leb_spec b2 0xBF); [|discriminate].
  destruct (N.leb_spec 0x80 b3); [|discriminate].
  destruct (N.leb_spec b3 0xBF); [|discriminate]. cbn [andb].
  set (c := (b0 - 0xF0) * 262144 + (b1 - 0x80) * 4096 + (b2 - 0x80) * 64 + (b3 - 0x80)).
  destruct (N.leb_spec 0x10000 c); [|discriminate].
  destruct (N.leb_spec c 0x10FFFF); [|discriminate]. cbn [andb].
  destruct (Utf8.decode r3) as [t3|] eqn:E; [|discriminate].
  cbn [option_map]. intros Hdec; injection Hdec as <-. simpl in Hn. simpl.
  rewrite (IH r3 t3) by (try lia; assumption).
  unfold Utf8.encodable, Utf8.is_surrogate, Utf8.encode_char. subst c.
  decide_tests. cbn [andb negb app].
  apply f_equal. repeat (apply (f_equal2 cons); [dlia|]). reflexivity.
Qed.

Lemma Utf8_decode_encode (b : bytes) (t : text) :
  Utf8.decode b = Some t -> Utf8.encode t = Some b.
Proof. apply (Utf8_decode_encode_aux (length b)). lia. Qed.

Lemma Utf8_encode_total (t : text) :
  forallb Utf8.encodable t = true <-> exists b, Utf8.encode t = Some b.
Proof.
  induction t as [|c t IH]; simpl.
  - split; [eauto | reflexivity].
  - destruct (Utf8.encodable c); simpl.
    + rewrite IH. split; intros [b H].
      * rewrite H. eauto.
      * destruct (Utf8.encode t); [eauto | discriminate].
    + split; [discriminate | intros [b H]; discriminate].
Qed.

Lemma universal_newlines_encodable_aux (n : nat) :
  forall t, (length t <= n)%nat -> forallb Utf8.encodable t = true ->
            forallb Utf8.encodable (universal_newlines t) = true.
Proof.
  induction n as [|n IH]; intros [|c t] Hn H; try reflexivity;
    simpl in Hn; [lia|].
  simpl in H. apply andb_true_iff in H. destruct H as [Hc Ht].
  simpl. destruct (c =? 13).
  - simpl. destruct t as [|c' t']; [reflexivity|].
    simpl in Ht, Hn. apply andb_true_iff in Ht. destruct Ht as [Hc' Ht'].
    destruct (c' =? 10).
    + apply IH; [lia | exact Ht'].
    + apply IH; [simpl; lia | simpl; rewrite Hc', Ht'; reflexivity].
  - simpl. rewrite Hc. apply IH; [lia | exact Ht].
Qed.

Lemma translate_newlines_encodable (t : text) :
  forallb Utf8.encodable t = true ->
  forallb Utf8.encodable (translate_newlines t) = true.
Proof.
  unfold translate_newlines. induction t as [|c t IH]; simpl; [reflexivity|].
  intros H. apply andb_true_iff in H. destruct H as [Hc Ht].
  rewrite forallb_app, (IH Ht), andb_true_r.
  destruct (c =? 10); [destruct P; reflexivity | simpl; rewrite Hc; reflexivity].
Qed.

(** What was read from a file can be written to a file. *)
Lemma file_text_writable (w : world) (p : Path) (content : text) :
  file_text w p = Some content -> exists b, text_bytes content = Some b.
Proof.
  unfold file_text, text_bytes. destruct (files w p) as [b0|]; [|discriminate].
  destruct (Utf8.decode b0) as [t|] eqn:E; [|discriminate].
  intros H; injection H as <-. apply Utf8_encode_total.
  apply translate_newlines_encodable.
  apply (universal_newlines_encodable_aux (length t)); [lia|].
  apply Utf8_encode_total. exists b0. apply Utf8_decode_encode. exact E.
Qed.

Lemma universal_newlines_no_cr (t : text) :
  ~ In 13 t -> universal_newlines t = t.
Proof.
  induction t as [|c t IH]; simpl; [reflexivity|]. intros H.
  destruct (N.eqb_spec c 13) as [->|_]; [tauto|]. rewrite IH by tauto. reflexivity.
Qed.

(** Reading undoes the newline translation of writing, on either
    platform, for a text without carriage returns. *)
Lemma universal_translate (t : text) :
  ~ In 13 t -> universal_newlines (translate_newlines t) = t.
Proof.
  unfold translate_newlines. induction t as [|c t IH]; simpl; [reflexivity|].
  intros H. assert (Hc : c <> 13) by tauto. assert (Ht : ~ In 13 t) by tauto.
  destruct (N.eqb_spec c 10) as [->|Hn].
  - destruct P; simpl; f_equal; exact (IH Ht).
  - simpl. destruct (N.eqb_spec c 13); [contradiction|]. f_equal. exact (IH Ht).
Qed.

Lemma translate_newlines_posix (t : text) :
  P = Posix -> translate_newlines t = t.
Proof.
  intros E. unfold translate_newlines, os_linesep. rewrite E.
  induction t as [|c t IH]; simpl; [reflexivity|].
  destruct (N.eqb_spec c 10) as [->|_]; simpl; rewrite IH; reflexivity.
Qed.

(** A text changes neither when read nor when written on Posix exactly
    when it has no carriage return; the bytes of such a file come back. *)
Lemma reread_exact_without_cr (w : world) (p : Path) (b : bytes) (t : text) :
  P = Posix -> files w p = Some b -> Utf8.decode b = Some t -> ~ In 13 t ->
  exists content, file_text w p = Some content /\ text_bytes content = Some b.
Proof.
  intros E Hf Hd Hn. exists t. unfold file_text, text_bytes.
  rewrite Hf, Hd. simpl. rewrite (universal_newlines_no_cr _ Hn).
  split; [reflexivity|]. rewrite (translate_newlines_posix _ E).
  apply Utf8_decode_encode. exact Hd.
Qed.

(* ----------------------------------------------------------------- *)
(** ** Paths *)

Lemma path_eqb_eq (p q : Path) : path_eqb p q = true <-> p = q.
Proof.
  unfold path_eqb. rewrite andb_true_iff, !text_eqb_eq.
  destruct p, q; simpl. split; [intros [-> ->]; reflexivity|].
  intros E; injection E as -> ->. split; reflexivity.
Qed.

Lemma path_eqb_refl (p : Path) : path_eqb p p = true.
Proof. apply path_eqb_eq. reflexivity. Qed.

Lemma bak_path_neq (p : Path) : path_eqb p (bak_path p) = false.
Proof.
  destruct (path_eqb p (bak_path p)) eqn:E; [|reflexivity].
  apply path_eqb_eq in E. apply (f_equal (fun q => length (name q))) in E.
  simpl in E. rewrite List.length_app in E. simpl in E. lia.
Qed.

Lemma bak_path_neq' (p : Path) : path_eqb (bak_path p) p = false.
Proof.
  destruct (path_eqb (bak_path p) p) eqn:E; [|reflexivity].
  apply path_eqb_eq in E. symmetry in E. apply path_eqb_eq in E.
  rewrite bak_path_neq in E. discriminate.
Qed.

Lemma stem_suffix (p : Path) : stem p ++ suffix p = name p.
Proof.
  unfold stem, suffix. destruct (rsplit_last dot (name p)) as [[st ext]|] eqn:E.
  - apply rsplit_last_some in E. destruct E as [E _].
    destruct st as [|a st]; [apply List.app_nil_r|].
    destruct ext as [|b ext]; [apply List.app_nil_r|].
    rewrite E. reflexivity.
  - apply List.app_nil_r.
Qed.

Lemma suffix_shape (p : Path) :
  suffix p = [] \/ exists ext, suffix p = dot :: ext /\ incl ext (name p).
Proof.
  unfold suffix. destruct (rsplit_last dot (name p)) as [[st ext]|] eqn:E; [|auto].
  destruct st as [|a st]; [auto|]. destruct ext as [|b ext]; [auto|].
  right. exists (b :: ext). split; [reflexivity|].
  apply rsplit_last_some in E. destruct E as [E _]. rewrite E.
  intros x Hx. apply in_or_app. right. right. exact Hx.
Qed.

(** The backup path of a proper path is the path with [.bak] appended. *)
Lemma with_suffix_bak (p : Path) :
  proper_path p -> with_suffix p (suffix p ++ lit ".bak") = Ok (bak_path p).
Proof.
  intros [Hn Hs]. unfold with_suffix.
  assert (Hc : existsb (fun sep => contains sep (suffix p ++ lit ".bak")) os_seps = false).
  { apply not_true_is_false. intros H. apply existsb_exists in H.
    destruct H as (sep & Hsep & H). apply contains_In in H.
    apply in_app_or in H. destruct H as [H|H].
    - destruct (suffix_shape p) as [E|(ext & E & Hi)]; rewrite E in H.
      + destruct H.
      + destruct H as [H|H]; [|exact (Hs sep Hsep (Hi _ H))].
        subst sep. destruct P; simpl in Hsep; intuition discriminate.
    - destruct P; simpl in Hsep, H; intuition (subst; discriminate). }
  rewrite Hc.
  assert (Hb : bak_path p
               = {| parent := parent p; name := stem p ++ (suffix p ++ lit ".bak") |}).
  { unfold bak_path. rewrite app_assoc, stem_suffix. reflexivity. }
  rewrite Hb.
  destruct (suffix_shape p) as [E|(ext & E & _)]; rewrite E.
  - simpl. destruct (name p); [congruence | reflexivity].
  - destruct ext; simpl; (destruct (name p); [congruence | reflexivity]).
Qed.

(* ----------------------------------------------------------------- *)
(** ** Running the patcher *)

Lemma read_text_run (p : Path) (w : world) :
  read_text p w
  = (match files w p with
     | None => Raise (FileNotFoundError p)
     | Some b =>
         match Utf8.decode b with
         | Some t => Ok (universal_newlines t)
         | None => Raise UnicodeDecodeError
         end
     end, w).
Proof.
  unfold read_text. destruct (files w p) as [b|]; [|reflexivity].
  destruct (Utf8.decode b); reflexivity.
Qed.

Lemma read_text_ok (p : Path) (w : world) (t : text) :
  file_text w p = Some t -> read_text p w = (Ok t, w).
Proof.
  unfold file_text. rewrite read_text_run.
  destruct (files w p) as [b|]; [|discriminate].
  destruct (Utf8.decode b); simpl; congruence.
Qed.

Lemma read_text_inv (p : Path) (w w' : world) (t : text) :
  read_text p w = (Ok t, w') -> file_text w p = Some t /\ w' = w.
Proof.
  unfold file_text. rewrite read_text_run.
  destruct (files w p) as [b|]; [|discriminate].
  destruct (Utf8.decode b); simpl; [|discriminate].
  intros E; injection E as -> ->. split; reflexivity.
Qed.

Lemma read_text_world (p : Path) (w : world) : snd (read_text p w) = w.
Proof. rewrite read_text_run. reflexivity. Qed.

(** What a run of the patcher that returns has done, step by step. *)
Lemma patch_ok_inv (in_path : Path) (sol : text) (w w' : world)
    (changed : nat) (out bak : Path) (preview : list text) :
  patch_xmrig_config_inplace in_path sol w = (Ok (changed, out, bak, preview), w') ->
  exists content d pools pools' b1 b2,
    file_text w in_path = Some content
    /\ json_loads content = Ok (VDict d)
    /\ dict_get d pools_key = Some (VList pools) /\ pools <> []
    /\ patch_pools sol 0 pools 0 [] = (pools', changed, preview)
    /\ out = in_path
    /\ with_suffix in_path (suffix in_path ++ lit ".bak") = Ok bak
    /\ text_bytes content = Some b1
    /\ text_bytes (json_dumps (VDict (dict_set d pools_key (VList pools')))) = Some b2
    /\ w' = store in_path b2 (store bak b1 w).
Proof.
  unfold patch_xmrig_config_inplace, bind at 1.
  destruct (read_text in_path w) as [[content|e] w1] eqn:Er; [|discriminate].
  apply read_text_inv in Er. destruct Er as [Hc ->].
  unfold bind at 1, lift at 1.
  destruct (json_loads content) as [data|e] eqn:El; [|discriminate].
  unfold bind at 1, lift at 1, py_get.
  destruct data as [| | | | |?|d]; try discriminate.
  destruct (dict_get d pools_key) as [v|] eqn:Eg; [|discriminate].
  destruct v as [| | | | |pools|]; try discriminate.
  destruct pools as [|pool pools]; [discriminate|].
  cbn [nonempty_list negb].
  destruct (patch_pools sol 0 (pool :: pools) 0 []) as [[pools' ch] pv] eqn:Ep.
  unfold bind at 1, lift at 1.
  destruct (with_suffix in_path (suffix in_path ++ lit ".bak")) as [bk|e] eqn:Es;
    [|discriminate].
  unfold bind at 1. rewrite (read_text_ok _ _ _ Hc).
  unfold bind at 1, write_text at 1. fold (text_bytes content).
  destruct (text_bytes content) as [b1|] eqn:E1; [|discriminate].
  unfold bind at 1, write_text at 1, with_pools.
  fold (text_bytes (json_dumps (VDict (dict_set d pools_key (VList pools'))))).
  destruct (text_bytes (json_dumps (VDict (dict_set d pools_key (VList pools')))))
    as [b2|] eqn:E2; [|discriminate].
  unfold ret. intros E. injection E as <- <- <- <- <-.
  exists content, d, (pool :: pools), pools', b1, b2.
  repeat (split; [first [reflexivity | assumption | discriminate]|]). reflexivity.
Qed.

(* ----------------------------------------------------------------- *)
(** ** The loop over the pools *)

Lemma replace_worker_part_str (u sol : text) :
  exists t, replace_worker_part (VStr u) sol = VStr t.
Proof.
  unfold replace_worker_part, rsplit1. destruct (contains dot u); simpl; [|eauto].
  destruct (rsplit_last dot u) as [[p q]|]; eauto.
Qed.

(** One turn of either loop: the pool is rewritten, counted and shown,
    or nothing happens. *)
Lemma patch_pool_cases (sol : text) (i : nat) (pool : value) (c : nat) (l : list text) :
  (exists d u new_u,
      pool = VDict d /\ dict_get d user_key = Some (VStr u)
      /\ contains dot u = true
      /\ replace_worker_part (VStr u) sol = VStr new_u /\ new_u <> u
      /\ patch_pool sol i pool c l
         = (VDict (dict_set d user_key (VStr new_u)), S c, l ++ [preview_line i u new_u])
      /\ preview_pool sol i pool c l = (S c, l ++ [preview_line i u new_u]))
  \/ (patch_pool sol i pool c l = (pool, c, l)
      /\ preview_pool sol i pool c l = (c, l)
      /\ forall d u, pool = VDict d -> dict_get d user_key = Some (VStr u) ->
                     contains dot u = true ->
                     replace_worker_part (VStr u) sol = VStr u).
Proof.
  unfold patch_pool, preview_pool.
  destruct pool as [| | | | | |d]; try (right; repeat split; discriminate).
  destruct (dict_get d user_key) as [v|] eqn:Eg;
    [|right; repeat split; intros; congruence].
  destruct v as [| | | |u| |]; try (right; repeat split; intros; congruence).
  destruct (contains dot u) eqn:Ec; [|right; repeat split; intros; congruence].
  destruct (replace_worker_part_str u sol) as [t Et]. rewrite Et.
  destruct (text_eqb t u) eqn:Ee; cbn [negb].
  - right. apply text_eqb_eq in Ee. subst t. repeat split.
    intros d' u' Hd Hu _. injection Hd as <-. rewrite Eg in Hu.
    injection Hu as <-. exact Et.
  - left. apply text_eqb_neq in Ee. exists d, u, t. repeat split; assumption.
Qed.

Lemma preview_matches_patch (sol : text) (pools : list value) :
  forall i c l ps' c' l',
    patch_pools sol i pools c l = (ps', c', l') ->
    preview_pools sol i pools c l = (c', l').
Proof.
  induction pools as [|pool pools IH]; simpl; intros i c l ps' c' l' H.
  - congruence.
  - destruct (patch_pool_cases sol i pool c l)
      as [(d & u & t & _ & _ & _ & _ & _ & Hp & Hv)|(Hp & Hv & _)];
      rewrite Hp in H; rewrite Hv;
      destruct (patch_pools sol (S i) pools _ _) as [[r c2] l2] eqn:E;
      injection H as <- <- <-; exact (IH _ _ _ _ _ _ E).
Qed.

Lemma patch_pools_count (sol : text) (pools : list value) :
  forall i c l ps' c' l',
    patch_pools sol i pools c l = (ps', c', l') ->
    (c <= c')%nat /\ (c' = c -> ps' = pools /\ l' = l).
Proof.
  induction pools as [|pool pools IH]; simpl; intros i c l ps' c' l' H.
  - injection H as <- <- <-. auto.
  - destruct (patch_pool_cases sol i pool c l)
      as [(d & u & t & _ & _ & _ & _ & _ & Hp & _)|(Hp & _ & _)];
      rewrite Hp in H;
      destruct (patch_pools sol (S i) pools _ _) as [[r c2] l2] eqn:E;
      injection H as <- <- <-; destruct (IH _ _ _ _ _ _ E) as [Hle Heq].
    + split; [lia|]. intros ->. lia.
    + split; [exact Hle|]. intros ->. destruct (Heq eq_refl) as [-> ->]. auto.
Qed.

(* ----------------------------------------------------------------- *)
(** ** What the patch leaves alone *)

Lemma entry_frame_refl (key : text) (upd : value -> value -> Prop) (d : dict) :
  Forall2 (entry_frame key upd) d d.
Proof.
  induction d as [|e d IH]; constructor; [|exact IH].
  split; [reflexivity | left; reflexivity].
Qed.

Lemma dict_set_frame (key : text) (upd : value -> value -> Prop)
    (d : dict) (v v' : value) :
  dict_get d key = Some v -> upd v v' ->
  Forall2 (entry_frame key upd) d (dict_set d key v').
Proof.
  intros Hg Hu. induction d as [|[k x] d IH]; simpl in *; [discriminate|].
  destruct (text_eqb k key) eqn:E.
  - injection Hg as ->. apply text_eqb_eq in E.
    constructor; [|apply entry_frame_refl].
    split; [reflexivity|]. right. split; assumption.
  - constructor; [|apply IH; exact Hg].
    split; [reflexivity | left; reflexivity].
Qed.

Lemma dict_set_same (d : dict) (key : text) (v : value) :
  dict_get d key = Some v -> dict_set d key v = d.
Proof.
  induction d as [|[k x] d IH]; simpl; [discriminate|].
  destruct (text_eqb k key); [congruence|].
  intros H. rewrite (IH H). reflexivity.
Qed.

Lemma pool_frame_refl (sol : text) (p : value) : pool_frame sol p p.
Proof.
  destruct p; simpl; try reflexivity.
  eexists. split; [reflexivity | apply entry_frame_refl].
Qed.

Lemma patch_pool_frame (sol : text) (i : nat) (pool : value) (c : nat) (l : list text) :
  pool_frame sol pool (fst (fst (patch_pool sol i pool c l))).
Proof.
  destruct (patch_pool_cases sol i pool c l)
    as [(d & u & t & -> & Hg & Hc & Hr & Hn & Hp & _)|(Hp & _ & _)]; rewrite Hp; simpl.
  - eexists. split; [reflexivity|]. apply (dict_set_frame _ _ _ _ _ Hg).
    exists u. split; [reflexivity|]. split; [apply contains_In; exact Hc|].
    rewrite Hr. split; [congruence | reflexivity].
  - apply pool_frame_refl.
Qed.

Lemma patch_pools_frame (sol : text) (pools : list value) :
  forall i c l, Forall2 (pool_frame sol) pools (fst (fst (patch_pools sol i pools c l))).
Proof.
  induction pools as [|pool pools IH]; simpl; intros i c l; [constructor|].
  pose proof (patch_pool_frame sol i pool c l) as Hp.
  destruct (patch_pool sol i pool c l) as [[p' c1] l1].
  pose proof (IH (S i) c1 l1) as Hr.
  destruct (patch_pools sol (S i) pools c1 l1) as [[r c2] l2].
  constructor; assumption.
Qed.

(* ----------------------------------------------------------------- *)
(** ** The write phase *)

(** The run of the patcher once the document is loaded, has pools and
    the backup path is known. *)
Lemma patch_run (in_path bak : Path) (sol content : text) (w : world)
    (d : dict) (pools : list value) :
  file_text w in_path = Some content ->
  json_loads content = Ok (VDict d) ->
  dict_get d pools_key = Some (VList pools) -> pools <> [] ->
  with_suffix in_path (suffix in_path ++ lit ".bak") = Ok bak ->
  patch_xmrig_config_inplace in_path sol w
  = let '(pools', changed, preview) := patch_pools sol 0 pools 0 [] in
    match text_bytes content with
    | None => (Raise UnicodeEncodeError, store bak [] w)
    | Some b1 =>
        match text_bytes (json_dumps (VDict (dict_set d pools_key (VList pools')))) with
        | None => (Raise UnicodeEncodeError, store in_path [] (store bak b1 w))
        | Some b2 => (Ok (changed, in_path, bak, preview),
                      store in_path b2 (store bak b1 w))
        end
    end.
Proof.
  intros Hc Hl Hg Hp Hs. unfold patch_xmrig_config_inplace, bind at 1.
  rewrite (read_text_ok _ _ _ Hc). unfold bind at 1, lift at 1. rewrite Hl.
  unfold bind at 1, lift at 1, py_get. rewrite Hg.
  destruct pools as [|pool pools]; [congruence|]. cbn [nonempty_list negb].
  destruct (patch_pools sol 0 (pool :: pools) 0 []) as [[pools' ch] pv].
  unfold bind at 1, lift at 1. rewrite Hs.
  unfold bind at 1. rewrite (read_text_ok _ _ _ Hc).
  unfold bind at 1, write_text at 1. fold (text_bytes content).
  destruct (text_bytes content) as [b1|]; [|reflexivity].
  unfold bind at 1, write_text at 1, with_pools.
  fold (text_bytes (json_dumps (VDict (dict_set d pools_key (VList pools'))))).
  destruct (text_bytes (json_dumps (VDict (dict_set d pools_key (VList pools')))));
    reflexivity.
Qed.

Lemma files_store_same (p : Path) (b : bytes) (w : world) :
  files (store p b w) p = Some b.
Proof. simpl. rewrite path_eqb_refl. reflexivity. Qed.

Lemma files_store_other (p q : Path) (b : bytes) (w : world) :
  path_eqb q p = false -> files (store p b w) q = files w q.
Proof. simpl. intros ->. reflexivity. Qed.

Lemma no_pools_message_names_field :
  exists a b, no_pools_message = a ++ [quote] ++ pools_key ++ [quote] ++ b.
Proof.
  exists (firstn 8 no_pools_message), (skipn 15 no_pools_message). reflexivity.
Qed.

(** C3, amended.  When the document is a mapping whose ["pools"] field is
    missing, not a sequence or empty, the patcher raises the [ValueError]
    whose message names the field, and the files and the log of writes
    are as before: no backup, no overwrite.  When the document is not a
    mapping the patcher raises an [AttributeError], again without
    touching a file. *)
Theorem patch_without_pools (in_path : Path) (sol content : text) (w : world)
    (data : value) :
  file_text w in_path = Some content ->
  json_loads content = Ok data ->
  (forall d, data = VDict d -> pools_rejected d ->
     patch_xmrig_config_inplace in_path sol w
     = (Raise (ValueError no_pools_message), w))
  /\ ((forall d, data <> VDict d) ->
      exists msg, patch_xmrig_config_inplace in_path sol w
                  = (Raise (AttributeError msg), w))
  /\ (exists a b, no_pools_message = a ++ [quote] ++ pools_key ++ [quote] ++ b).
Proof.
  intros Hc Hl. split; [|split; [|apply no_pools_message_names_field]].
  - intros d -> Hr. unfold patch_xmrig_config_inplace, bind at 1.
    rewrite (read_text_ok _ _ _ Hc). unfold bind at 1, lift at 1. rewrite Hl.
    unfold bind at 1, lift at 1, py_get.
    destruct Hr as [Hr|[(v & Hr & Hv)|Hr]]; rewrite Hr; try reflexivity.
    destruct v as [| | | | |l|]; try reflexivity.
    exfalso. apply (Hv l). reflexivity.
  - intros Hn. unfold patch_xmrig_config_inplace, bind at 1.
    rewrite (read_text_ok _ _ _ Hc). unfold bind at 1, lift at 1. rewrite Hl.
    unfold bind at 1, lift at 1, py_get.
    destruct data as [| | | | | |d]; try (eexists; reflexivity).
    exfalso. apply (Hn d). reflexivity.
Qed.

(** The preview reads and never writes. *)
Lemma App_preview_world (in_path : Path) (sol : text) (w : world) :
  snd (App_preview in_path sol w) = w.
Proof.
  unfold App_preview, bind at 1. rewrite read_text_run.
  destruct (files w in_path) as [b|]; [|reflexivity].
  destruct (Utf8.decode b) as [t|]; [|reflexivity].
  unfold bind at 1, lift at 1. destruct (json_loads _) as [data|]; [|reflexivity].
  unfold bind at 1, lift at 1. destruct (py_get data pools_key _); [|reflexivity].
  destruct (preview_pools _ _ _ _ _). reflexivity.
Qed.

(** C5. The preview leaves the files and the log of writes as they are,
    and whenever the patcher returns on the same file and replacement,
    the preview finds the same count and the same lines, in the same
    order. *)
Theorem preview_agrees_with_patch (in_path : Path) (sol : text) (w : world) :
  snd (App_preview in_path sol w) = w
  /\ (forall changed out bak lines w',
        patch_xmrig_config_inplace in_path sol w
        = (Ok (changed, out, bak, lines), w') ->
        exists shown,
          App_preview in_path sol w = (Ok (changed, lines, shown), w)).
Proof.
  split; [apply App_preview_world|].
  intros changed out bak lines w' H.
  destruct (patch_ok_inv _ _ _ _ _ _ _ _ H)
    as (content & d & pools & pools' & b1 & b2 & Hc & Hl & Hg & _ & Hp & _).
  unfold App_preview, bind at 1. rewrite (read_text_ok _ _ _ Hc).
  unfold bind at 1, lift at 1. rewrite Hl.
  unfold bind at 1, lift at 1, py_get. rewrite Hg.
  rewrite (preview_matches_patch _ _ _ _ _ _ _ _ Hp). eexists. reflexivity.
Qed.

(** C9. When the patcher returns, the document it saved is the loaded
    one with every entry in place: outside ["pools"] nothing differs; in
    the sequence a pool that is not a mapping is the same, and a mapping
    differs at most in ["user"], where a string with a separator whose
    replacement is another string has become that replacement. *)
Theorem patch_frame (in_path : Path) (sol : text) (w w' : world)
    (changed : nat) (out bak : Path) (preview : list text) :
  patch_xmrig_config_inplace in_path sol w = (Ok (changed, out, bak, preview), w') ->
  exists content data data' saved,
    file_text w in_path = Some content
    /\ json_loads content = Ok data
    /\ text_bytes (json_dumps data') = Some saved
    /\ files w' in_path = Some saved
    /\ doc_frame sol data data'.
Proof.
  intros H.
  destruct (patch_ok_inv _ _ _ _ _ _ _ _ H)
    as (content & d & pools & pools' & b1 & b2
        & Hc & Hl & Hg & _ & Hp & _ & _ & _ & H2 & ->).
  exists content, (VDict d), (VDict (dict_set d pools_key (VList pools'))), b2.
  repeat (split; [first [assumption | apply files_store_same]|]).
  simpl. eexists. split; [reflexivity|].
  apply (dict_set_frame _ _ _ _ _ Hg).
  exists pools, pools'. repeat split.
  pose proof (patch_pools_frame sol pools 0 0 []) as Hf.
  rewrite Hp in Hf. exact Hf.
Qed.

(** Once the document is loaded and has pools, the backup is the first
    write and holds the text that was read, whatever the loop counts;
    the write to the primary path comes second and leaves the backup as
    it is. *)
Lemma patch_backup_first (in_path : Path) (sol content : text) (w : world)
    (d : dict) (pools : list value) :
  proper_path in_path ->
  file_text w in_path = Some content ->
  json_loads content = Ok (VDict d) ->
  dict_get d pools_key = Some (VList pools) -> pools <> [] ->
  exists b1 b2 r w',
    text_bytes content = Some b1
    /\ patch_xmrig_config_inplace in_path sol w = (r, w')
    /\ writes w' = writes w ++ [(bak_path in_path, b1); (in_path, b2)]
    /\ files w' (bak_path in_path) = Some b1.
Proof.
  intros Hp Hc Hl Hg Hn.
  rewrite (patch_run _ _ _ _ _ _ _ Hc Hl Hg Hn (with_suffix_bak _ Hp)).
  destruct (patch_pools sol 0 pools 0 []) as [[pools' ch] pv].
  destruct (file_text_writable _ _ _ Hc) as [b1 H1]. rewrite H1.
  destruct (text_bytes (json_dumps _)) as [b2|]; exists b1;
    [exists b2 | exists []]; eexists _, _;
    (split; [reflexivity|]); (split; [reflexivity|]); split;
    try (simpl; rewrite <- app_assoc; reflexivity);
    rewrite files_store_other by apply bak_path_neq'; apply files_store_same.
Qed.

(** The bytes written for the backup of a file that holds [b] are [b]
    exactly when writing undoes what reading did to the line ends of its
    text. *)
Lemma backup_exact_iff (b b1 : bytes) (t : text) :
  Utf8.decode b = Some t ->
  text_bytes (universal_newlines t) = Some b1 ->
  (b1 = b <-> translate_newlines (universal_newlines t) = t).
Proof.
  intros Hd H1. unfold text_bytes in H1. apply Utf8_encode_decode in H1. split.
  - intros ->. congruence.
  - intros E. rewrite E in H1. apply Utf8_decode_encode in H1, Hd. congruence.
Qed.

(** A patch that counts no change writes the loaded document back. *)
Lemma patch_zero_rewrites (in_path : Path) (sol : text) (w w' : world)
    (out bak : Path) (preview : list text) :
  patch_xmrig_config_inplace in_path sol w = (Ok (0%nat, out, bak, preview), w') ->
  exists content data original saved,
    file_text w in_path = Some content
    /\ json_loads content = Ok data
    /\ text_bytes (json_dumps data) = Some saved
    /\ files w' in_path = Some saved
    /\ writes w' = writes w ++ [(bak, original); (in_path, saved)]
    /\ preview = [].
Proof.
  intros H.
  destruct (patch_ok_inv _ _ _ _ _ _ _ _ H)
    as (content & d & pools & pools' & b1 & b2
        & Hc & Hl & Hg & _ & Hp & _ & _ & _ & H2 & ->).
  destruct (patch_pools_count _ _ _ _ _ _ _ _ Hp) as [_ Hz].
  destruct (Hz eq_refl) as [-> ->].
  rewrite (dict_set_same _ _ _ Hg) in H2.
  exists content, (VDict d), b1, b2.
  repeat (split; [first [assumption | apply files_store_same]|]).
  split; [|reflexivity]. simpl. rewrite <- app_assoc. reflexivity.
Qed.

End Properties.

(* ================================================================= *)
(** * Reading back what was written *)

Section ReadBack.

Context {F : PyFloat} {P : Platform}.

(** ** Decimal numerals *)

Lemma nzhead_shape (d : Decimal.uint) :
  Decimal.nzhead d = Decimal.Nil \/ head_nonzero (Decimal.nzhead d).
Proof. induction d; simpl; auto. Qed.

Lemma unorm_canonical (d : Decimal.uint) : canonical (Decimal.unorm d).
Proof.
  unfold Decimal.unorm. destruct (nzhead_shape d) as [E|H].
  - rewrite E. left. reflexivity.
  - destruct (Decimal.nzhead d); try contradiction; right; exact I.
Qed.

Lemma to_int_shape (z : Z) :
  (exists d, Z.to_int z = Decimal.Pos d /\ canonical d)
  \/ (exists d, Z.to_int z = Decimal.Neg d /\ head_nonzero d).
Proof.
  pose proof (DecimalZ.to_of (Z.to_int z)) as H. rewrite DecimalZ.of_to in H.
  destruct (Z.to_int z) as [d|d]; simpl in H.
  - left. exists d. split; [reflexivity|]. injection H as H. rewrite H.
    apply unorm_canonical.
  - right. exists d. split; [reflexivity|].
    destruct (nzhead_shape d) as [E|Hn].
    + rewrite E in H. discriminate.
    + destruct (Decimal.nzhead d) eqn:E; try contradiction; injection H as ->; exact I.
Qed.

Lemma uint_of_text_uint_text (d : Decimal.uint) : uint_of_text (uint_text d) = d.
Proof. induction d; simpl; congruence. Qed.

Lemma uint_text_digits (d : Decimal.uint) : forallb is_digit (uint_text d) = true.
Proof. induction d; simpl; auto. Qed.

Lemma int_of_literal_int_text (z : Z) : int_of_literal (int_text z) = z.
Proof.
  unfold int_text. rewrite <- (DecimalZ.of_to z) at 2.
  destruct (Z.to_int z) as [d|d]; unfold int_of_literal.
  - destruct d; simpl uint_text; try reflexivity;
      cbv beta iota; change (_ =? 45) with false; cbv iota;
      rewrite <- (uint_of_text_uint_text d) at 2; reflexivity.
  - change (45 =? 45) with true. cbv iota. rewrite uint_of_text_uint_text. reflexivity.
Qed.

Lemma span_digits_app (ds rest : text) :
  forallb is_digit ds = true ->
  match rest with [] => True | c :: _ => is_digit c = false end ->
  span_digits (ds ++ rest) = (ds, rest).
Proof.
  intros Hd Hr. induction ds as [|c ds IH]; simpl in *.
  - destruct rest as [|c r]; [reflexivity|]. simpl. rewrite Hr. reflexivity.
  - apply andb_true_iff in Hd. destruct Hd as [Hc Hd]. rewrite Hc, (IH Hd). reflexivity.
Qed.

Lemma delimited_digit (rest : text) :
  delimited rest -> match rest with [] => True | c :: _ => is_digit c = false end.
Proof. destruct rest; simpl; tauto. Qed.

Lemma match_frac_delimited (s : text) : delimited s -> match_frac s = ([], s).
Proof.
  destruct s as [|p [|d r]]; simpl; try reflexivity.
  intros (_ & Hp & _). destruct (N.eqb_spec p 46); [contradiction | reflexivity].
Qed.

Lemma match_exp_delimited (s : text) : delimited s -> match_exp s = ([], s).
Proof.
  destruct s as [|e r]; simpl; try reflexivity.
  intros (_ & _ & H1 & H2).
  destruct (N.eqb_spec e 101); [contradiction|].
  destruct (N.eqb_spec e 69); [contradiction | reflexivity].
Qed.

Lemma match_int_canonical (d : Decimal.uint) (rest : text) :
  canonical d ->
  match rest with [] => True | c :: _ => is_digit c = false end ->
  match_int (uint_text d ++ rest) = Some (uint_text d, rest).
Proof.
  intros [->|H] Hr; [reflexivity|].
  destruct d; try contradiction; simpl;
    rewrite (span_digits_app _ _ (uint_text_digits d) Hr); reflexivity.
Qed.

Lemma head_nonzero_canonical (d : Decimal.uint) : head_nonzero d -> canonical d.
Proof. right. assumption. Qed.

Lemma match_number_int_text (z : Z) (rest : text) :
  delimited rest -> match_number (int_text z ++ rest) = Some (int_text z, false, rest).
Proof.
  intros Hr. unfold int_text, match_number.
  destruct (to_int_shape z) as [(d & -> & Hd)|(d & -> & Hd)].
  - assert (Hs : match_sign (uint_text d ++ rest) = ([], uint_text d ++ rest)).
    { destruct Hd as [->|Hd]; [reflexivity|]. destruct d; try contradiction; reflexivity. }
    rewrite Hs. cbv beta iota.
    rewrite (match_int_canonical _ _ Hd (delimited_digit _ Hr)),
      (match_frac_delimited _ Hr),
      (match_exp_delimited _ Hr).
    simpl. rewrite !List.app_nil_r. reflexivity.
  - change ((45 :: uint_text d) ++ rest) with (45 :: (uint_text d ++ rest)).
    change (match_sign (45 :: (uint_text d ++ rest))) with ([45], uint_text d ++ rest).
    cbv beta iota.
    rewrite (match_int_canonical _ _ (head_nonzero_canonical _ Hd)
               (delimited_digit _ Hr)),
      (match_frac_delimited _ Hr), (match_exp_delimited _ Hr).
    simpl. rewrite !List.app_nil_r. reflexivity.
Qed.

Lemma int_text_head (z : Z) :
  exists c t, int_text z = c :: t /\ number_head c = true
              /\ (c = 45 -> exists c' t', t = c' :: t' /\ is_digit c' = true).
Proof.
  unfold int_text. destruct (to_int_shape z) as [(d & -> & Hd)|(d & -> & Hd)].
  - destruct Hd as [->|Hd]; [|destruct d; try contradiction];
      simpl; eexists _, _; (split; [reflexivity|]); (split; [reflexivity|]);
      discriminate.
  - exists 45, (uint_text d). split; [reflexivity|]. split; [reflexivity|]. intros _.
    destruct d; try contradiction; simpl; eexists _, _; split; reflexivity.
Qed.

Lemma scan_atom_number (l rest : text) (b : bool) :
  (exists c t, l = c :: t /\ number_head c = true
               /\ (c = 45 -> exists c' t', t = c' :: t' /\ is_digit c' = true)) ->
  match_number (l ++ rest) = Some (l, b, rest) ->
  scan_atom (l ++ rest)
  = Ok (if b then VFloat (float_of_literal l) else VInt (int_of_literal l), rest).
Proof.
  intros (c & t & -> & Hc & Hm) Hn. unfold scan_atom, scan_number. rewrite Hn.
  simpl app. unfold number_head, is_digit in Hc.
  assert (Hnull : forall k, k <> 45 -> (48 <=? k) && (k <=? 57) = false ->
                            char_eqb k c = false).
  { intros k Hk Hd. unfold char_eqb. destruct (N.eqb_spec k c) as [<-|]; [|reflexivity].
    rewrite Hd in Hc. simpl in Hc. apply N.eqb_eq in Hc. contradiction. }
  cbn [lit list_ascii_of_string map strip_prefix].
  change (N_of_ascii "n") with 110. change (N_of_ascii "t") with 116.
  change (N_of_ascii "f") with 102. change (N_of_ascii "N") with 78.
  change (N_of_ascii "I") with 73. change (N_of_ascii "-") with 45.
  rewrite !Hnull by (try discriminate; reflexivity).
  unfold char_eqb at 1. destruct (N.eqb_spec 45 c) as [<-|_]; [|destruct b; reflexivity].
  destruct (Hm eq_refl) as (c' & t' & -> & Hd).
  simpl app. cbn [strip_prefix]. change (N_of_ascii "I") with 73.
  assert (E : char_eqb 73 c' = false).
  { unfold char_eqb. destruct (N.eqb_spec 73 c') as [<-|]; [discriminate | reflexivity]. }
  rewrite E. destruct b; reflexivity.
Qed.

Lemma scan_atom_int_text (z : Z) (rest : text) :
  delimited rest -> scan_atom (int_text z ++ rest) = Ok (VInt z, rest).
Proof.
  intros Hr.
  rewrite (scan_atom_number _ _ false (int_text_head z) (match_number_int_text z rest Hr)).
  rewrite int_of_literal_int_text. reflexivity.
Qed.

(** ** Strings *)

Lemma hex4_hex_digit (c : char) :
  c < 32 -> hex4 48 48 (hex_digit (c / 16)) (hex_digit (c mod 16)) = Some c.
Proof.
  intros H.
  assert (Hin : In c (map N.of_nat (seq 0 32))).
  { apply in_map_iff. exists (N.to_nat c). split; [lia|]. apply in_seq. lia. }
  clear H. simpl in Hin.
  repeat (destruct Hin as [<-|Hin]; [reflexivity|]). destruct Hin.
Qed.

Lemma scanstring_plain (c : char) (r : text) :
  (c =? quote) = false -> (c =? backslash) = false -> (c <? 32) = false ->
  scanstring (c :: r) = rcons c (scanstring r).
Proof.
  intros H1 H2 H3. cbn -[N.eqb N.ltb]. rewrite H1, H2, H3. reflexivity.
Qed.

Lemma scanstring_u (h1 h2 h3 h4 t0 : char) (tail : text) (c : char) :
  hex4 h1 h2 h3 h4 = Some c -> is_high_surrogate c = false ->
  scanstring (92 :: 117 :: h1 :: h2 :: h3 :: h4 :: t0 :: tail)
  = rcons c (scanstring (t0 :: tail)).
Proof.
  intros H1 H2.
  cbn -[N.eqb N.ltb hex4 is_high_surrogate]. rewrite H1, H2. reflexivity.
Qed.

Lemma scanstring_escape (c : char) (tail : text) :
  tail <> [] -> scanstring (escape_char c ++ tail) = rcons c (scanstring tail).
Proof.
  intros Ht. unfold escape_char.
  destruct (N.eqb_spec c quote) as [->|H1]; [reflexivity|].
  destruct (N.eqb_spec c backslash) as [->|H2]; [reflexivity|].
  destruct (N.eqb_spec c 10) as [->|H3]; [reflexivity|].
  destruct (N.eqb_spec c 13) as [->|H4]; [reflexivity|].
  destruct (N.eqb_spec c 9) as [->|H5]; [reflexivity|].
  destruct (N.eqb_spec c 12) as [->|H6]; [reflexivity|].
  destruct (N.eqb_spec c 8) as [->|H7]; [reflexivity|].
  destruct (N.ltb_spec c 32) as [H8|H8].
  - destruct tail as [|t0 tail]; [congruence|].
    apply scanstring_u; [apply hex4_hex_digit; exact H8|].
    unfold is_high_surrogate. apply andb_false_iff. left. apply N.leb_gt. lia.
  - apply scanstring_plain.
    + apply N.eqb_neq. exact H1.
    + apply N.eqb_neq. exact H2.
    + apply N.ltb_ge. exact H8.
Qed.

Lemma scanstring_encoded (s rest : text) :
  scanstring (flat_map escape_char s ++ quote :: rest) = Ok (s, rest).
Proof.
  induction s as [|c s IH]; [reflexivity|].
  simpl flat_map. rewrite <- app_assoc, scanstring_escape, IH; [reflexivity|].
  destruct (flat_map escape_char s); discriminate.
Qed.

Lemma encode_basestring_app (s rest : text) :
  encode_basestring s ++ rest = quote :: flat_map escape_char s ++ quote :: rest.
Proof. unfold encode_basestring. simpl. rewrite <- app_assoc. reflexivity. Qed.

(** ** Whitespace and first characters *)

Lemma skip_ws_spaces (n : nat) (s : text) : skip_ws (repeat 32 n ++ s) = skip_ws s.
Proof. induction n as [|n IH]; [reflexivity | exact IH]. Qed.

Lemma skip_ws_newline_indent (level : nat) (s : text) :
  skip_ws (newline_indent level ++ s) = skip_ws s.
Proof. unfold newline_indent. exact (skip_ws_spaces (2 * level) s). Qed.

Lemma skip_ws_head (c : char) (s : text) :
  is_json_ws c = false -> skip_ws (c :: s) = c :: s.
Proof. intros H. simpl. rewrite H. reflexivity. Qed.

Lemma scan_atom_head (s : text) (v : value) (r : text) :
  scan_atom s = Ok (v, r) -> exists c t, s = c :: t /\ atom_head c = true.
Proof.
  destruct s as [|c t]; [discriminate|]. intros H. exists c, t. split; [reflexivity|].
  destruct (atom_head c) eqn:E; [reflexivity|]. exfalso.
  unfold atom_head, is_digit in E.
  rewrite !orb_false_iff in E. destruct E as ((((((Hd & H1) & H2) & H3) & H4) & H5) & H6).
  revert H. unfold scan_atom, scan_number, match_number, match_sign, match_int.
  cbn [lit list_ascii_of_string map strip_prefix].
  change (N_of_ascii "n") with 110. change (N_of_ascii "t") with 116.
  change (N_of_ascii "f") with 102. change (N_of_ascii "N") with 78.
  change (N_of_ascii "I") with 73. change (N_of_ascii "-") with 45.
  unfold char_eqb. rewrite !(N.eqb_sym _ c), H1, H2, H3, H4, H5, H6.
  assert (E1 : (49 <=? c) && (c <=? 57) = false).
  { apply andb_false_iff in Hd. apply andb_false_iff.
    rewrite N.leb_gt in *. destruct Hd; [left; lia | right; assumption]. }
  assert (E2 : (c =? 48) = false).
  { apply N.eqb_neq. intros ->. discriminate. }
  rewrite E1, E2. discriminate.
Qed.

(** ** Values *)

Lemma value_ind' (Pr : value -> Prop) :
  Pr VNone -> (forall b, Pr (VBool b)) -> (forall z, Pr (VInt z)) ->
  (forall f, Pr (VFloat f)) -> (forall s, Pr (VStr s)) ->
  (forall l, Forall Pr l -> Pr (VList l)) ->
  (forall d, Forall (fun m => Pr (snd m)) d -> Pr (VDict d)) ->
  forall v, Pr v.
Proof.
  intros H0 H1 H2 H3 H4 H5 H6. fix IH 1.
  intros [|b|z|f|s|l|d];
    [exact H0 | exact (H1 b) | exact (H2 z) | exact (H3 f) | exact (H4 s) | | ].
  - apply H5. induction l as [|x l IHl]; constructor; [apply IH | exact IHl].
  - apply H6. induction d as [|m d IHd]; constructor; [apply IH | exact IHd].
Qed.

Context {L : PyFloatLaws F}.


Lemma atom_head_props (c : char) :
  atom_head c = true ->
  is_json_ws c = false /\ (c =? 93) = false /\ (c =? 125) = false
  /\ (c =? quote) = false /\ (c =? 123) = false /\ (c =? 91) = false.
Proof.
  intros H. repeat split.
  - destruct (is_json_ws c) eqn:E; [|reflexivity]. unfold is_json_ws in E.
    rewrite !orb_true_iff, !N.eqb_eq in E.
    destruct E as [[[->| ->]| ->]| ->]; discriminate H.
  - destruct (N.eqb_spec c 93) as [->|]; [discriminate H | reflexivity].
  - destruct (N.eqb_spec c 125) as [->|]; [discriminate H | reflexivity].
  - destruct (N.eqb_spec c quote) as [->|]; [discriminate H | reflexivity].
  - destruct (N.eqb_spec c 123) as [->|]; [discriminate H | reflexivity].
  - destruct (N.eqb_spec c 91) as [->|]; [discriminate H | reflexivity].
Qed.

Lemma float_str_head (f : float) :
  exists c t, float_str f = c :: t /\ atom_head c = true.
Proof.
  pose proof (float_str_scans f [] I) as H. rewrite List.app_nil_r in H.
  exact (scan_atom_head _ _ _ H).
Qed.

Lemma scan_once_atom (fuel : nat) (c : char) (t : text) :
  atom_head c = true -> scan_once (S fuel) (c :: t) = scan_atom (c :: t).
Proof.
  intros H. destruct (atom_head_props c H) as (_ & _ & _ & H1 & H2 & H3).
  cbn -[N.eqb scan_atom]. rewrite H1, H2, H3. reflexivity.
Qed.

(** The first character of an encoded value opens a value. *)
Lemma iterencode_head (level : nat) (v : value) :
  exists c t, iterencode level v = c :: t
              /\ is_json_ws c = false /\ (c =? 93) = false /\ (c =? 125) = false.
Proof.
  destruct v as [|[|]|z|f|s|[|x l]|[|m d]]; simpl;
    try (eexists _, _; repeat split; reflexivity).
  - destruct (int_text_head z) as (c & t & -> & Hc & _). exists c, t.
    split; [reflexivity|]. unfold number_head in Hc.
    assert (Ha : atom_head c = true).
    { unfold atom_head. apply orb_true_iff in Hc. destruct Hc as [-> | ->];
        [reflexivity | rewrite orb_true_r; reflexivity]. }
    destruct (atom_head_props c Ha) as (A1 & A2 & A3 & _). auto.
  - destruct (float_str_head f) as (c & t & -> & Ha). exists c, t.
    split; [reflexivity|].
    destruct (atom_head_props c Ha) as (A1 & A2 & A3 & _). auto.
Qed.

Lemma skip_ws_iterencode (level : nat) (v : value) (rest : text) :
  skip_ws (iterencode level v ++ rest) = iterencode level v ++ rest.
Proof.
  destruct (iterencode_head level v) as (c & t & -> & Hc & _).
  apply skip_ws_head. exact Hc.
Qed.

Lemma delimited_comma (s : text) : delimited (44 :: s).
Proof. simpl. repeat split; discriminate. Qed.

Lemma delimited_newline (level : nat) (s : text) : delimited (newline_indent level ++ s).
Proof. simpl. repeat split; discriminate. Qed.

(** ** Arrays and objects *)

Lemma parse_items_S (fuel : nat) (s : text) :
  parse_items (S fuel) s
  = rbind (scan_once fuel s) (fun '(v, rest) =>
      match skip_ws rest with
      | c :: r =>
          if c =? 93 then Ok ([v], r)
          else if c =? 44 then
            rbind (parse_items fuel (skip_ws r)) (fun '(vs, rest2) => Ok (v :: vs, rest2))
          else expecting_comma
      | [] => expecting_comma
      end).
Proof. reflexivity. Qed.

Lemma parse_members_S (fuel : nat) (r : text) :
  parse_members (S fuel) (quote :: r)
  = rbind (scanstring r) (fun '(k, rest) =>
      match skip_ws rest with
      | c1 :: r1 =>
          if c1 =? 58 then
            rbind (scan_once fuel (skip_ws r1)) (fun '(v, rest2) =>
              match skip_ws rest2 with
              | c2 :: r2 =>
                  if c2 =? 125 then Ok ([(k, v)], r2)
                  else if c2 =? 44 then
                    rbind (parse_members fuel (skip_ws r2))
                      (fun '(ms, rest3) => Ok ((k, v) :: ms, rest3))
                  else expecting_comma
              | [] => expecting_comma
              end)
          else expecting_colon
      | [] => expecting_colon
      end).
Proof. reflexivity. Qed.

Lemma scan_once_array (fuel : nat) (r : text) :
  scan_once (S fuel) (91 :: r)
  = match skip_ws r with
    | c' :: r' =>
        if c' =? 93 then Ok (VList [], r')
        else rbind (parse_items fuel (c' :: r')) (fun '(vs, rest) => Ok (VList vs, rest))
    | [] => expecting_value
    end.
Proof. reflexivity. Qed.

Lemma scan_once_object (fuel : nat) (r : text) :
  scan_once (S fuel) (123 :: r)
  = match skip_ws r with
    | c' :: r' =>
        if c' =? 125 then Ok (VDict [], r')
        else rbind (parse_members fuel (c' :: r'))
               (fun '(ms, rest) => Ok (VDict (dict_of_pairs ms), rest))
    | [] => expecting_name
    end.
Proof. reflexivity. Qed.

Lemma scan_once_string (fuel : nat) (r : text) :
  scan_once (S fuel) (quote :: r)
  = rbind (scanstring r) (fun '(k, rest) => Ok (VStr k, rest)).
Proof. reflexivity. Qed.

Lemma parse_items_encoded (level : nat) (rest : text) (xs : list value) :
  forall (x : value) (fuel : nat),
    Forall reads_back (x :: xs) ->
    (list_sum (map (fun x => S (vsize x)) (x :: xs)) <= fuel)%nat ->
    parse_items fuel
      (iterencode (S level) x
       ++ flat_map (item_text level) xs ++ newline_indent level ++ 93 :: rest)
    = Ok (x :: xs, rest).
Proof.
  induction xs as [|y ys IH]; intros x fuel Hr Hf;
    inversion Hr as [|? ? Hx Hxs]; subst;
    simpl in Hf; destruct fuel as [|fuel]; try lia; rewrite parse_items_S.
  - cbn [flat_map app].
    rewrite (Hx (S level) fuel _ ltac:(lia) (delimited_newline _ _)).
    cbn [rbind]. rewrite skip_ws_newline_indent. reflexivity.
  - cbn [flat_map]. unfold item_text at 1. rewrite <- !app_assoc. cbn [app].
    rewrite (Hx (S level) fuel _ ltac:(lia) (delimited_comma _)).
    cbn [rbind]. rewrite skip_ws_head by reflexivity.
    change (44 =? 93) with false. change (44 =? 44) with true. cbv iota.
    rewrite skip_ws_newline_indent, skip_ws_iterencode.
    rewrite (IH y fuel Hxs) by (simpl; lia). reflexivity.
Qed.

Lemma rbind_ok {A B} (r : result A) (a : A) (k : A -> result B) :
  r = Ok a -> rbind r k = k a.
Proof. intros ->. reflexivity. Qed.

Lemma skip_ws_basestring (k rest : text) :
  skip_ws (encode_basestring k ++ rest) = encode_basestring k ++ rest.
Proof. rewrite encode_basestring_app. apply skip_ws_head. reflexivity. Qed.

Lemma parse_members_encoded (level : nat) (rest : text) (ms : list (text * value)) :
  forall (m : text * value) (fuel : nat),
    Forall (fun m => reads_back (snd m)) (m :: ms) ->
    (list_sum (map (fun m => S (vsize (snd m))) (m :: ms)) <= fuel)%nat ->
    parse_members fuel
      (encode_basestring (fst m) ++ 58 :: 32 :: iterencode (S level) (snd m)
       ++ flat_map (member_text level) ms ++ newline_indent level ++ 125 :: rest)
    = Ok (m :: ms, rest).
Proof.
  induction ms as [|m' ms IH]; intros [k v] fuel Hr Hf;
    inversion Hr as [|? ? Hx Hxs]; subst;
    simpl in Hf; destruct fuel as [|fuel]; try lia;
    cbn [fst snd] in *;
    rewrite encode_basestring_app, parse_members_S, scanstring_encoded;
    cbn [rbind app]; rewrite skip_ws_head by reflexivity;
    change (58 =? 58) with true; cbv iota;
    change (skip_ws (32 :: ?s)) with (skip_ws s); rewrite skip_ws_iterencode.
  - cbn [flat_map app].
    rewrite (Hx (S level) fuel _ ltac:(lia) (delimited_newline _ _)).
    cbn [rbind]. rewrite skip_ws_newline_indent. reflexivity.
  - cbn [flat_map]. unfold member_text at 1. rewrite <- !app_assoc. cbn [app].
    rewrite (Hx (S level) fuel _ ltac:(lia) (delimited_comma _)).
    cbn [rbind]. rewrite skip_ws_head by reflexivity.
    change (44 =? 125) with false. change (44 =? 44) with true. cbv iota.
    rewrite skip_ws_newline_indent, skip_ws_basestring.
    erewrite rbind_ok by (apply (IH m' fuel Hxs); simpl; lia). reflexivity.
Qed.

Lemma dict_set_fresh (d : dict) (k : text) (v : value) :
  ~ In k (map fst d) -> dict_set d k v = d ++ [(k, v)].
Proof.
  induction d as [|[k' v'] d IH]; simpl; intros H; [reflexivity|].
  destruct (text_eqb k' k) eqn:E.
  - apply text_eqb_eq in E. tauto.
  - rewrite IH by tauto. reflexivity.
Qed.

Lemma fold_dict_set (ms acc : list (text * value)) :
  NoDup (map fst (acc ++ ms)) ->
  fold_left (fun d m => dict_set d (fst m) (snd m)) ms acc = acc ++ ms.
Proof.
  revert acc; induction ms as [|[k v] ms IH]; intros acc H; simpl.
  - rewrite List.app_nil_r. reflexivity.
  - rewrite dict_set_fresh.
    + rewrite IH; rewrite <- app_assoc; [reflexivity | exact H].
    + rewrite map_app in H. simpl in H. apply NoDup_remove_2 in H.
      intros Hin. apply H. apply in_or_app. left. exact Hin.
Qed.

Lemma dict_of_pairs_distinct (ms : list (text * value)) :
  NoDup (map fst ms) -> dict_of_pairs ms = ms.
Proof. intros H. exact (fold_dict_set ms [] H). Qed.

Lemma match_head {A} (s : text) (k : char) (a : text -> A) (e : A) (b : text -> A) :
  (exists c t, s = c :: t /\ (c =? k) = false) ->
  match s with
  | c :: r => if c =? k then a r else b (c :: r)
  | [] => e
  end = b s.
Proof. intros (c & t & -> & H). rewrite H. reflexivity. Qed.

Lemma Forall_impl2 {A} (Q R : A -> Prop) (l : list A) :
  Forall (fun x => Q x -> R x) l -> Forall Q l -> Forall R l.
Proof.
  induction 1 as [|x l H _ IH]; intros HQ; inversion HQ; subst; constructor; auto.
Qed.

(** Every well-formed value is read back from its encoding. *)
Theorem scan_once_iterencode (v : value) : well_formed v -> reads_back v.
Proof.
  induction v as [|b|z|f|s|l IH|d IH] using value_ind'; intros Hw level fuel rest Hf Hr;
    simpl in Hf; (destruct fuel as [|fuel]; [lia|]).
  - reflexivity.
  - destruct b; reflexivity.
  - cbn [iterencode]. destruct (int_text_head z) as (c & t & E & Hc & _).
    pose proof (scan_atom_int_text z rest Hr) as Hs. rewrite E in *.
    rewrite <- Hs. apply scan_once_atom. unfold atom_head.
    unfold number_head in Hc. apply orb_true_iff in Hc.
    destruct Hc as [-> | ->]; [reflexivity | rewrite orb_true_r; reflexivity].
  - cbn [iterencode]. destruct (float_str_head f) as (c & t & E & Hc).
    pose proof (float_str_scans f rest Hr) as Hs. rewrite E in *.
    rewrite <- Hs. apply scan_once_atom. exact Hc.
  - cbn [iterencode]. rewrite encode_basestring_app, scan_once_string, scanstring_encoded.
    reflexivity.
  - inversion Hw as [| | | | |? Hl|]; subst.
    destruct l as [|x xs]; [reflexivity|].
    cbn [iterencode app]. rewrite scan_once_array. rewrite <- !app_assoc.
    rewrite skip_ws_newline_indent, skip_ws_iterencode.
    rewrite (match_head _ 93 (fun r' => Ok (VList [], r')) expecting_value
               (fun s => rbind (parse_items fuel s)
                           (fun '(vs, rest0) => Ok (VList vs, rest0)))).
    + change (flat_map (fun y => [44] ++ newline_indent (S level) ++ iterencode (S level) y) xs)
        with (flat_map (item_text level) xs).
      cbn [app].
      erewrite rbind_ok
        by (apply (parse_items_encoded level rest xs x fuel (Forall_impl2 _ _ _ IH Hl));
            simpl in *; lia).
      reflexivity.
    + destruct (iterencode_head (S level) x) as (c & t & E & _ & H93 & _).
      rewrite E. eexists _, _. split; [reflexivity | exact H93].
  - inversion Hw as [| | | | | |? Hn Hd]; subst.
    destruct d as [|m ms]; [reflexivity|].
    cbn [iterencode app]. rewrite scan_once_object.
    rewrite <- !app_assoc. cbn [app]. rewrite <- !app_assoc. cbn [app].
    rewrite skip_ws_newline_indent, skip_ws_basestring.
    rewrite (match_head _ 125 (fun r' => Ok (VDict [], r')) expecting_name
               (fun s => rbind (parse_members fuel s)
                           (fun '(ms0, rest0) => Ok (VDict (dict_of_pairs ms0), rest0)))).
    + change (flat_map (fun m' => [44] ++ newline_indent (S level)
                                  ++ encode_basestring (fst m') ++ [58; 32]
                                  ++ iterencode (S level) (snd m')) ms)
        with (flat_map (member_text level) ms).
      cbn [app].
      erewrite rbind_ok
        by (apply (parse_members_encoded level rest ms m fuel
                     (Forall_impl2 _ _ _ IH Hd)); simpl in *; lia).
      cbv beta iota. rewrite (dict_of_pairs_distinct _ Hn). reflexivity.
    + rewrite encode_basestring_app. eexists _, _. split; reflexivity.
Qed.

(** ** [json.loads] after [json.dumps] *)

Lemma newline_indent_length (level : nat) :
  length (newline_indent level) = S (2 * level).
Proof. unfold newline_indent. simpl length. rewrite repeat_length. reflexivity. Qed.

Lemma list_sum_cons (a : nat) (l : list nat) :
  list_sum (a :: l) = (a + list_sum l)%nat.
Proof. reflexivity. Qed.

Lemma vsize_le_length (v : value) :
  forall level, (vsize v <= 2 * length (iterencode level v))%nat.
Proof.
  induction v as [|b|z|f|s|l IH|d IH] using value_ind'; intros level.
  - simpl. lia.
  - destruct b; simpl; lia.
  - cbn [iterencode vsize]. destruct (int_text_head z) as (c & t & -> & _). simpl. lia.
  - cbn [iterencode vsize]. destruct (float_str_head f) as (c & t & -> & _). simpl. lia.
  - simpl. lia.
  - destruct l as [|x xs]; [simpl; lia|]. inversion IH as [|? ? Hx Hxs]; subst.
    cbn [iterencode vsize map]. rewrite list_sum_cons. fold (item_text level).
    rewrite !List.length_app. specialize (Hx (S level)).
    assert (Hs : (list_sum (map (fun x => S (vsize x)) xs)
                  <= 2 * length (flat_map (item_text level) xs))%nat).
    { clear Hx IH. induction Hxs as [|y ys Hy _ IHs]; [simpl; lia|].
      cbn [map flat_map]. rewrite list_sum_cons. unfold item_text at 1. rewrite !List.length_app.
      specialize (Hy (S level)). simpl length. lia. }
    simpl length. lia.
  - destruct d as [|m ms]; [simpl; lia|]. inversion IH as [|? ? Hx Hxs]; subst.
    cbn [iterencode vsize map]. rewrite list_sum_cons. fold (member_text level).
    rewrite !List.length_app. specialize (Hx (S level)).
    assert (Hs : (list_sum (map (fun m => S (vsize (snd m))) ms)
                  <= 2 * length (flat_map (member_text level) ms))%nat).
    { clear Hx IH. induction Hxs as [|y ys Hy _ IHs]; [simpl; lia|].
      cbn [map flat_map]. rewrite list_sum_cons. unfold member_text at 1. rewrite !List.length_app.
      specialize (Hy (S level)). simpl length. lia. }
    simpl length. lia.
Qed.

Lemma iterencode_no_bom (level : nat) (v : value) :
  starts_with_bom (iterencode level v) = false.
Proof.
  destruct v as [|[|]|z|f|s|[|x l]|[|m d]]; try reflexivity; cbn [iterencode].
  - destruct (int_text_head z) as (c & t & -> & Hc & _). simpl.
    destruct (N.eqb_spec c 0xFEFF) as [->|]; [discriminate Hc | reflexivity].
  - destruct (float_str_head f) as (c & t & -> & Hc). simpl.
    destruct (N.eqb_spec c 0xFEFF) as [->|]; [discriminate Hc | reflexivity].
Qed.

(** The decoder returns every well-formed value from what the encoder
    wrote for it. *)
Theorem json_loads_dumps (v : value) :
  well_formed v -> json_loads (json_dumps v) = Ok v.
Proof.
  intros Hw. unfold json_loads, json_dumps. rewrite iterencode_no_bom.
  pose proof (vsize_le_length v 0%nat) as Hn.
  set (n := (2 * length (iterencode 0 v) + 2)%nat).
  assert (Hf : (vsize v <= n)%nat) by (unfold n; lia).
  clearbody n.
  rewrite <- (List.app_nil_r (iterencode 0 v)), skip_ws_iterencode.
  rewrite (scan_once_iterencode v Hw 0%nat n [] Hf I). reflexivity.
Qed.

(** ** What [json.loads] returns is well formed *)

Lemma dict_set_keys (d : dict) (k : text) (v : value) (x : text) :
  In x (map fst (dict_set d k v)) -> In x (map fst d) \/ x = k.
Proof.
  induction d as [|[k' v'] d IH]; simpl.
  - intros [<-|[]]. right. reflexivity.
  - destruct (text_eqb k' k); simpl; [tauto|].
    intros [H|H]; [tauto|]. destruct (IH H); tauto.
Qed.

Lemma dict_set_nodup (d : dict) (k : text) (v : value) :
  NoDup (map fst d) -> NoDup (map fst (dict_set d k v)).
Proof.
  induction d as [|[k' v'] d IH]; simpl; intros H.
  - constructor; [intros [] | constructor].
  - destruct (text_eqb k' k) eqn:E; simpl; [exact H|].
    inversion H as [|? ? Hn Hd]; subst. constructor; [|exact (IH Hd)].
    intros Hin. apply dict_set_keys in Hin. destruct Hin as [Hin|Hin]; [contradiction|].
    subst k'. rewrite text_eqb_refl in E. discriminate.
Qed.

Lemma dict_set_forall (Q : value -> Prop) (d : dict) (k : text) (v : value) :
  Forall (fun m => Q (snd m)) d -> Q v -> Forall (fun m => Q (snd m)) (dict_set d k v).
Proof.
  intros Hd Hv. induction d as [|[k' v'] d IH]; simpl.
  - constructor; [exact Hv | constructor].
  - inversion Hd as [|? ? H1 H2]; subst.
    destruct (text_eqb k' k); constructor; auto.
Qed.

Lemma dict_get_forall (Q : value -> Prop) (d : dict) (k : text) (v : value) :
  Forall (fun m => Q (snd m)) d -> dict_get d k = Some v -> Q v.
Proof.
  intros Hd. induction d as [|[k' v'] d IH]; simpl; [discriminate|].
  inversion Hd as [|? ? H1 H2]; subst.
  destruct (text_eqb k' k); [intros E; injection E as <-; exact H1 | exact (IH H2)].
Qed.

Lemma dict_get_set (d : dict) (k : text) (v : value) :
  dict_get (dict_set d k v) k = Some v.
Proof.
  induction d as [|[k' v'] d IH]; simpl.
  - rewrite text_eqb_refl. reflexivity.
  - destruct (text_eqb k' k) eqn:E; simpl; rewrite E; [reflexivity | exact IH].
Qed.

Lemma dict_of_pairs_wf (ms : list (text * value)) :
  Forall (fun m => well_formed (snd m)) ms -> well_formed (VDict (dict_of_pairs ms)).
Proof.
  intros H. unfold dict_of_pairs.
  assert (G : forall acc, NoDup (map fst acc) ->
                          Forall (fun m => well_formed (snd m)) acc ->
                          well_formed (VDict (fold_left
                            (fun d m => dict_set d (fst m) (snd m)) ms acc))).
  { induction H as [|m ms Hm _ IH]; intros acc Hn Hf; simpl.
    - constructor; assumption.
    - apply IH; [apply dict_set_nodup; exact Hn | apply dict_set_forall; assumption]. }
  apply G; constructor.
Qed.

Lemma scan_atom_wf (s : text) (v : value) (r : text) :
  scan_atom s = Ok (v, r) -> well_formed v.
Proof.
  unfold scan_atom, scan_number.
  repeat (destruct (strip_prefix _ s); [intros H; injection H as <- _; constructor|]).
  destruct (match_number s) as [[[l [|]] rest]|]; intros H; try discriminate;
    injection H as <- _; constructor.
Qed.

Lemma scan_once_S (fuel : nat) (c : char) (r : text) :
  scan_once (S fuel) (c :: r)
  = if c =? quote then rbind (scanstring r) (fun '(k, rest) => Ok (VStr k, rest))
    else if c =? 123 then
      match skip_ws r with
      | c' :: r' =>
          if c' =? 125 then Ok (VDict [], r')
          else rbind (parse_members fuel (c' :: r'))
                 (fun '(ms, rest) => Ok (VDict (dict_of_pairs ms), rest))
      | [] => expecting_name
      end
    else if c =? 91 then
      match skip_ws r with
      | c' :: r' =>
          if c' =? 93 then Ok (VList [], r')
          else rbind (parse_items fuel (c' :: r')) (fun '(vs, rest) => Ok (VList vs, rest))
      | [] => expecting_value
      end
    else scan_atom (c :: r).
Proof. reflexivity. Qed.

Lemma parse_members_other (fuel : nat) (c : char) (r : text) :
  (c =? quote) = false -> parse_members (S fuel) (c :: r) = expecting_name.
Proof. intros H. cbn -[N.eqb]. rewrite H. reflexivity. Qed.

Lemma scan_wf (fuel : nat) :
  (forall s v r, scan_once fuel s = Ok (v, r) -> well_formed v)
  /\ (forall s ms r, parse_members fuel s = Ok (ms, r) ->
                     Forall (fun m => well_formed (snd m)) ms)
  /\ (forall s vs r, parse_items fuel s = Ok (vs, r) -> Forall well_formed vs).
Proof.
  induction fuel as [|fuel (IH1 & IH2 & IH3)]; [repeat split; discriminate|].
  split; [|split].
  - intros [|c t] v r; [discriminate|]. rewrite scan_once_S.
    destruct (c =? quote).
    { destruct (scanstring t) as [[k rest]|]; cbn [rbind]; intros H; [|discriminate].
      injection H as <- _. constructor. }
    destruct (c =? 123).
    { destruct (skip_ws t) as [|c' r']; [discriminate|].
      destruct (c' =? 125).
      { intros H. injection H as <- _. constructor; constructor. }
      destruct (parse_members fuel (c' :: r')) as [[ms rest]|] eqn:E; cbn [rbind];
        intros H; [|discriminate].
      injection H as <- _. apply dict_of_pairs_wf. exact (IH2 _ _ _ E). }
    destruct (c =? 91).
    { destruct (skip_ws t) as [|c' r']; [discriminate|].
      destruct (c' =? 93).
      { intros H. injection H as <- _. constructor. constructor. }
      destruct (parse_items fuel (c' :: r')) as [[vs rest]|] eqn:E; cbn [rbind];
        intros H; [|discriminate].
      injection H as <- _. constructor. exact (IH3 _ _ _ E). }
    apply scan_atom_wf.
  - intros [|c t] ms r; [discriminate|].
    destruct (N.eqb_spec c quote) as [->|Hq];
      [|rewrite parse_members_other by (apply N.eqb_neq; exact Hq); discriminate].
    rewrite parse_members_S.
    destruct (scanstring t) as [[k rest]|]; cbn [rbind]; [|discriminate].
    destruct (skip_ws rest) as [|c1 r1]; [discriminate|].
    destruct (c1 =? 58); [|discriminate].
    destruct (scan_once fuel (skip_ws r1)) as [[v rest2]|] eqn:E1; cbn [rbind];
      [|discriminate].
    destruct (skip_ws rest2) as [|c2 r2]; [discriminate|].
    destruct (c2 =? 125).
    { intros H. injection H as <- _. constructor; [exact (IH1 _ _ _ E1) | constructor]. }
    destruct (c2 =? 44); [|discriminate].
    destruct (parse_members fuel (skip_ws r2)) as [[ms' rest3]|] eqn:E2; cbn [rbind];
      intros H; [|discriminate].
    injection H as <- _. constructor; [exact (IH1 _ _ _ E1) | exact (IH2 _ _ _ E2)].
  - intros s vs r. rewrite parse_items_S.
    destruct (scan_once fuel s) as [[v rest]|] eqn:E1; cbn [rbind]; [|discriminate].
    destruct (skip_ws rest) as [|c r']; [discriminate|].
    destruct (c =? 93).
    { intros H. injection H as <- _. constructor; [exact (IH1 _ _ _ E1) | constructor]. }
    destruct (c =? 44); [|discriminate].
    destruct (parse_items fuel (skip_ws r')) as [[vs' rest2]|] eqn:E2; cbn [rbind];
      intros H; [|discriminate].
    injection H as <- _. constructor; [exact (IH1 _ _ _ E1) | exact (IH3 _ _ _ E2)].
Qed.

(** The keys of every dict that [json.loads] returns are distinct. *)
Theorem json_loads_wf (s : text) (v : value) : json_loads s = Ok v -> well_formed v.
Proof.
  unfold json_loads. destruct (starts_with_bom s); [discriminate|].
  destruct (scan_once _ (skip_ws s)) as [[v' rest]|] eqn:E; cbn [rbind]; [|discriminate].
  destruct (skip_ws rest); [|discriminate].
  intros H. injection H as <-. exact (proj1 (scan_wf _) _ _ _ E).
Qed.

(** ** No carriage return in what [json.dumps] writes *)

Lemma escape_char_no_cr (c : char) : ~ In 13 (escape_char c).
Proof.
  unfold escape_char, hex_digit.
  destruct (c =? quote); [simpl; intuition discriminate|].
  destruct (c =? backslash); [simpl; intuition discriminate|].
  destruct (c =? 10); [simpl; intuition discriminate|].
  destruct (N.eqb_spec c 13) as [|Hc]; [simpl; intuition discriminate|].
  destruct (c =? 9); [simpl; intuition discriminate|].
  destruct (c =? 12); [simpl; intuition discriminate|].
  destruct (c =? 8); [simpl; intuition discriminate|].
  destruct (c <? 32).
  - destruct (c / 16 <? 10), (c mod 16 <? 10); intros H; cbn [In] in H;
      unfold backslash in H; repeat (destruct H as [H|H]; [dlia|]); exact H.
  - simpl. intros [H|[]]. congruence.
Qed.

Lemma encode_basestring_no_cr (s : text) : ~ In 13 (encode_basestring s).
Proof.
  unfold encode_basestring. intros [H|H]; [discriminate|].
  apply in_app_or in H. destruct H as [H|[H|[]]]; [|discriminate].
  apply in_flat_map in H. destruct H as (c & _ & H). exact (escape_char_no_cr c H).
Qed.

Lemma newline_indent_no_cr (level : nat) : ~ In 13 (newline_indent level).
Proof.
  unfold newline_indent. intros [H|H]; [discriminate|].
  apply repeat_spec in H. discriminate.
Qed.

Lemma int_text_no_cr (z : Z) : ~ In 13 (int_text z).
Proof.
  assert (G : forall d, ~ In 13 (uint_text d)).
  { intros d H. pose proof (uint_text_digits d) as Hd.
    rewrite forallb_forall in Hd. apply Hd in H. discriminate. }
  unfold int_text. destruct (Z.to_int z) as [d|d].
  - apply G.
  - intros [H|H]; [discriminate | exact (G d H)].
Qed.

Lemma iterencode_no_cr (v : value) : forall level, ~ In 13 (iterencode level v).
Proof.
  induction v as [|b|z|f|s|l IH|d IH] using value_ind'; intros level.
  - simpl. intuition discriminate.
  - destruct b; simpl; intuition discriminate.
  - apply int_text_no_cr.
  - apply float_str_no_cr.
  - apply encode_basestring_no_cr.
  - destruct l as [|x xs]; [simpl; intuition discriminate|].
    inversion IH as [|? ? Hx Hxs]; subst. cbn [iterencode]. intros H.
    repeat (apply in_app_or in H; destruct H as [H|H]).
    + simpl in H. intuition discriminate.
    + exact (newline_indent_no_cr _ H).
    + exact (Hx _ H).
    + apply in_flat_map in H. destruct H as (y & Hy & H).
      rewrite Forall_forall in Hxs.
      repeat (apply in_app_or in H; destruct H as [H|H]).
      * simpl in H. intuition discriminate.
      * exact (newline_indent_no_cr _ H).
      * exact (Hxs y Hy _ H).
    + exact (newline_indent_no_cr _ H).
    + simpl in H. intuition discriminate.
  - destruct d as [|m ms]; [simpl; intuition discriminate|].
    inversion IH as [|? ? Hx Hxs]; subst. cbn [iterencode]. intros H.
    repeat (apply in_app_or in H; destruct H as [H|H]).
    + simpl in H. intuition discriminate.
    + exact (newline_indent_no_cr _ H).
    + exact (encode_basestring_no_cr _ H).
    + simpl in H. intuition discriminate.
    + exact (Hx _ H).
    + apply in_flat_map in H. destruct H as (y & Hy & H).
      rewrite Forall_forall in Hxs.
      repeat (apply in_app_or in H; destruct H as [H|H]).
      * simpl in H. intuition discriminate.
      * exact (newline_indent_no_cr _ H).
      * exact (encode_basestring_no_cr _ H).
      * simpl in H. intuition discriminate.
      * exact (Hxs y Hy _ H).
    + exact (newline_indent_no_cr _ H).
    + simpl in H. intuition discriminate.
Qed.

(** ** Patching what has been patched *)

Lemma replace_worker_part_again (u sol : text) :
  ~ In dot sol -> In dot u ->
  exists t, replace_worker_part (VStr u) sol = VStr t
            /\ contains dot t = true
            /\ replace_worker_part (VStr t) sol = VStr t.
Proof.
  intros Hs Hu.
  destruct (replace_worker_part_last_dot u sol Hu) as (p & q & -> & Hq & E).
  exists (p ++ [dot] ++ sol). split; [exact E|]. split.
  - apply contains_In, in_or_app. right. left. reflexivity.
  - apply replace_worker_part_split. exact Hs.
Qed.

(** A pool that the loop has seen is left alone by a second turn, when
    the replacement has no separator. *)
Lemma patch_pool_fixed (sol : text) (i : nat) (pool : value) (c : nat) (l : list text) :
  ~ In dot sol ->
  forall i' c' l',
    patch_pool sol i' (fst (fst (patch_pool sol i pool c l))) c' l'
    = (fst (fst (patch_pool sol i pool c l)), c', l').
Proof.
  intros Hs i' c' l'.
  destruct (patch_pool_cases sol i pool c l)
    as [(d & u & t & -> & Hg & Hc & Hr & Hn & Hp & _)|(Hp & _ & Hfix)];
    rewrite Hp; cbn [fst].
  - destruct (replace_worker_part_again u sol Hs (proj1 (contains_In _ _) Hc))
      as (t' & Ht' & Hct & Hrt).
    rewrite Hr in Ht'. injection Ht' as <-.
    unfold patch_pool. rewrite dict_get_set, Hct, Hrt, text_eqb_refl. reflexivity.
  - destruct (patch_pool_cases sol i' pool c' l')
      as [(d & u & t & -> & Hg & Hc & Hr & Hn & _)|(Hp' & _)]; [|exact Hp'].
    rewrite (Hfix d u eq_refl Hg Hc) in Hr. injection Hr as <-. contradiction.
Qed.

Lemma patch_pools_fixed (sol : text) (pools : list value) :
  ~ In dot sol ->
  forall i c l i' c' l',
    patch_pools sol i' (fst (fst (patch_pools sol i pools c l))) c' l'
    = (fst (fst (patch_pools sol i pools c l)), c', l').
Proof.
  intros Hs. induction pools as [|pool pools IH]; intros i c l i' c' l'; [reflexivity|].
  simpl. pose proof (patch_pool_fixed sol i pool c l Hs) as Hp.
  destruct (patch_pool sol i pool c l) as [[p1 c1] l1]. cbn [fst] in Hp.
  pose proof (IH (S i) c1 l1) as Hr.
  destruct (patch_pools sol (S i) pools c1 l1) as [[r c2] l2]. cbn [fst] in *.
  simpl. rewrite Hp, Hr. reflexivity.
Qed.

Lemma patch_pool_wf (sol : text) (i : nat) (pool : value) (c : nat) (l : list text) :
  well_formed pool -> well_formed (fst (fst (patch_pool sol i pool c l))).
Proof.
  intros Hw.
  destruct (patch_pool_cases sol i pool c l)
    as [(d & u & t & -> & _ & _ & _ & _ & Hp & _)|(Hp & _)]; rewrite Hp; [|exact Hw].
  cbn [fst]. inversion Hw as [| | | | | |? Hn Hd]; subst.
  constructor; [apply dict_set_nodup; exact Hn|].
  apply dict_set_forall; [exact Hd | constructor].
Qed.

Lemma patch_pools_wf (sol : text) (pools : list value) :
  forall i c l,
    Forall well_formed pools ->
    Forall well_formed (fst (fst (patch_pools sol i pools c l))).
Proof.
  induction pools as [|pool pools IH]; intros i c l Hw; [constructor|].
  inversion Hw as [|? ? H1 H2]; subst. simpl.
  pose proof (patch_pool_wf sol i pool c l H1) as Hp.
  destruct (patch_pool sol i pool c l) as [[p1 c1] l1].
  pose proof (IH (S i) c1 l1 H2) as Hr.
  destruct (patch_pools sol (S i) pools c1 l1) as [[r c2] l2].
  constructor; assumption.
Qed.

(** The text of a file that was just written in text mode. *)
Lemma file_text_store (p : Path) (t : text) (b : bytes) (w : world) :
  text_bytes t = Some b -> ~ In 13 t -> file_text (store p b w) p = Some t.
Proof.
  intros Hb Hn. unfold file_text. rewrite files_store_same.
  unfold text_bytes in Hb. rewrite (Utf8_encode_decode _ _ Hb). simpl.
  rewrite (universal_translate _ Hn). reflexivity.
Qed.

(** C4, amended.  With a replacement that holds no separator, when the
    patcher has returned, a second run on the files it left returns too,
    counts no change, shows no line, and writes to the primary path the
    bytes the first run wrote: the saved document is the same. *)
Theorem patch_twice (in_path : Path) (sol : text) (w w1 : world)
    (changed : nat) (out bak : Path) (preview : list text) :
  ~ In dot sol ->
  patch_xmrig_config_inplace in_path sol w = (Ok (changed, out, bak, preview), w1) ->
  exists w2,
    patch_xmrig_config_inplace in_path sol w1 = (Ok (0%nat, in_path, bak, []), w2)
    /\ files w2 in_path = files w1 in_path
    /\ rbind (match file_text w2 in_path with
              | Some t => Ok t
              | None => Raise UnicodeDecodeError
              end) json_loads
       = rbind (match file_text w1 in_path with
                | Some t => Ok t
                | None => Raise UnicodeDecodeError
                end) json_loads.
Proof.
  intros Hs H.
  destruct (patch_ok_inv _ _ _ _ _ _ _ _ H)
    as (content & d & pools & pools' & b1 & b2
        & Hc & Hl & Hg & Hne & Hp & _ & Hsuf & H1 & H2 & ->).
  assert (Hwd : NoDup (map fst d) /\ Forall (fun m => well_formed (snd m)) d).
  { pose proof (json_loads_wf _ _ Hl) as Hwd. inversion Hwd; subst. split; assumption. }
  destruct Hwd as [Hnd Hfd].
  assert (Hwp : Forall well_formed pools).
  { pose proof (dict_get_forall _ _ _ _ Hfd Hg) as Hwl.
    inversion Hwl; subst; assumption. }
  set (d1 := dict_set d pools_key (VList pools')) in *.
  assert (Hpools : pools' = fst (fst (patch_pools sol 0 pools 0 []))).
  { rewrite Hp. reflexivity. }
  assert (Hw1 : well_formed (VDict d1)).
  { constructor; [apply dict_set_nodup; exact Hnd|].
    apply dict_set_forall; [exact Hfd|]. constructor.
    rewrite Hpools. apply patch_pools_wf. exact Hwp. }
  assert (Hc1 : file_text (store in_path b2 (store bak b1 w)) in_path
                = Some (json_dumps (VDict d1))).
  { apply file_text_store; [exact H2 | apply iterencode_no_cr]. }
  assert (Hne' : pools' <> []).
  { pose proof (patch_pools_frame sol pools 0 0 []) as Hf. rewrite <- Hpools in Hf.
    intros ->. inversion Hf; subst. congruence. }
  rewrite (patch_run _ _ _ _ _ _ _ Hc1 (json_loads_dumps _ Hw1)
             (dict_get_set d pools_key (VList pools')) Hne' Hsuf).
  assert (Hfix : patch_pools sol 0 pools' 0 [] = (pools', 0%nat, [])).
  { rewrite Hpools. apply patch_pools_fixed. exact Hs. }
  rewrite Hfix. rewrite H2. fold d1.
  rewrite (dict_set_same d1 pools_key (VList pools') (dict_get_set d pools_key _)).
  rewrite H2. eexists. split; [reflexivity|]. split.
  - rewrite !files_store_same. reflexivity.
  - rewrite Hc1. rewrite (file_text_store _ _ _ _ H2 (iterencode_no_cr _ _)).
    reflexivity.
Qed.

End ReadBack.

(* ================================================================= *)
(** * The fuel of the scanner *)

Section Fuel.

Context {F : PyFloat}.

Lemma skip_ws_length (s : text) : (length (skip_ws s) <= length s)%nat.
Proof.
  induction s as [|c s IH]; simpl; [lia|]. destruct (is_json_ws c); simpl; lia.
Qed.

Lemma rcons_inv {A} (c : char) (r : result (text * A)) (k : text) (a : A) :
  rcons c r = Ok (k, a) -> exists k', r = Ok (k', a).
Proof.
  destruct r as [[k' a']|e]; simpl; [|discriminate].
  intros H. injection H as _ <-. eauto.
Qed.

Lemma rcons_raise {A} (c : char) (r : result (text * A)) (e : exn) :
  rcons c r = Raise e -> r = Raise e.
Proof. destruct r as [[k' a']|e']; simpl; congruence. Qed.

(** [scanstring] takes at least the closing quote, and raises nothing
    but a decoding error. *)
Lemma scanstring_spec (n : nat) :
  forall s, (length s <= n)%nat ->
    (forall k r, scanstring s = Ok (k, r) -> (length r < length s)%nat)
    /\ (forall e, scanstring s = Raise e -> exists m, e = JSONDecodeError m).
Proof.
  induction n as [|n IH]; intros [|c s] Hn; simpl in Hn; try lia.
  - split; [discriminate|]. intros e H. injection H as <-. eauto.
  - split; [discriminate|]. intros e H. injection H as <-. eauto.
  - assert (Hsub : forall t, (length t <= length s)%nat ->
              (forall c' k r, rcons c' (scanstring t) = Ok (k, r) ->
                              (length r < S (length s))%nat)
              /\ (forall c' e, rcons c' (scanstring t) = Raise e ->
                               exists m, e = JSONDecodeError m)).
    { intros t Ht. destruct (IH t ltac:(lia)) as [H1 H2]. split.
      - intros c' k r H. apply rcons_inv in H. destruct H as [k' H].
        apply H1 in H. lia.
      - intros c' e H. apply rcons_raise in H. exact (H2 e H). }
    cbn -[N.eqb N.ltb hex4 unescape is_high_surrogate is_low_surrogate join_surrogates].
    unfold bad_escape.
    repeat match goal with
           | |- context [if ?b then _ else _] => destruct b
           | |- context [match ?x with _ => _ end] =>
               match x with
               | hex4 _ _ _ _ => destruct x
               | unescape _ => destruct x
               | _ => is_var x; destruct x
               end
           end;
      try (split; [discriminate | intros e H; injection H as <-; eauto]);
      try (split; [intros k r H; injection H as _ <-; simpl; lia | discriminate]);
      try match goal with
          | |- context [rcons ?c' (scanstring ?t)] =>
              let G1 := fresh "G" in
              let G2 := fresh "G" in
              destruct (Hsub t ltac:(simpl; lia)) as [G1 G2];
              split; [exact (G1 c') | exact (G2 c')]
          end.

Qed.

Lemma scanstring_length (s k r : text) :
  scanstring s = Ok (k, r) -> (length r < length s)%nat.
Proof. apply (proj1 (scanstring_spec (length s) s (le_n _))). Qed.

Lemma scanstring_raise (s : text) (e : exn) :
  scanstring s = Raise e -> exists m, e = JSONDecodeError m.
Proof. apply (proj2 (scanstring_spec (length s) s (le_n _))). Qed.

Lemma span_digits_length (s : text) :
  (length (snd (span_digits s)) <= length s)%nat.
Proof.
  induction s as [|c s IH]; simpl; [lia|].
  destruct (is_digit c); [|simpl; lia].
  destruct (span_digits s) as [d r]. simpl in *. lia.
Qed.

Lemma match_number_length (s l r : text) (b : bool) :
  match_number s = Some (l, b, r) -> (length r < length s)%nat.
Proof.
  unfold match_number.
  assert (Hs : (length (snd (match_sign s)) <= length s)%nat).
  { unfold match_sign. destruct s as [|c t]; cbn [snd length]; [lia|].
    destruct (c =? 45); cbn [snd length]; lia. }
  destruct (match_sign s) as [sg s1]. simpl in Hs.
  assert (Hi : forall ip s2, match_int s1 = Some (ip, s2) -> (length s2 < length s1)%nat).
  { unfold match_int. destruct s1 as [|c t]; [discriminate|]. intros ip s2.
    pose proof (span_digits_length t) as Hd.
    destruct ((49 <=? c) && (c <=? 57)).
    - destruct (span_digits t) as [d r']. intros H. injection H as _ <-.
      cbn [snd length] in *. lia.
    - destruct (c =? 48); [|discriminate]. intros H. injection H as _ <-.
      cbn [snd length]. lia. }
  destruct (match_int s1) as [[ip s2]|]; [|discriminate].
  specialize (Hi ip s2 eq_refl).
  assert (Hf : (length (snd (match_frac s2)) <= length s2)%nat).
  { unfold match_frac. destruct s2 as [|p [|d t]]; cbn [snd length]; try lia.
    destruct ((p =? 46) && is_digit d); [|cbn [snd length]; lia].
    pose proof (span_digits_length (d :: t)) as Hd.
    destruct (span_digits (d :: t)) as [ds r']. cbn [snd length] in *. lia. }
  destruct (match_frac s2) as [fr s3]. simpl in Hf.
  assert (He : (length (snd (match_exp s3)) <= length s3)%nat).
  { unfold match_exp. destruct s3 as [|e t]; cbn [snd length]; [lia|].
    destruct ((e =? 101) || (e =? 69)); [|cbn [snd length]; lia].
    destruct t as [|g r1]; [cbn; lia|].
    destruct ((g =? 43) || (g =? 45)).
    - pose proof (span_digits_length r1) as Hd.
      destruct (span_digits r1) as [ds r2]. destruct ds; cbn [snd length] in *; lia.
    - pose proof (span_digits_length (g :: r1)) as Hd.
      destruct (span_digits (g :: r1)) as [ds r2].
      destruct ds; cbn [snd length] in *; lia. }
  destruct (match_exp s3) as [ex s4]. simpl in He.
  intros H. injection H as _ _ <-. lia.
Qed.

Lemma strip_prefix_length (p s r : text) :
  strip_prefix p s = Some r -> (length r + length p = length s)%nat.
Proof.
  revert s; induction p as [|a p IH]; intros [|b s]; simpl; try discriminate.
  - intros H. injection H as <-. reflexivity.
  - intros H. injection H as <-. simpl. lia.
  - destruct (char_eqb a b); [|discriminate]. intros H. apply IH in H. lia.
Qed.

Lemma scan_atom_scans (s : text) : scans (scan_atom s) s.
Proof.
  unfold scan_atom, scans.
  repeat match goal with
         | |- context [strip_prefix ?p s] =>
             let E := fresh "E" in
             destruct (strip_prefix p s) eqn:E;
             [apply strip_prefix_length in E; simpl in E;
              split; [intros a r H; injection H as _ <-; lia | discriminate]|]
         end.
  unfold scan_number. destruct (match_number s) as [[[l b] rest]|] eqn:En.
  - apply match_number_length in En.
    destruct b; (split; [intros a r H; injection H as _ <-; lia | discriminate]).
  - split; [discriminate|]. intros e H. injection H as <-. eauto.
Qed.

Lemma scans_raise {A} (m : string) (s : text) :
  @scans A (Raise (JSONDecodeError m)) s.
Proof. split; [discriminate|]. intros e H. injection H as <-. eauto. Qed.

Lemma scans_ok {A} (a : A) (r s : text) :
  (length r < length s)%nat -> scans (Ok (a, r)) s.
Proof.
  intros H. split; [|discriminate]. intros a' r' E. injection E as _ <-. exact H.
Qed.

Lemma scans_bind {A B} (res : result (A * text)) (k : A * text -> result (B * text))
    (t s : text) :
  scans res t -> (length t <= length s)%nat ->
  (forall a r, (length r < length t)%nat -> scans (k (a, r)) s) ->
  scans (rbind res k) s.
Proof.
  intros [H1 H2] Ht Hk. destruct res as [[a r]|e]; simpl.
  - apply Hk. exact (H1 a r eq_refl).
  - split; [discriminate|]. intros e' H. injection H as <-. exact (H2 e eq_refl).
Qed.

Lemma scans_weaken {A} (res : result (A * text)) (t s : text) :
  scans res t -> (length t <= length s)%nat -> scans res s.
Proof. intros [H1 H2] Ht. split; [|exact H2]. intros a r H. apply H1 in H. lia. Qed.

Lemma scanstring_scans (s : text) : scans (scanstring s) s.
Proof.
  split; [intros k r; apply scanstring_length | apply scanstring_raise].
Qed.

Lemma skip_ws_cons (s : text) (c : char) (r : text) :
  skip_ws s = c :: r -> (length r < length s)%nat.
Proof. intros E. pose proof (skip_ws_length s) as H. rewrite E in H. simpl in H. lia. Qed.

Lemma good_scan_step (s : text) :
  (forall t, (length t < length s)%nat -> good_items t /\ good_members t) ->
  good_scan s.
Proof.
  intros IH fuel Hf. destruct fuel as [|fuel]; [lia|].
  destruct s as [|c r]; [apply scans_raise|]. rewrite scan_once_S. simpl in Hf.
  destruct (c =? quote).
  { apply (scans_bind _ _ r); [apply scanstring_scans | simpl; lia|].
    intros k rest Hl. apply scans_ok. simpl. lia. }
  destruct (c =? 123).
  { destruct (skip_ws r) as [|c' r'] eqn:E; [apply scans_raise|].
    pose proof (skip_ws_cons _ _ _ E) as Hl.
    destruct (c' =? 125); [apply scans_ok; simpl; lia|].
    apply (scans_bind _ _ (c' :: r')); [|simpl; lia|].
    - apply (proj2 (IH (c' :: r') ltac:(simpl; lia))). simpl. lia.
    - intros ms rest Hr. apply scans_ok. simpl in *. lia. }
  destruct (c =? 91).
  { destruct (skip_ws r) as [|c' r'] eqn:E; [apply scans_raise|].
    pose proof (skip_ws_cons _ _ _ E) as Hl.
    destruct (c' =? 93); [apply scans_ok; simpl; lia|].
    apply (scans_bind _ _ (c' :: r')); [|simpl; lia|].
    - apply (proj1 (IH (c' :: r') ltac:(simpl; lia))). simpl. lia.
    - intros vs rest Hr. apply scans_ok. simpl in *. lia. }
  apply scan_atom_scans.
Qed.

Lemma good_members_step (s : text) :
  (forall t, (length t < length s)%nat -> good_scan t /\ good_members t) ->
  good_members s.
Proof.
  intros IH fuel Hf. destruct fuel as [|fuel]; [lia|].
  destruct s as [|c r]; [apply scans_raise|]. simpl in Hf.
  destruct (N.eqb_spec c quote) as [->|Hq];
    [|rewrite parse_members_other by (apply N.eqb_neq; exact Hq); apply scans_raise].
  rewrite parse_members_S.
  apply (scans_bind _ _ r); [apply scanstring_scans | simpl; lia|].
  intros k rest Hl.
  destruct (skip_ws rest) as [|c1 r1] eqn:E1; [apply scans_raise|].
  pose proof (skip_ws_cons _ _ _ E1) as Hl1.
  destruct (c1 =? 58); [|apply scans_raise].
  pose proof (skip_ws_length r1) as Hl2.
  apply (scans_bind _ _ (skip_ws r1)); [|simpl; lia|].
  - apply (proj1 (IH (skip_ws r1) ltac:(simpl; lia))). lia.
  - intros v rest2 Hl3.
    destruct (skip_ws rest2) as [|c2 r2] eqn:E2; [apply scans_raise|].
    pose proof (skip_ws_cons _ _ _ E2) as Hl4.
    destruct (c2 =? 125); [apply scans_ok; simpl; lia|].
    destruct (c2 =? 44); [|apply scans_raise].
    pose proof (skip_ws_length r2) as Hl5.
    apply (scans_bind _ _ (skip_ws r2)); [|simpl; lia|].
    + apply (proj2 (IH (skip_ws r2) ltac:(simpl; lia))). lia.
    + intros ms rest3 Hl6. apply scans_ok. simpl. lia.
Qed.

Lemma good_items_step (s : text) :
  good_scan s ->
  (forall t, (length t < length s)%nat -> good_items t) ->
  good_items s.
Proof.
  intros Hs IH fuel Hf. destruct fuel as [|fuel]; [lia|]. rewrite parse_items_S.
  apply (scans_bind _ _ s); [apply Hs; lia | lia|].
  intros v rest Hl.
  destruct (skip_ws rest) as [|c r] eqn:E; [apply scans_raise|].
  pose proof (skip_ws_cons _ _ _ E) as Hl1.
  destruct (c =? 93); [apply scans_ok; lia|].
  destruct (c =? 44); [|apply scans_raise].
  pose proof (skip_ws_length r) as Hl2.
  apply (scans_bind _ _ (skip_ws r)); [|lia|].
  - apply (IH (skip_ws r) ltac:(lia)). lia.
  - intros vs rest2 Hl3. apply scans_ok. lia.
Qed.

Lemma good_all (n : nat) :
  forall s, (length s < n)%nat -> good_scan s /\ good_members s /\ good_items s.
Proof.
  induction n as [|n IH]; intros s Hn; [lia|].
  assert (Hsmall : forall t, (length t < length s)%nat ->
                             good_scan t /\ good_members t /\ good_items t).
  { intros t Ht. apply IH. lia. }
  assert (Hs : good_scan s).
  { apply good_scan_step. intros t Ht. destruct (Hsmall t Ht) as (_ & H2 & H3). auto. }
  split; [exact Hs|]. split.
  - apply good_members_step. intros t Ht. destruct (Hsmall t Ht) as (H1 & H2 & _). auto.
  - apply good_items_step; [exact Hs|]. intros t Ht. apply (Hsmall t Ht).
Qed.

(** The fuel [json_loads] supplies is never used up: its only errors
    are decoding errors. *)
Theorem json_loads_raises (s : text) (e : exn) :
  json_loads s = Raise e -> exists m, e = JSONDecodeError m.
Proof.
  unfold json_loads. destruct (starts_with_bom s).
  { intros H. injection H as <-. eauto. }
  pose proof (skip_ws_length s) as Hl.
  destruct (proj1 (good_all (S (length (skip_ws s))) (skip_ws s) (le_n _))
              (2 * length s + 2)%nat ltac:(lia)) as [_ Hr].
  destruct (scan_once _ (skip_ws s)) as [[v rest]|e'] eqn:E; cbn [rbind].
  - destruct (skip_ws rest); [discriminate|]. intros H. injection H as <-. eauto.
  - intros H. injection H as <-. exact (Hr e' eq_refl).
Qed.

End Fuel.

(* ================================================================= *)
(** * The decimal floats satisfy what is assumed of floats *)

Lemma int_text_shape (z : Z) :
  exists sg d, int_text z = sg ++ uint_text d /\ (sg = [] \/ sg = [45]) /\ canonical d.
Proof.
  unfold int_text. destruct (to_int_shape z) as [(d & -> & Hd)|(d & -> & Hd)].
  - exists [], d. auto.
  - exists [45], d. split; [reflexivity|]. split; [auto | right; exact Hd].
Qed.

Lemma canonical_head (d : Decimal.uint) :
  canonical d -> exists c t, uint_text d = c :: t /\ is_digit c = true.
Proof.
  intros [->|H]; [eexists _, _; split; reflexivity|].
  destruct d; try contradiction; eexists _, _; split; reflexivity.
Qed.

Lemma match_exp_int_text (z : Z) (rest : text) :
  delimited rest -> match_exp (101 :: int_text z ++ rest) = (101 :: int_text z, rest).
Proof.
  intros Hr. destruct (int_text_shape z) as (sg & d & -> & Hsg & Hd).
  destruct (canonical_head d Hd) as (c & t & E & Hc).
  pose proof (span_digits_app _ rest (uint_text_digits d) (delimited_digit _ Hr)) as Hsp.
  rewrite E in *. cbn [app] in Hsp.
  assert (Hg : (c =? 43) || (c =? 45) = false).
  { unfold is_digit in Hc. apply andb_true_iff in Hc. rewrite !N.leb_le in Hc.
    apply orb_false_iff. split; apply N.eqb_neq; lia. }
  unfold match_exp. change ((101 =? 101) || (101 =? 69)) with true. cbv iota.
  destruct Hsg as [-> | ->]; cbn [app].
  - rewrite Hg, Hsp. reflexivity.
  - change ((45 =? 43) || (45 =? 45)) with true. cbv iota. rewrite Hsp. reflexivity.
Qed.

Lemma match_number_exponent_form (m e : Z) (rest : text) :
  delimited rest ->
  match_number ((int_text m ++ 101 :: int_text e) ++ rest)
  = Some (int_text m ++ 101 :: int_text e, true, rest).
Proof.
  intros Hr. rewrite <- app_assoc. cbn [app]. unfold match_number.
  destruct (int_text_shape m) as (sg & d & -> & Hsg & Hd).
  destruct (canonical_head d Hd) as (c & t & E & Hc).
  assert (Hs : match_sign ((sg ++ uint_text d) ++ 101 :: int_text e ++ rest)
               = (sg, uint_text d ++ 101 :: int_text e ++ rest)).
  { destruct Hsg as [-> | ->]; [|reflexivity]. cbn [app]. rewrite E. cbn [app].
    unfold match_sign. unfold is_digit in Hc. apply andb_true_iff in Hc.
    rewrite !N.leb_le in Hc. destruct (N.eqb_spec c 45); [lia | reflexivity]. }
  rewrite Hs. cbv beta iota.
  rewrite (match_int_canonical d (101 :: int_text e ++ rest) Hd eq_refl).
  assert (Hf : match_frac (101 :: int_text e ++ rest) = ([], 101 :: int_text e ++ rest)).
  { destruct (int_text e ++ rest); reflexivity. }
  rewrite Hf. cbv beta iota. rewrite (match_exp_int_text e rest Hr).
  cbn [app negb]. rewrite <- app_assoc. reflexivity.
Qed.

Lemma span_mantissa_app (ds rest : text) :
  forallb is_mantissa_char ds = true ->
  match rest with [] => True | c :: _ => is_mantissa_char c = false end ->
  span_mantissa (ds ++ rest) = (ds, rest).
Proof.
  intros Hd Hr. induction ds as [|c ds IH]; simpl in *.
  - destruct rest as [|c r]; [reflexivity|]. simpl. rewrite Hr. reflexivity.
  - apply andb_true_iff in Hd. destruct Hd as [Hc Hd]. rewrite Hc, (IH Hd). reflexivity.
Qed.

Lemma int_text_mantissa (z : Z) : forallb is_mantissa_char (int_text z) = true.
Proof.
  destruct (int_text_shape z) as (sg & d & -> & Hsg & _). rewrite forallb_app.
  apply andb_true_iff. split.
  - destruct Hsg as [-> | ->]; reflexivity.
  - pose proof (uint_text_digits d) as H. rewrite forallb_forall in *.
    intros x Hx. unfold is_mantissa_char. rewrite (H x Hx). reflexivity.
Qed.

Lemma dfloat_of_exponent_form (m e : Z) :
  dfloat_of_literal (int_text m ++ 101 :: int_text e) = DFin m e.
Proof.
  unfold dfloat_of_literal.
  rewrite (span_mantissa_app _ _ (int_text_mantissa m)) by reflexivity.
  change (101 =? 46) with false. cbv iota.
  destruct (int_text_shape e) as (sg & d & E & Hsg & Hd).
  destruct (canonical_head d Hd) as (c & t & Ed & Hc).
  assert (Hex : match 101 :: int_text e with
                | _ :: g :: r => if g =? 43 then int_of_literal r else int_of_literal (g :: r)
                | _ => 0%Z
                end = e).
  { rewrite <- (int_of_literal_int_text e) at 2. rewrite E.
    destruct Hsg as [-> | ->]; cbn [app]; [|reflexivity].
    rewrite Ed. unfold is_digit in Hc. apply andb_true_iff in Hc.
    rewrite !N.leb_le in Hc. destruct (N.eqb_spec c 43); [lia | reflexivity]. }
  rewrite Hex, List.app_nil_r, int_of_literal_int_text. simpl length.
  rewrite Z.sub_0_r. reflexivity.
Qed.

Lemma ExactDecimal_laws : PyFloatLaws ExactDecimal.
Proof.
  split.
  - intros [| | |m e] rest Hr; try reflexivity.
    change (@float_str ExactDecimal (DFin m e)) with (int_text m ++ 101 :: int_text e).
    rewrite (@scan_atom_number ExactDecimal _ rest true).
    + change (@float_of_literal ExactDecimal) with dfloat_of_literal.
      rewrite dfloat_of_exponent_form. reflexivity.
    + destruct (int_text_head m) as (c & t & E & Hc & Hm). rewrite E.
      exists c, (t ++ 101 :: int_text e). split; [reflexivity|]. split; [exact Hc|].
      intros Hs. destruct (Hm Hs) as (c' & t' & -> & Hd). eexists _, _.
      split; [reflexivity | exact Hd].
    + apply match_number_exponent_form. exact Hr.
  - intros [| | |m e]; try (simpl; intuition discriminate).
    change (@float_str ExactDecimal (DFin m e)) with (int_text m ++ 101 :: int_text e).
    intros H. apply in_app_or in H. destruct H as [H|[H|H]].
    + exact (int_text_no_cr m H).
    + discriminate.
    + exact (int_text_no_cr e H).
Qed.

(* ================================================================= *)
(** * Runs on concrete files *)

(** C6. In the end-to-end scenario, on either platform, the patcher
    returns the count 2 with the two preview lines, the backup holds the
    original document byte for byte, and the saved file loads as the
    document whose first two pools have the user [WALLET123.NEWWORKER]
    and whose third pool is as it was. *)
Theorem end_to_end_scenario (F : PyFloat) (P : Platform) :
  let w := one_file config_json scenario_document in
  let line (i : nat) :=
    preview_line i (lit "WALLET123.oldworker") (lit "WALLET123.NEWWORKER") in
  exists w',
    patch_xmrig_config_inplace config_json (lit "NEWWORKER") w
    = (Ok (2%nat, config_json, bak_path config_json, [line 0%nat; line 1%nat]), w')
    /\ writes w' = [(bak_path config_json, scenario_document);
                    (config_json,
                     match files w' config_json with Some b => b | None => [] end)]
    /\ files w' (bak_path config_json) = Some scenario_document
    /\ rbind (match file_text w' config_json with
              | Some t => Ok t
              | None => Raise UnicodeDecodeError
              end) json_loads
       = Ok (VDict [(lit "pools",
                     VList [VDict [(lit "user", VStr (lit "WALLET123.NEWWORKER"))];
                            VDict [(lit "user", VStr (lit "WALLET123.NEWWORKER"))];
                            VDict [(lit "user", VStr (lit "NOFIELD"))]])]).
Proof.
  destruct P; eexists; (split; [vm_compute; reflexivity|]);
    vm_compute; repeat split.
Qed.

(** C2, at a file the code does not copy byte for byte.  On Posix a
    document with CR LF line ends is backed up with LF line ends, and on
    Windows a document with LF line ends is backed up with CR LF line
    ends: [read_text] and [write_text] work in text mode.  The patcher
    returns normally in both runs, and the backup is its first write. *)
Theorem backup_changes_line_ends (F : PyFloat) :
  let sol := lit "NEW" in
  let line := preview_line 0 (lit "wallet.rig") (lit "wallet.NEW") in
  (exists w',
      @patch_xmrig_config_inplace F Posix config_json sol
        (one_file config_json crlf_document)
      = (Ok (1%nat, config_json, bak_path config_json, [line]), w')
      /\ hd_error (writes w') = Some (bak_path config_json, lf_document)
      /\ files w' (bak_path config_json) = Some lf_document)
  /\ (exists w',
         @patch_xmrig_config_inplace F Windows config_json sol
           (one_file config_json lf_document)
         = (Ok (1%nat, config_json, bak_path config_json, [line]), w')
         /\ hd_error (writes w') = Some (bak_path config_json, crlf_document)
         /\ files w' (bak_path config_json) = Some crlf_document)
  /\ lf_document <> crlf_document.
Proof.
  split; [|split].
  - eexists. split; [vm_compute; reflexivity|]. vm_compute. split; reflexivity.
  - eexists. split; [vm_compute; reflexivity|]. vm_compute. split; reflexivity.
  - vm_compute. discriminate.
Qed.

(** C10. A patch that counts no change still writes the backup and then
    the primary file, which receives the serialisation of the loaded
    document.  On the one-line document whose only pool is the string
    [é], on either platform, the primary file ends up with other bytes
    than it had; on Posix they are the document indented by two spaces
    with the [é] kept as it is. *)
Theorem zero_change_still_rewrites :
  (forall (F : PyFloat) (P : Platform) (in_path : Path) (sol : text)
          (w w' : world) (out bak : Path) (preview : list text),
      patch_xmrig_config_inplace in_path sol w
      = (Ok (0%nat, out, bak, preview), w') ->
      exists content data original saved,
        file_text w in_path = Some content
        /\ json_loads content = Ok data
        /\ text_bytes (json_dumps data) = Some saved
        /\ files w' in_path = Some saved
        /\ writes w' = writes w ++ [(bak, original); (in_path, saved)]
        /\ preview = [])
  /\ (forall (F : PyFloat) (P : Platform),
        exists w' saved,
          patch_xmrig_config_inplace config_json (lit "NEW")
            (one_file config_json idle_document)
          = (Ok (0%nat, config_json, bak_path config_json, []), w')
          /\ files w' config_json = Some saved
          /\ saved <> idle_document
          /\ (P = Posix -> saved = idle_document_saved)).
Proof.
  split.
  - intros F P in_path sol w w' out bak preview H.
    exact (patch_zero_rewrites _ _ _ _ _ _ _ H).
  - intros F [|]; eexists _, _; (split; [vm_compute; reflexivity|]);
      (split; [vm_compute; reflexivity|]);
      (split; [vm_compute; discriminate|]); intros E;
      [vm_compute; reflexivity | discriminate E].
Qed.

(** The run of [zero_change_still_rewrites] on the idle document. *)
Lemma zero_change_still_rewrites_witness :
  exists content data original saved,
    file_text (one_file config_json idle_document) config_json = Some content
    /\ @json_loads ExactDecimal content = Ok data
    /\ @text_bytes Posix (json_dumps data) = Some saved
    /\ Some idle_document_saved = Some saved
    /\ [(bak_path config_json, idle_document); (config_json, idle_document_saved)]
       = [] ++ [(bak_path config_json, original); (config_json, saved)]
    /\ @nil text = [].
Proof.
  refine (proj1 zero_change_still_rewrites ExactDecimal Posix config_json (lit "NEW")
            (one_file config_json idle_document)
            {| files := fun q =>
                 if path_eqb q config_json then Some idle_document_saved
                 else if path_eqb q (bak_path config_json) then Some idle_document
                 else if path_eqb q config_json then Some idle_document else None;
               writes := [(bak_path config_json, idle_document);
                          (config_json, idle_document_saved)] |}
            config_json (bak_path config_json) [] _).
  vm_compute. reflexivity.
Defined.

(** The split of [wallet.abc.old] by [replace_worker_part_spec]. *)
Lemma replace_worker_part_spec_witness :
  @replace_worker_part ExactDecimal (VStr (lit "wallet.abc" ++ [dot] ++ lit "old"))
    (lit "NEW")
  = VStr (lit "wallet.abc" ++ [dot] ++ lit "NEW").
Proof.
  apply (proj1 (@replace_worker_part_spec ExactDecimal (lit "NEW"))
           (lit "wallet.abc") (lit "old")).
  vm_compute. intuition discriminate.
Defined.

(** The validator on 32 ones, by [looks_like_solana_address_spec]. *)
Lemma looks_like_solana_address_spec_witness :
  @looks_like_solana_address ExactDecimal (VStr thirty_two_ones) = Ok true.
Proof.
  apply (proj1 (proj2 (proj2 (proj2
           (@looks_like_solana_address_spec ExactDecimal thirty_two_ones))))).
  - left. vm_compute. reflexivity.
  - vm_compute. reflexivity.
Defined.

(** C3, as stated, fails on a document that is not a mapping.  The
    document [[]] loads, has no ["pools"] field, and the patcher raises
    an [AttributeError], not the [ValueError] that names the field. *)
Lemma array_document_raises_attribute_error :
  let w := one_file config_json array_document in
  let run := @patch_xmrig_config_inplace ExactDecimal Posix config_json (lit "NEW") w in
  rbind (match file_text w config_json with
         | Some t => Ok t
         | None => Raise UnicodeDecodeError
         end) (@json_loads ExactDecimal) = Ok (VList [])
  /\ @lacks_pools ExactDecimal (VList [])
  /\ fst run = Raise (AttributeError "object has no attribute 'get'")
  /\ fst run <> Raise (ValueError no_pools_message).
Proof.
  vm_compute. repeat split. discriminate.
Qed.

(** The run of [patch_without_pools] on a document with empty pools. *)
Lemma patch_without_pools_witness :
  @patch_xmrig_config_inplace ExactDecimal Posix config_json (lit "NEW")
    (one_file config_json no_pools_document)
  = (Raise (ValueError no_pools_message), one_file config_json no_pools_document).
Proof.
  refine (proj1 (@patch_without_pools ExactDecimal Posix config_json (lit "NEW")
                   (lit "{" ++ [quote] ++ lit "pools" ++ [quote] ++ lit ": []}")
                   (one_file config_json no_pools_document)
                   (VDict [(pools_key, VList [])]) _ _)
            [(pools_key, VList [])] eq_refl _).
  - vm_compute. reflexivity.
  - vm_compute. reflexivity.
  - right. right. vm_compute. reflexivity.
Defined.

(** The run of [preview_agrees_with_patch] on the scenario. *)
Lemma preview_agrees_with_patch_witness :
  exists shown,
    @App_preview ExactDecimal config_json (lit "NEWWORKER")
      (one_file config_json scenario_document)
    = (Ok (2%nat,
           [preview_line 0 (lit "WALLET123.oldworker") (lit "WALLET123.NEWWORKER");
            preview_line 1 (lit "WALLET123.oldworker") (lit "WALLET123.NEWWORKER")],
           shown),
       one_file config_json scenario_document).
Proof.
  refine (proj2 (@preview_agrees_with_patch ExactDecimal Posix config_json
                   (lit "NEWWORKER") (one_file config_json scenario_document))
            2%nat config_json (bak_path config_json) _
            (snd (@patch_xmrig_config_inplace ExactDecimal Posix config_json
                    (lit "NEWWORKER") (one_file config_json scenario_document))) _).
  vm_compute. reflexivity.
Defined.

(** The run of [patch_frame] on the scenario. *)
Lemma patch_frame_witness :
  let w := one_file config_json scenario_document in
  let w' := snd (@patch_xmrig_config_inplace ExactDecimal Posix config_json
                   (lit "NEWWORKER") w) in
  exists content data data' saved,
    file_text w config_json = Some content
    /\ @json_loads ExactDecimal content = Ok data
    /\ @text_bytes Posix (json_dumps data') = Some saved
    /\ files w' config_json = Some saved
    /\ doc_frame (lit "NEWWORKER") data data'.
Proof.
  intros w w'.
  refine (@patch_frame ExactDecimal Posix config_json (lit "NEWWORKER") w w'
            2%nat config_json (bak_path config_json)
            [preview_line 0 (lit "WALLET123.oldworker") (lit "WALLET123.NEWWORKER");
             preview_line 1 (lit "WALLET123.oldworker") (lit "WALLET123.NEWWORKER")] _).
  vm_compute. reflexivity.
Defined.

(** C4, as stated, fails for a replacement that holds a separator.  The
    pool user [w.x] patched with [a.b] is saved as [w.a.b]; patching the
    saved file with [a.b] again counts one change and saves [w.a.a.b]. *)
Lemma second_patch_changes_dotted_replacement :
  let sol := lit "a.b" in
  let run1 := @patch_xmrig_config_inplace ExactDecimal Posix config_json sol
                (one_file config_json one_pool_document) in
  let run2 := @patch_xmrig_config_inplace ExactDecimal Posix config_json sol
                (snd run1) in
  fst run1 = Ok (1%nat, config_json, bak_path config_json,
                 [preview_line 0 (lit "w.x") (lit "w.a.b")])
  /\ fst run2 = Ok (1%nat, config_json, bak_path config_json,
                    [preview_line 0 (lit "w.a.b") (lit "w.a.a.b")])
  /\ files (snd run2) config_json <> files (snd run1) config_json.
Proof.
  vm_compute. repeat split. discriminate.
Qed.

(** The second run of [patch_twice] on a file with one eligible pool. *)
Lemma patch_twice_witness :
  let w1 := snd (@patch_xmrig_config_inplace ExactDecimal Posix config_json (lit "NEW")
                   (one_file config_json one_pool_document)) in
  exists w2,
    @patch_xmrig_config_inplace ExactDecimal Posix config_json (lit "NEW") w1
    = (Ok (0%nat, config_json, bak_path config_json, []), w2)
    /\ files w2 config_json = files w1 config_json
    /\ rbind (match file_text w2 config_json with
              | Some t => Ok t
              | None => Raise UnicodeDecodeError
              end) (@json_loads ExactDecimal)
       = rbind (match file_text w1 config_json with
                | Some t => Ok t
                | None => Raise UnicodeDecodeError
                end) (@json_loads ExactDecimal).
Proof.
  intros w1.
  refine (@patch_twice ExactDecimal Posix ExactDecimal_laws config_json (lit "NEW")
            (one_file config_json one_pool_document) w1 1%nat config_json
            (bak_path config_json) [preview_line 0 (lit "w.x") (lit "w.NEW")] _ _).
  - vm_compute. intuition discriminate.
  - vm_compute. reflexivity.
Defined.

(* ================================================================= *)
(** * The report of the patcher *)

Section Report.

Context {F : PyFloat} {P : Platform}.

(** Whenever [with_suffix] accepts the suffix followed by [.bak], the
    path it returns is the path with [.bak] after its name. *)
Lemma with_suffix_ok (p b : Path) :
  with_suffix p (suffix p ++ lit ".bak") = Ok b -> b = bak_path p.
Proof.
  unfold with_suffix. destruct (existsb _ os_seps); [discriminate|].
  destruct (suffix p ++ lit ".bak") as [|c rest] eqn:E.
  { destruct (suffix p); discriminate E. }
  destruct (negb (c =? dot) || _); [discriminate|].
  destruct (name p) as [|a n] eqn:En; [discriminate|].
  intros H. injection H as <-. unfold bak_path.
  rewrite <- E, app_assoc, stem_suffix, En. reflexivity.
Qed.

Lemma with_suffix_raises (p : Path) (s : text) (e : exn) :
  with_suffix p s = Raise e -> exists m, e = ValueError m.
Proof.
  unfold with_suffix. destruct (existsb _ os_seps).
  { intros H. injection H as <-. eauto. }
  destruct s as [|c rest].
  - destruct (name p); [|discriminate]. intros H. injection H as <-. eauto.
  - destruct (negb (c =? dot) || _).
    + intros H. injection H as <-. eauto.
    + destruct (name p); [|discriminate]. intros H. injection H as <-. eauto.
Qed.

(** One turn of the loop adds the line the pool is due, if any. *)
Lemma patch_pool_expected (sol : text) (i : nat) (pool : value) (c : nat) (l : list text) :
  snd (patch_pool sol i pool c l)
  = match expected_line sol i pool with
    | Some line => l ++ [line]
    | None => l
    end
  /\ snd (fst (patch_pool sol i pool c l))
     = match expected_line sol i pool with
       | Some _ => S c
       | None => c
       end.
Proof.
  destruct (patch_pool_cases sol i pool c l)
    as [(d & u & t & -> & Hg & Hc & Hr & Hn & Hp & _)|(Hp & _ & Hfix)];
    rewrite Hp; cbn [fst snd].
  - unfold expected_line. rewrite Hg.
    destruct (replace_worker_part_last_dot u sol (proj1 (contains_In _ _) Hc))
      as (p & q & -> & Hq & E).
    change (p ++ [dot] ++ q) with (p ++ dot :: q).
    rewrite (rsplit_last_app dot p q Hq).
    change (p ++ dot :: q) with (p ++ [dot] ++ q) in *.
    rewrite Hr in E. injection E as ->.
    destruct (text_eqb q sol) eqn:Eq.
    + apply text_eqb_eq in Eq. subst q. contradiction Hn. reflexivity.
    + split; reflexivity.
  - unfold expected_line. destruct pool as [| | | | | |d]; try (split; reflexivity).
    destruct (dict_get d user_key) as [[| | | |u| |]|] eqn:Hg; try (split; reflexivity).
    destruct (rsplit_last dot u) as [[p q]|] eqn:Es; [|split; reflexivity].
    destruct (rsplit_last_some _ _ _ _ Es) as [-> Hq].
    assert (Hc : contains dot (p ++ dot :: q) = true).
    { apply contains_In, in_or_app. right. left. reflexivity. }
    pose proof (Hfix d _ eq_refl Hg Hc) as E.
    change (p ++ dot :: q) with (p ++ [dot] ++ q) in E.
    rewrite (replace_worker_part_split p q sol Hq) in E. injection E as E.
    apply app_inv_head in E. injection E as ->.
    rewrite text_eqb_refl. split; reflexivity.
Qed.

Lemma patch_pools_expected (sol : text) (pools : list value) :
  forall i c l ps' c' l',
    patch_pools sol i pools c l = (ps', c', l') ->
    l' = l ++ expected_lines sol i pools
    /\ c' = (c + length (expected_lines sol i pools))%nat
    /\ length ps' = length pools.
Proof.
  induction pools as [|pool pools IH]; simpl; intros i c l ps' c' l' H.
  - injection H as <- <- <-. rewrite List.app_nil_r. repeat split. lia.
  - destruct (patch_pool_expected sol i pool c l) as [Hl Hc].
    destruct (patch_pool sol i pool c l) as [[p1 c1] l1]. cbn [fst snd] in Hl, Hc.
    destruct (patch_pools sol (S i) pools c1 l1) as [[r c2] l2] eqn:E.
    injection H as <- <- <-. destruct (IH _ _ _ _ _ _ E) as (-> & -> & Hn).
    subst c1 l1. destruct (expected_line sol i pool) as [line|]; simpl.
    + rewrite <- app_assoc. repeat split; simpl; lia.
    + repeat split; lia.
Qed.

Lemma expected_lines_length (sol : text) (pools : list value) :
  forall i, (length (expected_lines sol i pools) <= length pools)%nat.
Proof.
  induction pools as [|pool pools IH]; simpl; intros i; [lia|].
  specialize (IH (S i)). destruct (expected_line sol i pool); simpl; lia.
Qed.

(** X1. When the patcher returns, the output path is the input path,
    the backup path is the input path with [.bak] after its name, in the
    same directory and never the input path itself, and both files
    exist. *)
Theorem patch_report_paths (in_path : Path) (sol : text) (w w' : world)
    (changed : nat) (out bak : Path) (preview : list text) :
  patch_xmrig_config_inplace in_path sol w = (Ok (changed, out, bak, preview), w') ->
  out = in_path
  /\ parent bak = parent in_path
  /\ name bak = name in_path ++ lit ".bak"
  /\ bak <> in_path
  /\ (exists b, files w' bak = Some b)
  /\ (exists b, files w' in_path = Some b).
Proof.
  intros H.
  destruct (patch_ok_inv _ _ _ _ _ _ _ _ H)
    as (content & d & pools & pools' & b1 & b2
        & _ & _ & _ & _ & _ & -> & Hs & _ & _ & ->).
  apply with_suffix_ok in Hs. subst bak.
  split; [reflexivity|]. split; [reflexivity|]. split; [reflexivity|].
  split; [|split].
  - intros E. pose proof (bak_path_neq' in_path) as Hn.
    rewrite E, path_eqb_refl in Hn. discriminate.
  - exists b1. rewrite files_store_other by apply bak_path_neq'. apply files_store_same.
  - exists b2. apply files_store_same.
Qed.

(** X2. When the patcher returns, its preview lines are the lines due to
    the pools of the loaded document, in order: one for each pool that
    is a mapping whose ["user"] is a string with a separator and whose
    text after the last separator is not the replacement.  The count is
    the number of lines, at most the number of pools. *)
Theorem patch_report_lines (in_path : Path) (sol : text) (w w' : world)
    (changed : nat) (out bak : Path) (preview : list text) :
  patch_xmrig_config_inplace in_path sol w = (Ok (changed, out, bak, preview), w') ->
  exists content d pools,
    file_text w in_path = Some content
    /\ json_loads content = Ok (VDict d)
    /\ dict_get d pools_key = Some (VList pools)
    /\ preview = expected_lines sol 0 pools
    /\ changed = length preview
    /\ (changed <= length pools)%nat.
Proof.
  intros H.
  destruct (patch_ok_inv _ _ _ _ _ _ _ _ H)
    as (content & d & pools & pools' & b1 & b2 & Hc & Hl & Hg & _ & Hp & _).
  destruct (patch_pools_expected _ _ _ _ _ _ _ _ Hp) as (-> & -> & _).
  exists content, d, pools. simpl.
  repeat (split; [first [assumption | reflexivity]|]).
  apply expected_lines_length.
Qed.


(** What a run of the patcher that raises has done. *)
Lemma patch_raise_inv (in_path : Path) (sol : text) (w w' : world) (e : exn) :
  patch_xmrig_config_inplace in_path sol w = (Raise e, w') ->
  (e <> UnicodeEncodeError /\ w' = w)
  \/ (e = UnicodeEncodeError
      /\ exists content original,
           file_text w in_path = Some content
           /\ text_bytes content = Some original
           /\ w' = store in_path [] (store (bak_path in_path) original w)).
Proof.
  unfold patch_xmrig_config_inplace, bind at 1.
  destruct (read_text in_path w) as [[content|e0] w0] eqn:Er.
  2:{ intros H. injection H as <- <-. left. rewrite read_text_run in Er.
      destruct (files w in_path) as [b|]; [destruct (Utf8.decode b)|];
        try discriminate Er;
        injection Er as <- <-; (split; [discriminate | reflexivity]). }
  apply read_text_inv in Er. destruct Er as [Hc ->].
  unfold bind at 1, lift at 1.
  destruct (json_loads content) as [data|e0] eqn:El.
  2:{ intros H. injection H as <- <-. left.
      destruct (json_loads_raises _ _ El) as [m ->]. split; [discriminate | reflexivity]. }
  unfold bind at 1, lift at 1, py_get.
  destruct data as [| | | | | |d];
    try (intros H; injection H as <- <-; left; split; [discriminate | reflexivity]).
  destruct (dict_get d pools_key) as [v|] eqn:Eg;
    [|intros H; injection H as <- <-; left; split; [discriminate | reflexivity]].
  destruct v as [| | | | |pools|];
    try (intros H; injection H as <- <-; left; split; [discriminate | reflexivity]).
  destruct pools as [|pool pools];
    [intros H; injection H as <- <-; left; split; [discriminate | reflexivity]|].
  cbn [nonempty_list negb].
  destruct (patch_pools sol 0 (pool :: pools) 0 []) as [[pools' ch] pv].
  unfold bind at 1, lift at 1.
  destruct (with_suffix in_path (suffix in_path ++ lit ".bak")) as [bk|e0] eqn:Es.
  2:{ intros H. injection H as <- <-. left.
      destruct (with_suffix_raises _ _ _ Es) as [m ->]. split; [discriminate | reflexivity]. }
  apply with_suffix_ok in Es. subst bk.
  unfold bind at 1. rewrite (read_text_ok _ _ _ Hc).
  unfold bind at 1, write_text at 1. fold (text_bytes content).
  destruct (file_text_writable _ _ _ Hc) as [b1 H1]. rewrite H1.
  unfold bind at 1, write_text at 1.
  destruct (Utf8.encode _) as [b2|]; [discriminate|].
  intros H. injection H as <- <-. right. split; [reflexivity|].
  exists content, b1. repeat (split; [assumption|]). reflexivity.
Qed.



Lemma path_neq_eqb (p q : Path) : p <> q -> path_eqb p q = false.
Proof.
  intros H. destruct (path_eqb p q) eqn:E; [|reflexivity].
  apply path_eqb_eq in E. contradiction.
Qed.

(** X4. Whether it returns or raises, the patcher leaves every file
    other than the input path and its backup path as it was, and writes
    at most twice, only to those two paths. *)
Theorem patch_touches_two_paths (in_path : Path) (sol : text) (w w' : world)
    (r : result (nat * Path * Path * list text)) :
  patch_xmrig_config_inplace in_path sol w = (r, w') ->
  (forall q, q <> in_path -> q <> bak_path in_path -> files w' q = files w q)
  /\ (exists l, writes w' = writes w ++ l
                /\ (length l <= 2)%nat
                /\ forall q b, In (q, b) l -> q = in_path \/ q = bak_path in_path).
Proof.
  intros H.
  assert (G : w' = w \/ exists b1 b2, w' = store in_path b2 (store (bak_path in_path) b1 w)).
  { destruct r as [[[[changed out] bak] preview]|e].
    - destruct (patch_ok_inv _ _ _ _ _ _ _ _ H)
        as (content & d & pools & pools' & b1 & b2
            & _ & _ & _ & _ & _ & _ & Hs & _ & _ & ->).
      apply with_suffix_ok in Hs. subst bak. right. eauto.
    - destruct (patch_raise_inv _ _ _ _ _ H) as [[_ ->]|(_ & content & b1 & _ & _ & ->)];
        [left; reflexivity | right; eauto]. }
  destruct G as [->|(b1 & b2 & ->)].
  - split; [reflexivity|]. exists []. rewrite List.app_nil_r.
    split; [reflexivity|]. split; [simpl; lia | intros q b []].
  - split.
    + intros q H1 H2.
      rewrite !files_store_other by (apply path_neq_eqb; assumption). reflexivity.
    + exists [(bak_path in_path, b1); (in_path, b2)]. simpl.
      rewrite <- app_assoc. split; [reflexivity|]. split; [lia|].
      intros q b [E|[E|[]]]; injection E as <- _; auto.
Qed.

(** X5. The preview is lenient where the patcher is not: on a document
    that is a mapping whose ["pools"] field is missing, not a sequence
    or empty, it returns the count 0 with no line and the text that
    says nothing is to change.  On a document that is not a mapping it
    raises the [AttributeError] the patcher raises.  No file is written
    either way. *)
Theorem preview_without_pools (in_path : Path) (sol content : text) (w : world)
    (data : value) :
  file_text w in_path = Some content ->
  json_loads content = Ok data ->
  (forall d, data = VDict d -> pools_rejected d ->
     App_preview in_path sol w = (Ok (0%nat, [], nothing_to_change), w))
  /\ ((forall d, data <> VDict d) ->
      exists msg, App_preview in_path sol w = (Raise (AttributeError msg), w)).
Proof.
  intros Hc Hl. split.
  - intros d -> Hr. unfold App_preview, bind at 1.
    rewrite (read_text_ok _ _ _ Hc). unfold bind at 1, lift at 1. rewrite Hl.
    unfold bind at 1, lift at 1, py_get.
    destruct Hr as [Hr|[(v & Hr & Hv)|Hr]]; rewrite Hr; try reflexivity.
    destruct v as [| | | | |l|]; try reflexivity.
    exfalso. apply (Hv l). reflexivity.
  - intros Hn. unfold App_preview, bind at 1.
    rewrite (read_text_ok _ _ _ Hc). unfold bind at 1, lift at 1. rewrite Hl.
    unfold bind at 1, lift at 1, py_get.
    destruct data as [| | | | | |d]; try (eexists; reflexivity).
    exfalso. apply (Hn d). reflexivity.
Qed.

(** X6. A replacement the validator accepts makes the suffix replacer
    idempotent on every value: replacing again changes nothing. *)
Theorem accepted_replacement_settles (sol : text) (v : value) :
  looks_like_solana_address (VStr sol) = Ok true ->
  replace_worker_part (replace_worker_part v sol) sol = replace_worker_part v sol.
Proof.
  intros H. apply accepted_address_has_no_dot in H.
  destruct v as [| | | |u| |]; try reflexivity.
  destruct (in_dec N.eq_dec dot u) as [Hu|Hu].
  - destruct (replace_worker_part_last_dot u sol Hu) as (p & q & _ & _ & ->).
    apply replace_worker_part_split. exact H.
  - rewrite !(replace_worker_part_no_dot u sol Hu). reflexivity.
Qed.

Lemma last_n_app (n : nat) (a b : text) :
  (n <= length b)%nat -> last_n n (a ++ b) = last_n n b.
Proof.
  intros H. unfold last_n. rewrite List.length_app.
  replace (length a + length b - n)%nat with (length a + (length b - n))%nat by lia.
  rewrite skipn_app, skipn_all2 by lia.
  replace (length a + (length b - n) - length a)%nat with (length b - n)%nat by lia.
  reflexivity.
Qed.

Lemma last_n_incl (n : nat) (s : text) (c : char) : In c (last_n n s) -> In c s.
Proof.
  unfold last_n. intros H. rewrite <- (firstn_skipn (length s - n) s).
  apply in_or_app. right. exact H.
Qed.

Lemma strip_length (s : text) : (length (strip s) <= length s)%nat.
Proof.
  destruct (strip_spec s) as (a & b & E & _).
  rewrite E at 2. rewrite !List.length_app. lia.
Qed.

(** X7. With a replacement the validator accepts, the new value shown in
    a preview line is the last 28 characters of the replacement alone:
    it holds no separator and nothing of the text before it. *)
Theorem preview_line_of_address (i : nat) (u sol : text) :
  looks_like_solana_address (VStr sol) = Ok true ->
  In dot u ->
  exists new_u,
    replace_worker_part (VStr u) sol = VStr new_u
    /\ preview_line i u new_u = preview_line i u sol
    /\ length (last_n 28 new_u) = 28%nat
    /\ ~ In dot (last_n 28 new_u).
Proof.
  intros H Hu.
  assert (Hlen : (28 <= length sol)%nat).
  { pose proof H as Hb. rewrite looks_like_solana_address_eq in Hb.
    destruct (Nat.leb_spec 32 (length (strip sol))) as [Hle|_]; [|discriminate Hb].
    pose proof (strip_length sol). lia. }
  destruct (replace_worker_part_last_dot u sol Hu) as (p & q & _ & _ & E).
  exists (p ++ [dot] ++ sol). split; [exact E|].
  assert (Hl : last_n 28 (p ++ [dot] ++ sol) = last_n 28 sol).
  { rewrite app_assoc. apply last_n_app. exact Hlen. }
  split; [|split].
  - unfold preview_line. rewrite Hl. reflexivity.
  - rewrite Hl. unfold last_n. rewrite length_skipn. lia.
  - rewrite Hl. intros Hin. apply last_n_incl in Hin.
    exact (accepted_address_has_no_dot sol H Hin).
Qed.

(* ----------------------------------------------------------------- *)
(** ** Whitespace around the replacement *)

Lemma lstrip_blank (a t : text) : blank a = true -> lstrip (a ++ t) = lstrip t.
Proof.
  unfold blank. induction a as [|c a IH]; simpl; [reflexivity|].
  intros H. apply andb_true_iff in H. destruct H as [Hc Ha]. rewrite Hc. exact (IH Ha).
Qed.

Lemma lstrip_nil_blank (s : text) : lstrip s = [] -> blank s = true.
Proof.
  unfold blank. induction s as [|c s IH]; simpl; [reflexivity|].
  destruct (py_isspace c); [exact IH | discriminate].
Qed.

Lemma lstrip_app_solid (s b : text) : lstrip s <> [] -> lstrip (s ++ b) = lstrip s ++ b.
Proof.
  induction s as [|c s IH]; simpl; [congruence|].
  destruct (py_isspace c); [exact IH | reflexivity].
Qed.

Lemma blank_rev (b : text) : blank b = true -> blank (rev b) = true.
Proof.
  unfold blank. rewrite !forallb_forall. intros H x Hx. apply H, in_rev. exact Hx.
Qed.

Lemma rstrip_blank (t b : text) : blank b = true -> rstrip (t ++ b) = rstrip t.
Proof.
  intros H. unfold rstrip. rewrite rev_app_distr, (lstrip_blank _ _ (blank_rev b H)).
  reflexivity.
Qed.

Lemma strip_outer (a s b : text) :
  blank a = true -> blank b = true -> strip (a ++ s ++ b) = strip s.
Proof.
  intros Ha Hb. unfold strip. rewrite (lstrip_blank _ _ Ha).
  destruct (lstrip s) as [|c r] eqn:E.
  - rewrite (lstrip_blank _ _ (lstrip_nil_blank s E)).
    rewrite <- (List.app_nil_r b), (lstrip_blank _ _ Hb). reflexivity.
  - rewrite lstrip_app_solid by congruence. rewrite E. apply rstrip_blank. exact Hb.
Qed.

(** X8. Whitespace before and after a string does not change the
    verdict of the validator. *)
Theorem validator_ignores_outer_whitespace (a s b : text) :
  blank a = true -> blank b = true ->
  looks_like_solana_address (VStr (a ++ s ++ b)) = looks_like_solana_address (VStr s).
Proof.
  intros Ha Hb. rewrite !looks_like_solana_address_eq, (strip_outer a s b Ha Hb).
  reflexivity.
Qed.

(* ----------------------------------------------------------------- *)
(** ** A file that starts with a byte order mark *)

Lemma Utf8_decode_bom (rest : bytes) :
  Utf8.decode (0xEF :: 0xBB :: 0xBF :: rest) = option_map (cons 0xFEFF) (Utf8.decode rest).
Proof. rewrite Utf8_decode_cons. reflexivity. Qed.

(** X9. A file that starts with the UTF-8 byte order mark is refused by
    the patcher and by the preview alike: [read_text] keeps the mark,
    [json.loads] raises on it, and no file is written.  When the rest of
    the file is not UTF-8 the error is the decoding error instead. *)
Theorem byte_order_mark_refused (in_path : Path) (sol : text) (w : world) (rest : bytes) :
  files w in_path = Some (0xEF :: 0xBB :: 0xBF :: rest) ->
  let e := match Utf8.decode rest with
           | Some _ => JSONDecodeError "Unexpected UTF-8 BOM (decode using utf-8-sig)"
           | None => UnicodeDecodeError
           end in
  patch_xmrig_config_inplace in_path sol w = (Raise e, w)
  /\ App_preview in_path sol w = (Raise e, w).
Proof.
  intros Hf e.
  assert (Hr : read_text in_path w
               = (match Utf8.decode rest with
                  | Some t => Ok (0xFEFF :: universal_newlines t)
                  | None => Raise UnicodeDecodeError
                  end, w)).
  { rewrite read_text_run, Hf, Utf8_decode_bom.
    destruct (Utf8.decode rest); reflexivity. }
  subst e. split.
  - unfold patch_xmrig_config_inplace, bind at 1. rewrite Hr.
    destruct (Utf8.decode rest); reflexivity.
  - unfold App_preview, bind at 1. rewrite Hr.
    destruct (Utf8.decode rest); reflexivity.
Qed.

End Report.

(* ================================================================= *)
(** * The files a run leaves, as the next run finds them *)

Section NextRun.

Context {F : PyFloat} {P : Platform} {L : PyFloatLaws F}.

(** What a run that returns leaves at the primary path. *)
Lemma patch_saved (in_path : Path) (sol : text) (w w' : world)
    (changed : nat) (out bak : Path) (preview : list text) :
  patch_xmrig_config_inplace in_path sol w = (Ok (changed, out, bak, preview), w') ->
  exists content d pools pools' saved,
    file_text w in_path = Some content
    /\ json_loads content = Ok (VDict d)
    /\ dict_get d pools_key = Some (VList pools)
    /\ patch_pools sol 0 pools 0 [] = (pools', changed, preview)
    /\ pools' <> []
    /\ with_suffix in_path (suffix in_path ++ lit ".bak") = Ok bak
    /\ files w' in_path = Some saved
    /\ text_bytes (json_dumps (VDict (dict_set d pools_key (VList pools')))) = Some saved
    /\ file_text w' in_path
       = Some (json_dumps (VDict (dict_set d pools_key (VList pools'))))
    /\ json_loads (json_dumps (VDict (dict_set d pools_key (VList pools'))))
       = Ok (VDict (dict_set d pools_key (VList pools'))).
Proof.
  intros H.
  destruct (patch_ok_inv _ _ _ _ _ _ _ _ H)
    as (content & d & pools & pools' & b1 & b2
        & Hc & Hl & Hg & Hne & Hp & _ & Hsuf & H1 & H2 & ->).
  assert (Hwd : NoDup (map fst d) /\ Forall (fun m => well_formed (snd m)) d).
  { pose proof (json_loads_wf _ _ Hl) as Hwd. inversion Hwd; subst. split; assumption. }
  destruct Hwd as [Hnd Hfd].
  assert (Hwp : Forall well_formed pools).
  { pose proof (dict_get_forall _ _ _ _ Hfd Hg) as Hwl.
    inversion Hwl; subst; assumption. }
  assert (Hpools : pools' = fst (fst (patch_pools sol 0 pools 0 []))).
  { rewrite Hp. reflexivity. }
  assert (Hw1 : well_formed (VDict (dict_set d pools_key (VList pools')))).
  { constructor; [apply dict_set_nodup; exact Hnd|].
    apply dict_set_forall; [exact Hfd|]. constructor.
    rewrite Hpools. apply patch_pools_wf. exact Hwp. }
  exists content, d, pools, pools', b2.
  repeat (split; [assumption|]). split; [|split; [exact Hsuf|split; [|split; [exact H2|split]]]].
  - pose proof (patch_pools_frame sol pools 0 0 []) as Hf. rewrite <- Hpools in Hf.
    intros ->. inversion Hf; subst. congruence.
  - apply files_store_same.
  - apply file_text_store; [exact H2 | apply iterencode_no_cr].
  - apply json_loads_dumps. exact Hw1.
Qed.

(** X10. When the patcher returns, the primary file, read and parsed as
    the patcher reads and parses it, is the loaded document with the
    pools as the loop left them: nothing is lost or altered on the way
    through [json.dumps], the newline translation and UTF-8. *)
Theorem saved_document_loads (in_path : Path) (sol : text) (w w' : world)
    (changed : nat) (out bak : Path) (preview : list text) :
  patch_xmrig_config_inplace in_path sol w = (Ok (changed, out, bak, preview), w') ->
  exists content d pools saved_text,
    file_text w in_path = Some content
    /\ json_loads content = Ok (VDict d)
    /\ dict_get d pools_key = Some (VList pools)
    /\ file_text w' in_path = Some saved_text
    /\ json_loads saved_text
       = Ok (VDict (dict_set d pools_key
                      (VList (fst (fst (patch_pools sol 0 pools 0 [])))))).
Proof.
  intros H.
  destruct (patch_saved _ _ _ _ _ _ _ _ H)
    as (content & d & pools & pools' & saved
        & Hc & Hl & Hg & Hp & _ & _ & _ & _ & Ht & Hr).
  exists content, d, pools, (json_dumps (VDict (dict_set d pools_key (VList pools')))).
  rewrite Hp. cbn [fst]. repeat (split; [assumption|]). exact Hr.
Qed.

(** X11. A run on the files that a run that returned has left, with any
    replacement, reaches the write phase, and its backup is the primary
    file as the earlier run saved it, byte for byte: the backup of the
    original content is gone.  This holds whether or not the later run
    returns. *)
Theorem next_run_overwrites_backup (in_path : Path) (sol sol' : text) (w w1 : world)
    (changed : nat) (out bak : Path) (preview : list text) :
  patch_xmrig_config_inplace in_path sol w = (Ok (changed, out, bak, preview), w1) ->
  exists r w2 saved b,
    patch_xmrig_config_inplace in_path sol' w1 = (r, w2)
    /\ files w1 in_path = Some saved
    /\ writes w2 = writes w1 ++ [(bak, saved); (in_path, b)]
    /\ files w2 bak = Some saved.
Proof.
  intros H.
  destruct (patch_saved _ _ _ _ _ _ _ _ H)
    as (content & d & pools & pools' & saved
        & _ & _ & _ & _ & Hne & Hsuf & Hf & Hb & Ht & Hr).
  rewrite (patch_run _ _ sol' _ _ _ _ Ht Hr
             (dict_get_set d pools_key (VList pools')) Hne Hsuf).
  pose proof (with_suffix_ok _ _ Hsuf) as ->.
  destruct (patch_pools sol' 0 pools' 0 []) as [[pools2 ch] pv].
  rewrite Hb. cbv iota.
  destruct (text_bytes
              (json_dumps
                 (VDict (dict_set (dict_set d pools_key (VList pools')) pools_key
                           (VList pools2))))) as [b2|]; eexists _, _, saved;
    [exists b2 | exists []];
    (split; [reflexivity|]); (split; [exact Hf|]); split;
    try (simpl; rewrite <- app_assoc; reflexivity);
    rewrite files_store_other by apply bak_path_neq'; apply files_store_same.
Qed.

Lemma patch_pools_same (sol : text) (pools : list value) :
  forall i c l ps' c' l',
    patch_pools sol i pools c l = (ps', c', l') -> ps' = pools -> c' = c.
Proof.
  induction pools as [|pool pools IH]; simpl; intros i c l ps' c' l' H E.
  - injection H as _ <- _. reflexivity.
  - destruct (patch_pool_cases sol i pool c l)
      as [(d & u & t & -> & Hg & _ & _ & Hn & Hp & _)|(Hp & _ & _)];
      rewrite Hp in H;
      destruct (patch_pools sol (S i) pools _ _) as [[r c2] l2] eqn:Er;
      injection H as <- <- <-.
    + exfalso. injection E as E _. apply (f_equal (fun x => dict_get x user_key)) in E.
      rewrite dict_get_set, Hg in E. congruence.
    + injection E as E. exact (IH _ _ _ _ _ _ Er E).
Qed.

(** X12. When the patcher returns, its count is 0 exactly when the
    document in the saved file is the document that was in the file
    before: the count never reports a change that was not saved, and a
    saved change is never left out of the count. *)
Theorem count_zero_iff_same_document (in_path : Path) (sol : text) (w w' : world)
    (changed : nat) (out bak : Path) (preview : list text) :
  patch_xmrig_config_inplace in_path sol w = (Ok (changed, out, bak, preview), w') ->
  exists content saved_text data data',
    file_text w in_path = Some content
    /\ file_text w' in_path = Some saved_text
    /\ json_loads content = Ok data
    /\ json_loads saved_text = Ok data'
    /\ (changed = 0%nat <-> data' = data).
Proof.
  intros H.
  destruct (patch_saved _ _ _ _ _ _ _ _ H)
    as (content & d & pools & pools' & saved
        & Hc & Hl & Hg & Hp & _ & _ & _ & _ & Ht & Hr).
  exists content, (json_dumps (VDict (dict_set d pools_key (VList pools')))),
    (VDict d), (VDict (dict_set d pools_key (VList pools'))).
  repeat (split; [assumption|]). split.
  - intros ->. destruct (patch_pools_count _ _ _ _ _ _ _ _ Hp) as [_ Hz].
    destruct (Hz eq_refl) as [-> _]. rewrite (dict_set_same _ _ _ Hg). reflexivity.
  - intros E. injection E as E. apply (f_equal (fun x => dict_get x pools_key)) in E.
    rewrite dict_get_set, Hg in E. injection E as E.
    exact (patch_pools_same _ _ _ _ _ _ _ _ Hp E).
Qed.

End NextRun.

(* ================================================================= *)
(** * The handlers of the window *)

Section Handlers.

Context {F : PyFloat} {P : Platform}.

Variable user : dialog -> bool.

(** What the preview finds when the patcher returns. *)
Lemma App_preview_of_patch (path : Path) (sol : text) (w w' : world)
    (changed : nat) (out bak : Path) (lines : list text) :
  patch_xmrig_config_inplace path sol w = (Ok (changed, out, bak, lines), w') ->
  App_preview path sol w
  = (Ok (changed, lines,
         if (changed =? 0)%nat then nothing_to_change else join [10] lines ++ [10]), w).
Proof.
  intros H.
  destruct (patch_ok_inv _ _ _ _ _ _ _ _ H)
    as (content & d & pools & pools' & b1 & b2 & Hc & Hl & Hg & _ & Hp & _).
  unfold App_preview, bind at 1. rewrite (read_text_ok _ _ _ Hc).
  unfold bind at 1, lift at 1. rewrite Hl.
  unfold bind at 1, lift at 1, py_get. rewrite Hg.
  rewrite (preview_matches_patch _ _ _ _ _ _ _ _ Hp). reflexivity.
Qed.

(** X13. The preview handler, whatever the widgets hold and whatever the
    user answers, writes no file, lets no exception escape, and leaves
    the chosen path and the entry as they are. *)
Theorem preview_reads_only (self : App) (w : world) :
  disk (preview user self w) = w
  /\ escaped (preview user self w) = None
  /\ in_path (window (preview user self w)) = in_path self
  /\ ent_solana (window (preview user self w)) = ent_solana self.
Proof.
  unfold preview. cbn [in_path ent_solana set_txt_preview].
  destruct (in_path self) as [path|] eqn:Ep; [|repeat split; assumption].
  destruct (strip (ent_solana self)) as [|c sol]; [repeat split; assumption|].
  rewrite looks_like_solana_address_eq.
  destruct (_ && _ && forallb base58_alphabet _); cbn [negb andb].
  - pose proof (App_preview_world path (c :: sol) w) as Hw.
    destruct (App_preview path (c :: sol) w) as [[[[count lines] ins]|e] w'];
      cbn [snd] in Hw; subst w'; repeat split; assumption.
  - destruct (user continue_anyway); cbn [negb]; [|repeat split; assumption].
    pose proof (App_preview_world path (c :: sol) w) as Hw.
    destruct (App_preview path (c :: sol) w) as [[[[count lines] ins]|e] w'];
      cbn [snd] in Hw; subst w'; repeat split; assumption.
Qed.

(** X14. The save handler lets no exception escape, and it changes the
    files only when a path is chosen, the entry is not blank, the
    replacement passed the validator or the user chose to continue, and
    the user then answered yes to the question that names the file to
    overwrite. *)
Theorem save_needs_consent (self : App) (w : world) :
  escaped (save user self w) = None
  /\ (disk (save user self w) <> w ->
      exists path,
        in_path self = Some path
        /\ strip (ent_solana self) <> []
        /\ (looks_like_solana_address (VStr (strip (ent_solana self))) = Ok true
            \/ (In continue_anyway (shown (save user self w))
                /\ user continue_anyway = true))
        /\ In (overwrite_it path) (shown (save user self w))
        /\ user (overwrite_it path) = true).
Proof.
  unfold save. cbn [in_path ent_solana set_txt_preview].
  destruct (in_path self) as [path|]; [|split; [reflexivity | intros H; contradiction H; reflexivity]].
  destruct (strip (ent_solana self)) as [|c sol];
    [split; [reflexivity | intros H; contradiction H; reflexivity]|].
  rewrite looks_like_solana_address_eq.
  destruct (_ && _ && forallb base58_alphabet _); cbn [negb andb].
  - destruct (user (overwrite_it path)) eqn:Ea; cbn [negb];
      [|split; [reflexivity | intros H; contradiction H; reflexivity]].
    destruct (patch_xmrig_config_inplace path (c :: sol) w)
      as [[[[[changed out] bak] lines]|e] w'];
      (split; [reflexivity|]); intros _; exists path;
      (split; [reflexivity|]); (split; [discriminate|]); (split; [left; reflexivity|]);
      (split; [|exact Ea]); cbn [shown app]; left; reflexivity.
  - destruct (user continue_anyway) eqn:Ec; cbn [negb];
      [|split; [reflexivity | intros H; contradiction H; reflexivity]].
    destruct (user (overwrite_it path)) eqn:Ea; cbn [negb];
      [|split; [reflexivity | intros H; contradiction H; reflexivity]].
    destruct (patch_xmrig_config_inplace path (c :: sol) w)
      as [[[[[changed out] bak] lines]|e] w'];
      (split; [reflexivity|]); intros _; exists path;
      (split; [reflexivity|]); (split; [discriminate|]);
      (split; [right; split; [cbn [shown app]; left; reflexivity | reflexivity]|]);
      (split; [|exact Ea]); cbn [shown app]; right; left; reflexivity.
Qed.

(** A box that a list of boxes cannot hold, by its kind. *)
Ltac absent H :=
  exfalso; cbn [shown app In] in H;
  unfold choose_a_file_first, enter_an_address, continue_anyway, overwrite_it,
    nothing_changed, save_failed, saved_it in H;
  intuition discriminate.

Lemma patch_lines_nonempty (path : Path) (sol : text) (w w' : world)
    (changed : nat) (out bak : Path) (lines : list text) :
  patch_xmrig_config_inplace path sol w = (Ok (changed, out, bak, lines), w') ->
  length lines = changed.
Proof.
  intros H.
  destruct (patch_ok_inv _ _ _ _ _ _ _ _ H)
    as (content & d & pools & pools' & b1 & b2 & _ & _ & _ & _ & Hp & _).
  destruct (patch_pools_expected _ _ _ _ _ _ _ _ Hp) as (-> & -> & _). reflexivity.
Qed.

(** X15. When a save has gone through, shown by its closing box, the
    text it leaves in the preview widget is the text a preview on the
    same widgets and files leaves there, unless the save counted no
    change: then the save warns, leaves the widget empty, and the
    preview shows the text that says nothing is to change. *)
Theorem save_shows_the_preview (self : App) (w : world) :
  (exists msg, In (showinfo done_title msg) (shown (save user self w))) ->
  (~ In nothing_changed (shown (save user self w)) ->
     txt_preview (window (save user self w))
     = txt_preview (window (preview user self w)))
  /\ (In nothing_changed (shown (save user self w)) ->
      txt_preview (window (save user self w)) = []
      /\ txt_preview (window (preview user self w)) = nothing_to_change).
Proof.
  unfold save, preview. cbn [in_path ent_solana set_txt_preview].
  destruct (in_path self) as [path|]; [|intros [msg H]; absent H].
  destruct (strip (ent_solana self)) as [|c sol]; [intros [msg H]; absent H|].
  rewrite looks_like_solana_address_eq.
  destruct (_ && _ && forallb base58_alphabet _); cbn [negb andb];
    [|destruct (user continue_anyway); cbn [negb]; [|intros [msg H]; absent H]];
    (destruct (user (overwrite_it path)); cbn [negb]; [|intros [msg H]; absent H]);
    (destruct (patch_xmrig_config_inplace path (c :: sol) w)
       as [[[[[changed out] bak] lines]|e] w'] eqn:Ep; [|intros [msg H]; absent H]);
    rewrite (App_preview_of_patch _ _ _ _ _ _ _ _ Ep);
    pose proof (patch_lines_nonempty _ _ _ _ _ _ _ _ Ep) as Hn;
    cbn [shown window txt_preview set_lbl_status set_txt_preview];
    intros _; (destruct changed as [|n]; destruct lines as [|l ls]; try discriminate Hn);
    cbn [Nat.eqb]; (split; [intros H | intros H; try absent H]);
    try reflexivity; try (split; reflexivity);
    contradiction H; cbn [app In]; auto.
Qed.

End Handlers.

(* ================================================================= *)
(** * Further runs on concrete files *)

(** The report of [patch_report_paths] in the end-to-end scenario. *)
Lemma patch_report_paths_witness :
  let w := one_file config_json scenario_document in
  let w' := snd (@patch_xmrig_config_inplace ExactDecimal Posix config_json
                   (lit "NEWWORKER") w) in
  config_json = config_json
  /\ parent (bak_path config_json) = parent config_json
  /\ name (bak_path config_json) = name config_json ++ lit ".bak"
  /\ bak_path config_json <> config_json
  /\ (exists b, files w' (bak_path config_json) = Some b)
  /\ (exists b, files w' config_json = Some b).
Proof.
  intros w w'.
  refine (@patch_report_paths ExactDecimal Posix config_json (lit "NEWWORKER") w w'
            2%nat config_json (bak_path config_json)
            [preview_line 0 (lit "WALLET123.oldworker") (lit "WALLET123.NEWWORKER");
             preview_line 1 (lit "WALLET123.oldworker") (lit "WALLET123.NEWWORKER")] _).
  vm_compute. reflexivity.
Defined.

(** The lines of [patch_report_lines] in the end-to-end scenario. *)
Lemma patch_report_lines_witness :
  let w := one_file config_json scenario_document in
  let lines :=
    [preview_line 0 (lit "WALLET123.oldworker") (lit "WALLET123.NEWWORKER");
     preview_line 1 (lit "WALLET123.oldworker") (lit "WALLET123.NEWWORKER")] in
  exists content d pools,
    file_text w config_json = Some content
    /\ @json_loads ExactDecimal content = Ok (VDict d)
    /\ dict_get d pools_key = Some (VList pools)
    /\ lines = expected_lines (lit "NEWWORKER") 0 pools
    /\ 2%nat = length lines
    /\ (2 <= length pools)%nat.
Proof.
  intros w lines.
  refine (@patch_report_lines ExactDecimal Posix config_json (lit "NEWWORKER") w
            (snd (@patch_xmrig_config_inplace ExactDecimal Posix config_json
                    (lit "NEWWORKER") w))
            2%nat config_json (bak_path config_json) lines _).
  vm_compute. reflexivity.
Defined.


(** The preview of [preview_without_pools] on a document with empty
    pools. *)
Lemma preview_without_pools_witness :
  @App_preview ExactDecimal config_json (lit "NEW")
    (one_file config_json no_pools_document)
  = (Ok (0%nat, [], nothing_to_change), one_file config_json no_pools_document).
Proof.
  refine (proj1 (@preview_without_pools ExactDecimal config_json (lit "NEW")
                   (lit "{" ++ [quote] ++ lit "pools" ++ [quote] ++ lit ": []}")
                   (one_file config_json no_pools_document)
                   (VDict [(pools_key, VList [])]) _ _)
            [(pools_key, VList [])] eq_refl _).
  - vm_compute. reflexivity.
  - vm_compute. reflexivity.
  - right. right. vm_compute. reflexivity.
Defined.

(** [accepted_replacement_settles] on 32 ones and [w.x]. *)
Lemma accepted_replacement_settles_witness :
  @replace_worker_part ExactDecimal
    (replace_worker_part (VStr (lit "w.x")) thirty_two_ones) thirty_two_ones
  = replace_worker_part (VStr (lit "w.x")) thirty_two_ones.
Proof.
  apply (@accepted_replacement_settles ExactDecimal thirty_two_ones (VStr (lit "w.x"))).
  vm_compute. reflexivity.
Defined.

(** [preview_line_of_address] on 32 ones and [w.x]. *)
Lemma preview_line_of_address_witness :
  exists new_u,
    @replace_worker_part ExactDecimal (VStr (lit "w.x")) thirty_two_ones = VStr new_u
    /\ preview_line 0 (lit "w.x") new_u = preview_line 0 (lit "w.x") thirty_two_ones
    /\ length (last_n 28 new_u) = 28%nat
    /\ ~ In dot (last_n 28 new_u).
Proof.
  apply (@preview_line_of_address ExactDecimal 0%nat (lit "w.x") thirty_two_ones).
  - vm_compute. reflexivity.
  - vm_compute. right. left. reflexivity.
Defined.

(** [saved_document_loads] in the end-to-end scenario. *)
Lemma saved_document_loads_witness :
  let w := one_file config_json scenario_document in
  let w' := snd (@patch_xmrig_config_inplace ExactDecimal Posix config_json
                   (lit "NEWWORKER") w) in
  exists content d pools saved_text,
    file_text w config_json = Some content
    /\ @json_loads ExactDecimal content = Ok (VDict d)
    /\ dict_get d pools_key = Some (VList pools)
    /\ file_text w' config_json = Some saved_text
    /\ json_loads saved_text
       = Ok (VDict (dict_set d pools_key
                      (VList (fst (fst (patch_pools (lit "NEWWORKER") 0 pools 0 [])))))).
Proof.
  intros w w'.
  refine (@saved_document_loads ExactDecimal Posix ExactDecimal_laws config_json
            (lit "NEWWORKER") w w' 2%nat config_json (bak_path config_json)
            [preview_line 0 (lit "WALLET123.oldworker") (lit "WALLET123.NEWWORKER");
             preview_line 1 (lit "WALLET123.oldworker") (lit "WALLET123.NEWWORKER")] _).
  vm_compute. reflexivity.
Defined.

(** [next_run_overwrites_backup]: a run with [NEW] and then one with
    [OTHER] on a file with one eligible pool. *)
Lemma next_run_overwrites_backup_witness :
  let w1 := snd (@patch_xmrig_config_inplace ExactDecimal Posix config_json (lit "NEW")
                   (one_file config_json one_pool_document)) in
  exists r w2 saved b,
    @patch_xmrig_config_inplace ExactDecimal Posix config_json (lit "OTHER") w1 = (r, w2)
    /\ files w1 config_json = Some saved
    /\ writes w2 = writes w1 ++ [(bak_path config_json, saved); (config_json, b)]
    /\ files w2 (bak_path config_json) = Some saved.
Proof.
  intros w1.
  refine (@next_run_overwrites_backup ExactDecimal Posix ExactDecimal_laws config_json
            (lit "NEW") (lit "OTHER") (one_file config_json one_pool_document) w1
            1%nat config_json (bak_path config_json)
            [preview_line 0 (lit "w.x") (lit "w.NEW")] _).
  vm_compute. reflexivity.
Defined.

(** [save_needs_consent] on the ready window, with a user who says yes. *)
Lemma save_needs_consent_witness :
  let w := one_file config_json scenario_document in
  let o := @save ExactDecimal Posix says_yes ready_window w in
  exists path,
    in_path ready_window = Some path
    /\ strip (ent_solana ready_window) <> []
    /\ (@looks_like_solana_address ExactDecimal (VStr (strip (ent_solana ready_window)))
        = Ok true
        \/ (In continue_anyway (shown o) /\ says_yes continue_anyway = true))
    /\ In (overwrite_it path) (shown o)
    /\ says_yes (overwrite_it path) = true.
Proof.
  intros w o.
  refine (proj2 (@save_needs_consent ExactDecimal Posix says_yes ready_window w) _).
  intros E. apply (f_equal writes) in E. vm_compute in E. discriminate E.
Defined.

(** [save_shows_the_preview] on the ready window. *)
Lemma save_shows_the_preview_witness :
  let w := one_file config_json scenario_document in
  let o := @save ExactDecimal Posix says_yes ready_window w in
  (~ In nothing_changed (shown o) ->
     txt_preview (window o)
     = txt_preview (window (@preview ExactDecimal says_yes ready_window w)))
  /\ (In nothing_changed (shown o) ->
      txt_preview (window o) = []
      /\ txt_preview (window (@preview ExactDecimal says_yes ready_window w))
         = nothing_to_change).
Proof.
  intros w o.
  refine (@save_shows_the_preview ExactDecimal Posix says_yes ready_window w _).
  eexists. vm_compute. right. right. left. reflexivity.
Defined.

(** [validator_ignores_outer_whitespace] on 32 ones between a space and
    a line feed. *)
Lemma validator_ignores_outer_whitespace_witness :
  @looks_like_solana_address ExactDecimal (VStr ([32] ++ thirty_two_ones ++ [10]))
  = @looks_like_solana_address ExactDecimal (VStr thirty_two_ones).
Proof.
  apply (@validator_ignores_outer_whitespace ExactDecimal [32] thirty_two_ones [10]);
    vm_compute; reflexivity.
Defined.

(** [byte_order_mark_refused] on a document that is valid after its
    mark. *)
Lemma byte_order_mark_refused_witness :
  let w := one_file config_json bom_document in
  let e := JSONDecodeError "Unexpected UTF-8 BOM (decode using utf-8-sig)" in
  @patch_xmrig_config_inplace ExactDecimal Posix config_json (lit "NEW") w = (Raise e, w)
  /\ @App_preview ExactDecimal config_json (lit "NEW") w = (Raise e, w).
Proof.
  intros w e.
  refine (@byte_order_mark_refused ExactDecimal Posix config_json (lit "NEW") w
            one_pool_document _).
  vm_compute. reflexivity.
Defined.

(** [patch_touches_two_paths] in the end-to-end scenario. *)
Lemma patch_touches_two_paths_witness :
  let w := one_file config_json scenario_document in
  let run := @patch_xmrig_config_inplace ExactDecimal Posix config_json
               (lit "NEWWORKER") w in
  (forall q, q <> config_json -> q <> bak_path config_json ->
             files (snd run) q = files w q)
  /\ (exists l, writes (snd run) = writes w ++ l
                /\ (length l <= 2)%nat
                /\ forall q b, In (q, b) l -> q = config_json \/ q = bak_path config_json).
Proof.
  intros w run.
  refine (@patch_touches_two_paths ExactDecimal Posix config_json (lit "NEWWORKER") w
            (snd run) (fst run) _).
  vm_compute. reflexivity.
Defined.

(** [count_zero_iff_same_document] in the end-to-end scenario. *)
Lemma count_zero_iff_same_document_witness :
  let w := one_file config_json scenario_document in
  let w' := snd (@patch_xmrig_config_inplace ExactDecimal Posix config_json
                   (lit "NEWWORKER") w) in
  exists content saved_text data data',
    file_text w config_json = Some content
    /\ file_text w' config_json = Some saved_text
    /\ @json_loads ExactDecimal content = Ok data
    /\ json_loads saved_text = Ok data'
    /\ (2%nat = 0%nat <-> data' = data).
Proof.
  intros w w'.
  refine (@count_zero_iff_same_document ExactDecimal Posix ExactDecimal_laws config_json
            (lit "NEWWORKER") w w' 2%nat config_json (bak_path config_json)
            [preview_line 0 (lit "WALLET123.oldworker") (lit "WALLET123.NEWWORKER");
             preview_line 1 (lit "WALLET123.oldworker") (lit "WALLET123.NEWWORKER")] _).
  vm_compute. reflexivity.
Defined.
